(** * Fama: two-stage similarity-search annotation engine

    A shallow embedding of the annotation core of Fama:
    - [lib/protein_functional_pipeline.py]: [get_protein_score],
      [compare_hits_lca], [parse_background_output], [import_protein_fasta];
    - [Fama/DiamondParser/DiamondParser.py]: [parse_fastq_seqid],
      [parse_reference_output], [parse_background_output], [import_fasta],
      [export_hit_fasta];
    - [Fama/ReferenceLibrary/TaxonomyData.py]: [load_taxdata], [get_lca],
      [get_lca2], [get_upper_level_taxon], [get_taxonomy_rank] and the lineage
      queries;
    - [lib/utils/utils.py]: [sanitize_file_name].

    A Python float (bitscore, identity, coverage) is the rational [Q] it
    denotes. Comparisons of floats are exact on these values; the product
    [best_bitscore * (1.0 - bitscore_range_cutoff)], whose rounding decides
    which hits pass the bitscore window, is rounded as binary64 rounds it;
    the sum and the quotient behind the scores are left unrounded. Python
    ints are [Z]; Python [str] is [string]; dictionaries whose only
    use is lookup are [gmap]s, dictionaries whose iteration order is observed
    ([Counter], the per-function best-hit dictionary) are insertion-ordered
    association lists. *)

From Stdlib Require Import Ascii String QArith Qround Qabs Qpower Lqa.
From stdpp Require Import gmap strings list.

Open Scope string_scope.
Open Scope list_scope.

(* ===================================================================== *)
(** * Exceptions and outcomes *)
(* ===================================================================== *)

(** The Python exceptions the modelled code can raise. [OutOfFuel] is not a
    Python exception: it marks a [while] loop that was cut by the fuel of the
    model. *)
Inductive exn : Type :=
  | AttributeError
  | IndexError
  | KeyError
  | ValueError
  | ZeroDivisionError
  | LoadFailed
  | OutOfFuel.

Inductive outcome (A : Type) : Type :=
  | Ok (a : A)
  | Raise (e : exn).
Arguments Ok {A} a.
Arguments Raise {A} e.

(* ===================================================================== *)
(** * Rational comparisons *)
(* ===================================================================== *)

(** [x > y] on floats, as a boolean. *)
Definition Qgtb (x y : Q) : bool := negb (Qle_bool x y).

(** [x >= y] on floats, as a boolean. *)
Definition Qgeb (x y : Q) : bool := Qle_bool y x.

(** [x < y] on floats, as a boolean. *)
Definition Qltb (x y : Q) : bool := negb (Qle_bool y x).

(** Python's [a / b] on floats: raises [ZeroDivisionError] when [b] is zero. *)
Definition py_div (a b : Q) : outcome Q :=
  if Qeq_bool b 0 then Raise ZeroDivisionError else Ok (a / b)%Q.

(* ===================================================================== *)
(** * Binary64 arithmetic *)
(* ===================================================================== *)

(** Python's [float] is IEEE 754 binary64: the result of [a - b] and of
    [a * b] is the exact result rounded to the nearest binary64 number, ties
    to the one with an even significand. A finite binary64 number is
    [m * 2^e] with [|m| < 2^53] and [-1074 <= e]; overflow to infinity (an
    exact result of magnitude [2^1024] or more) is not modelled. *)

(** [2^e]. *)
Definition pow2 (e : Z) : Q := (2 ^ e)%Q.

(** The integer part of the binary logarithm of a positive rational. *)
Definition Qlog2 (q : Q) : Z :=
  let k := (Z.log2 (Qnum q) - Z.log2 (Z.pos (Qden q)))%Z in
  if Qle_bool (pow2 k) q then k else (k - 1)%Z.

(** The nearest integer, ties to even. *)
Definition rne (q : Q) : Z :=
  let f := Qfloor q in
  match (q - inject_Z f ?= 1 # 2)%Q with
  | Lt => f
  | Gt => (f + 1)%Z
  | Eq => if Z.even f then f else (f + 1)%Z
  end.

(** The exponent of the last place of the binary64 numbers around [q]: the
    significand has 53 bits, and the exponent is at least [-1074]
    (subnormal numbers). *)
Definition f64_exponent (q : Q) : Z := Z.max (Qlog2 (Qabs q) - 52) (-1074).

(** The binary64 number nearest to [q]. *)
Definition f64_round (q : Q) : Q :=
  let e := f64_exponent q in
  (inject_Z (rne (q / pow2 e)) * pow2 e)%Q.

(** [a - b] and [a * b] on floats. *)
Definition f64_sub (a b : Q) : Q := f64_round (a - b).

Definition f64_mul (a b : Q) : Q := f64_round (a * b).

(* ===================================================================== *)
(** * get_protein_score and the average coverage *)
(* ===================================================================== *)

(** [get_protein_score(average_coverage, coverage)]:
<<
    result = coverage
    if average_coverage > 0:
        result = coverage / average_coverage
    return result
>> *)
Definition get_protein_score (average_coverage coverage : Q) : outcome Q :=
  let result := coverage in
  if Qgtb average_coverage 0 then py_div coverage average_coverage
  else Ok result.

(** The head of [parse_background_output]: the average of the values of
    [coverage_data] (here the list of its values), [0.0] when the dictionary is
    empty.
<<
    total_coverage = 0.0
    if coverage_data:
        for contig_id in coverage_data.keys():
            total_coverage += coverage_data[contig_id]
        average_coverage = total_coverage/len(coverage_data)
    else:
        average_coverage = 0.0
>> *)
Definition get_average_coverage (coverage_values : list Q) : outcome Q :=
  match coverage_values with
  | [] => Ok 0%Q
  | _ :: _ =>
      let total_coverage := foldl Qplus 0%Q coverage_values in
      py_div total_coverage (inject_Z (Z.of_nat (length coverage_values)))
  end.

(* ===================================================================== *)
(** * Python string helpers *)
(* ===================================================================== *)

(** [s.split(c)] for a one-character separator [c]. *)
Fixpoint split_char (c : ascii) (s : string) : list string :=
  match s with
  | EmptyString => [""]
  | String a s' =>
      let r := split_char c s' in
      if Ascii.eqb a c then "" :: r
      else match r with
           | [] => [String a ""]
           | t :: ts => String a t :: ts
           end
  end.

(** [sep.join(l)]. *)
Definition join (sep : string) (l : list string) : string := String.concat sep l.

(** [s.split(sep)[0]]: the part of [s] before the first occurrence of the
    (non-empty) separator [sep], all of [s] when [sep] does not occur. *)
Fixpoint before_sep (sep s : string) : string :=
  if String.prefix sep s then ""
  else match s with
       | EmptyString => ""
       | String a s' => String a (before_sep sep s')
       end.

(** [s[1:]]. *)
Definition drop_first (s : string) : string :=
  match s with
  | EmptyString => ""
  | String _ s' => s'
  end.

(** [l[:-k]]. *)
Definition drop_last {A} (k : nat) (l : list A) : list A :=
  take (length l - k) l.

(** [l[-k]] for [k >= 1]: [None] stands for [IndexError]. *)
Definition from_end {A} (k : nat) (l : list A) : option A :=
  if decide (k <= length l)%nat then l !! (length l - k)%nat else None.

(** [s.endswith(suffix)]. *)
Definition endswith (s suffix : string) : bool :=
  String.prefix (String.rev suffix) (String.rev s).

(** [s[:-2]]. *)
Definition drop_last2 (s : string) : string :=
  String.substring 0 (String.length s - 2) s.

(** [s[-1]] as a one-character string ([""] is never returned by the callers:
    they only index strings known to be non-empty). *)
Definition last_char (s : string) : string :=
  String.substring (String.length s - 1) 1 s.

(** [s[0]] as a one-character string; [None] stands for [IndexError]. *)
Definition first_char (s : string) : option string :=
  match s with
  | EmptyString => None
  | String a _ => Some (String a "")
  end.

(* ===================================================================== *)
(** * Data model: DiamondHit, DiamondHitList, AnnotatedRead *)
(* ===================================================================== *)

(** Modelled from the spec: class [DiamondHit] ([Fama/DiamondParser/DiamondHit.py]
    is not among the sources). One alignment row; [functions] is the list of
    function ids attached by annotation, [""] being the sentinel for
    "no function". The aligned length is called [aln_length] here ([length]
    in the source). *)
Record DiamondHit : Type := mkDiamondHit {
  query_id : string;
  subject_id : string;
  identity : Q;
  aln_length : Z;
  q_start : Z;
  q_end : Z;
  s_start : Z;
  s_end : Z;
  evalue : Q;
  bitscore : Q;
  functions : list string
}.

Definition set_query_id (q : string) (h : DiamondHit) : DiamondHit :=
  mkDiamondHit q (subject_id h) (identity h) (aln_length h) (q_start h)
    (q_end h) (s_start h) (s_end h) (evalue h) (bitscore h) (functions h).

Definition set_functions (fs : list string) (h : DiamondHit) : DiamondHit :=
  mkDiamondHit (query_id h) (subject_id h) (identity h) (aln_length h)
    (q_start h) (q_end h) (s_start h) (s_end h) (evalue h) (bitscore h) fs.

(** Modelled from the spec: class [DiamondHitList]
    ([Fama/DiamondParser/DiamondHitList.py] is not among the sources): the
    query id given to the constructor and the ordered list [hits];
    [hits_number] is the length of [hits]. *)
Record DiamondHitList : Type := mkDiamondHitList {
  hl_query_id : string;
  hits : list DiamondHit
}.

(** [DiamondHitList(query_id)]. *)
Definition new_hit_list (q : string) : DiamondHitList := mkDiamondHitList q [].

Definition add_hit (h : DiamondHit) (l : DiamondHitList) : DiamondHitList :=
  mkDiamondHitList (hl_query_id l) (hits l ++ [h]).

Definition hits_number (l : DiamondHitList) : nat := length (hits l).

(** Modelled from the spec: class [AnnotatedRead]
    ([Fama/ReadUtil/AnnotatedRead.py] is not among the sources). [status] is
    one of ["unprocessed"], ["function"], ["nofunction"]; [read_functions] is
    the attribute [functions] (function id to accumulated score); [taxonomy] is
    [None] until cross-validation assigns it. *)
Record AnnotatedRead : Type := mkAnnotatedRead {
  read_id : string;
  read_id_line : string;
  status : string;
  hit_list : DiamondHitList;
  read_functions : gmap string Q;
  taxonomy : option string
}.

(** [AnnotatedRead(read_id)] followed by [read.hit_list = hl]. *)
Definition new_read (rid : string) (hl : DiamondHitList) : AnnotatedRead :=
  mkAnnotatedRead rid "" "unprocessed" hl ∅ None.

(** Modelled from the spec: [AnnotatedRead.set_status]. *)
Definition set_status (s : string) (r : AnnotatedRead) : AnnotatedRead :=
  mkAnnotatedRead (read_id r) (read_id_line r) s (hit_list r)
    (read_functions r) (taxonomy r).

Definition set_hit_list (hl : DiamondHitList) (r : AnnotatedRead) : AnnotatedRead :=
  mkAnnotatedRead (read_id r) (read_id_line r) (status r) hl
    (read_functions r) (taxonomy r).

Definition set_taxonomy (t : string) (r : AnnotatedRead) : AnnotatedRead :=
  mkAnnotatedRead (read_id r) (read_id_line r) (status r) (hit_list r)
    (read_functions r) (Some t).

Definition set_read_functions (m : gmap string Q) (r : AnnotatedRead) : AnnotatedRead :=
  mkAnnotatedRead (read_id r) (read_id_line r) (status r) (hit_list r)
    m (taxonomy r).

(** Modelled from the spec: [AnnotatedRead.append_functions]: every score of
    [new_functions] is added to the score already recorded for the function
    (accumulated, never overwritten). *)
Definition append_functions (new_functions : list (string * Q))
    (r : AnnotatedRead) : AnnotatedRead :=
  set_read_functions
    (foldl (fun m kv =>
              match m !! kv.1 with
              | Some x => <[kv.1 := (x + kv.2)%Q]> m
              | None => <[kv.1 := kv.2]> m
              end)
           (read_functions r) new_functions)
    r.

(* ===================================================================== *)
(** * Reference data and annotation *)
(* ===================================================================== *)

(** The [ref_data] collaborator ([ReferenceData], external to the core): the
    two lookups the engine calls. *)
Record ReferenceData : Type := mkReferenceData {
  lookup_protein_function : string -> list string;
  lookup_protein_tax : string -> string
}.

(** Modelled from the spec: [DiamondHit.annotate_hit(ref_data)]
    ([DiamondHit.py] is not among the sources): the function ids of the
    subject are attached; a subject that maps to no function gets the
    sentinel empty-function entry. *)
Definition annotate_hit (ref_data : ReferenceData) (h : DiamondHit) : DiamondHit :=
  set_functions
    (match lookup_protein_function ref_data (subject_id h) with
     | [] => [""]
     | fs => fs
     end) h.

(** Modelled from the spec: [DiamondHitList.annotate_hits(ref_data)]: every
    hit of the list is annotated. *)
Definition annotate_hits (ref_data : ReferenceData) (l : DiamondHitList) : DiamondHitList :=
  mkDiamondHitList (hl_query_id l) (annotate_hit ref_data <$> hits l).

(* ===================================================================== *)
(** * compare_hits_lca *)
(* ===================================================================== *)

(** The coverage of the contig of a protein:
<<
    protein_id = read.read_id_line
    protein_id_tokens = protein_id.split(' # ')
    contig_id = '_'.join(protein_id_tokens[0].split('_')[:-1])[1:]
    coverage = 1.0
    if coverage_data is not None and contig_id in coverage_data:
        coverage = coverage_data[contig_id]
>> *)
Definition contig_id_of (protein_id : string) : string :=
  drop_first (join "_" (drop_last 1 (split_char "_" (before_sep " # " protein_id)))).

Definition get_coverage (coverage_data : option (gmap string Q)) (read : AnnotatedRead) : Q :=
  match coverage_data with
  | Some d => default 1%Q (d !! contig_id_of (read_id_line read))
  | None => 1%Q
  end.

(** The best hit of the new list:
<<
    best_bitscore = 0.0
    best_hit = None
    for new_hit in new_hit_list.hits:
        bitscore = new_hit.bitscore
        if bitscore > best_bitscore:
            best_hit = new_hit
            best_bitscore = bitscore
>> *)
Definition find_best_hit (new_hit_list : list DiamondHit) : option DiamondHit * Q :=
  foldl (fun acc new_hit =>
           if Qgtb (bitscore new_hit) acc.2 then (Some new_hit, bitscore new_hit)
           else acc)
        (None, 0%Q) new_hit_list.

(** The hits of [new_hits] are Python objects that [compare_hits_lca] mutates
    later on; each one is referred to by its position in [new_hit_list.hits],
    or is the anchor hit of the read. *)
Inductive hit_ref : Type :=
  | NewHit (i : nat)
  | AnchorHit.

Definition kept_hit : Type := hit_ref * DiamondHit.

(** The lower end of the bitscore window, as the floats give it:
<<
    bitscore_lower_cutoff = best_bitscore * (1.0 - bitscore_range_cutoff)
>> *)
Definition bitscore_lower_cutoff (best_bitscore bitscore_range_cutoff : Q) : Q :=
  f64_mul best_bitscore (f64_sub 1 bitscore_range_cutoff).

(** The bitscore window:
<<
    new_hits = [new_hit for new_hit in new_hit_list.hits
                if new_hit.bitscore > bitscore_lower_cutoff]
>> *)
Definition window_filter (bitscore_lower_cutoff : Q) (new_hit_list : list DiamondHit)
  : list kept_hit :=
  List.filter (fun p : kept_hit => Qgtb (bitscore p.2) bitscore_lower_cutoff)
    (imap (fun i h => (NewHit i, h)) new_hit_list).

(** Re-admission of the anchor hit:
<<
    if hit.subject_id not in [new_hit.subject_id for new_hit in new_hits] \
            and hit.bitscore >= best_bitscore:
        new_hits.append(hit)
>> *)
Definition readmit (new_hits : list kept_hit) (hit : DiamondHit) (best_bitscore : Q)
  : list kept_hit :=
  if bool_decide (subject_id hit ∉ (fun p : kept_hit => subject_id p.2) <$> new_hits)
     && Qgeb (bitscore hit) best_bitscore
  then new_hits ++ [(AnchorHit, hit)]
  else new_hits.

(** [new_functions_counter[new_func] += 1] on a [Counter], kept in insertion
    order. *)
Definition counter_incr (f : string) (c : list (string * nat)) : list (string * nat) :=
  if bool_decide (f ∈ c.*1)
  then (fun kv : string * nat => if String.eqb kv.1 f then (kv.1, S kv.2) else kv) <$> c
  else c ++ [(f, 1%nat)].

(** An entry of [new_functions_dict]: keys ['bit_score'] and ['hit']. *)
Record best_entry : Type := mkBestEntry {
  bit_score : Q;
  hit : kept_hit
}.

(** The update of [new_functions_dict] for one function of one hit:
<<
    if new_func in new_functions_dict:
        if new_hit.bitscore > new_functions_dict[new_func]['bit_score']:
            new_functions_dict[new_func]['bit_score'] = new_hit.bitscore
            new_functions_dict[new_func]['hit'] = new_hit
    else:
        new_functions_dict[new_func]['bit_score'] = new_hit.bitscore
        new_functions_dict[new_func]['hit'] = new_hit
>> *)
Definition dict_update (f : string) (new_hit : kept_hit)
    (d : list (string * best_entry)) : list (string * best_entry) :=
  if bool_decide (f ∈ d.*1)
  then (fun kv : string * best_entry =>
          if String.eqb kv.1 f
          then (if Qgtb (bitscore new_hit.2) (bit_score kv.2)
                then (kv.1, mkBestEntry (bitscore new_hit.2) new_hit)
                else kv)
          else kv) <$> d
  else d ++ [(f, mkBestEntry (bitscore new_hit.2) new_hit)].

(** The two loops over [new_hits] and the functions of each hit. *)
Definition tally (new_hits : list kept_hit)
  : list (string * nat) * list (string * best_entry) :=
  foldl (fun acc new_hit =>
           foldl (fun acc' new_func =>
                    (counter_incr new_func acc'.1, dict_update new_func new_hit acc'.2))
                 acc (functions new_hit.2))
        ([], []) new_hits.

(** [counter.most_common(1)[0]]: the first entry, in insertion order, whose
    count is maximal; [None] stands for the [IndexError] of an empty counter. *)
Definition most_common_1 (c : list (string * nat)) : option (string * nat) :=
  foldl (fun best kv =>
           match best with
           | None => Some kv
           | Some b => if (b.2 <? kv.2)%nat then Some kv else Some b
           end)
        None c.

(** The scores of the functions:
<<
    for function in new_functions_dict:
        if function == '':
            continue
        new_functions[function] = get_protein_score(average_coverage, coverage)
>> *)
Fixpoint score_functions (keys : list string) (average_coverage coverage : Q)
  : outcome (list (string * Q)) :=
  match keys with
  | [] => Ok []
  | f :: keys' =>
      if String.eqb f "" then score_functions keys' average_coverage coverage
      else match get_protein_score average_coverage coverage with
           | Raise e => Raise e
           | Ok s =>
               match score_functions keys' average_coverage coverage with
               | Raise e => Raise e
               | Ok r => Ok ((f, s) :: r)
               end
           end
  end.

(** The new list of hits; the hits chosen are mutated in place, so the
    objects of [new_hit_list] ([store]) change with them:
<<
    _hit_list = DiamondHitList(read.read_id)
    for new_func in new_functions_dict:
        if new_func == '':
            continue
        good_hit = new_functions_dict[new_func]['hit']
        good_hit.query_id = read.read_id
        good_hit.annotate_hit(ref_data)
        _hit_list.add_hit(good_hit)
>> *)
Definition rebuild_hits (ref_data : ReferenceData) (rid : string) (anchor : DiamondHit)
    (d : list (string * best_entry)) (store : list DiamondHit)
  : list DiamondHit * DiamondHitList :=
  foldl (fun acc (kv : string * best_entry) =>
           if String.eqb kv.1 "" then acc
           else match (hit kv.2).1 with
                | NewHit i =>
                    match acc.1 !! i with
                    | Some g =>
                        let good_hit := annotate_hit ref_data (set_query_id rid g) in
                        (<[i := good_hit]> acc.1, add_hit good_hit acc.2)
                    | None => acc
                    end
                | AnchorHit =>
                    let good_hit := annotate_hit ref_data (set_query_id rid anchor) in
                    (acc.1, add_hit good_hit acc.2)
                end)
        (store, new_hit_list rid) d.

(** How the body of the loop over the hits of the read ends. *)
Inductive flow : Type :=
  | Returned
  | Continue
  | Raised (e : exn).

(** The body of the loop of [compare_hits_lca] for the hit [anchor] of the
    read whose coordinates are [(hit_start, hit_end)]. [store] holds the hits
    of [new_hit_list]; [taxonomy_get_lca] is [taxonomy_data.get_lca]. *)
Definition compare_hit (ref_data : ReferenceData)
    (taxonomy_get_lca : list string -> outcome string)
    (bitscore_range_cutoff average_coverage coverage : Q)
    (anchor : DiamondHit) (read : AnnotatedRead) (store : list DiamondHit)
  : AnnotatedRead * list DiamondHit * flow :=
  let '(best_hit, best_bitscore) := find_best_hit store in
  match best_hit with
  | None => (set_status "nofunction" read, store, Returned)
  | Some bh =>
      if bool_decide ("" ∈ functions bh)
      then (set_status "nofunction" read, store, Returned)
      else
        let read1 := set_status "function" read in
        let bitscore_lower_cutoff :=
          bitscore_lower_cutoff best_bitscore bitscore_range_cutoff in
        let new_hits :=
          readmit (window_filter bitscore_lower_cutoff store) anchor best_bitscore in
        let taxonomy_ids :=
          remove_dups ((fun h : kept_hit => lookup_protein_tax ref_data (subject_id h.2))
                         <$> new_hits) in
        let '(new_functions_counter, new_functions_dict) := tally new_hits in
        match most_common_1 new_functions_counter with
        | None => (read1, store, Raised IndexError)
        | Some (f, _) =>
            if String.eqb f ""
            then (set_status "nofunction" read1, store, Returned)
            else
              match score_functions new_functions_dict.*1 average_coverage coverage with
              | Raise e => (read1, store, Raised e)
              | Ok new_functions =>
                  let read2 := append_functions new_functions read1 in
                  let '(store', _hit_list) :=
                    rebuild_hits ref_data (read_id read) anchor new_functions_dict store in
                  let read3 := set_hit_list _hit_list read2 in
                  match taxonomy_get_lca taxonomy_ids with
                  | Raise e => (read3, store', Raised e)
                  | Ok t => (set_taxonomy t read3, store', Continue)
                  end
              end
        end
  end.

(** The loop [for hit in read.hit_list.hits] of [compare_hits_lca]: it runs
    over the list the read had when the call started, whatever the body
    assigns to [read.hit_list]. *)
Fixpoint compare_loop (ref_data : ReferenceData)
    (taxonomy_get_lca : list string -> outcome string)
    (hit_start hit_end : Z) (bitscore_range_cutoff average_coverage coverage : Q)
    (old_hits : list DiamondHit) (read : AnnotatedRead) (store : list DiamondHit)
  : AnnotatedRead * list DiamondHit * option exn :=
  match old_hits with
  | [] => (read, store, None)
  | h :: rest =>
      if (q_start h =? hit_start)%Z && (q_end h =? hit_end)%Z
      then
        match compare_hit ref_data taxonomy_get_lca bitscore_range_cutoff
                average_coverage coverage h read store with
        | (read', store', Returned) => (read', store', None)
        | (read', store', Raised e) => (read', store', Some e)
        | (read', store', Continue) =>
            compare_loop ref_data taxonomy_get_lca hit_start hit_end
              bitscore_range_cutoff average_coverage coverage rest read' store'
        end
      else
        compare_loop ref_data taxonomy_get_lca hit_start hit_end
          bitscore_range_cutoff average_coverage coverage rest read store
  end.

(** [compare_hits_lca(read, hit_start, hit_end, new_hit_list,
    bitscore_range_cutoff, average_coverage, taxonomy_data, ref_data,
    coverage_data)]. The function returns nothing and mutates its arguments;
    the model returns the read and the hits of [new_hit_list] as the call
    leaves them, and the exception the call raised, if any. *)
Definition compare_hits_lca (read : AnnotatedRead) (hit_start hit_end : Z)
    (new_hits : DiamondHitList) (bitscore_range_cutoff average_coverage : Q)
    (taxonomy_get_lca : list string -> outcome string) (ref_data : ReferenceData)
    (coverage_data : option (gmap string Q))
  : AnnotatedRead * list DiamondHit * option exn :=
  let coverage := get_coverage coverage_data read in
  compare_loop ref_data taxonomy_get_lca hit_start hit_end bitscore_range_cutoff
    average_coverage coverage (hits (hit_list read)) read (hits new_hits).

(* ===================================================================== *)
(** * Rows, cutoffs and the working set *)
(* ===================================================================== *)

(** A row of the tabular output of the aligner, with its numeric fields
    already read (a row with a wrong field count or a field that is not a
    number is rejected before it reaches the engine). *)
Record Row : Type := mkRow {
  row_query : string;
  row_subject : string;
  row_identity : Q;
  row_length : Z;
  row_q_start : Z;
  row_q_end : Z;
  row_s_start : Z;
  row_s_end : Z;
  row_evalue : Q;
  row_bitscore : Q
}.

(** Modelled from the spec: [DiamondHit.create_hit(row)] ([DiamondHit.py] is
    not among the sources): the hit of a row, with no function attached yet. *)
Definition create_hit (query : string) (row : Row) : DiamondHit :=
  mkDiamondHit query (row_subject row) (row_identity row) (row_length row)
    (row_q_start row) (row_q_end row) (row_s_start row) (row_s_end row)
    (row_evalue row) (row_bitscore row) [].

(** The cutoffs that [parser.config] gives for the collection. *)
Record Config : Type := mkConfig {
  identity_cutoff : Q;
  length_cutoff : Z;
  overlap_cutoff : Q;
  biscore_range_cutoff : Q
}.

(** [int(s)] for the decimal numerals that [str(n)] produces (an optional
    minus sign and digits); [None] stands for [ValueError]. Python's [int]
    also reads a numeral with a plus sign, with white space around it or
    with underscores between its digits; these spellings, which [str] never
    produces, are not modelled: on them [py_int] answers [None]. *)
Definition digit_of (a : ascii) : option Z :=
  let n := Z.of_nat (nat_of_ascii a) in
  if (48 <=? n)%Z && (n <=? 57)%Z then Some (n - 48)%Z else None.

Fixpoint digits_value (acc : Z) (s : string) : option Z :=
  match s with
  | EmptyString => Some acc
  | String a s' =>
      match digit_of a with
      | Some d => digits_value (10 * acc + d)%Z s'
      | None => None
      end
  end.

Definition py_int (s : string) : option Z :=
  match s with
  | EmptyString => None
  | String "-" EmptyString => None
  | String "-" s' => Z.opp <$> digits_value 0 s'
  | _ => digits_value 0 s
  end.

(* ===================================================================== *)
(** * DiamondHitList.filter_list *)
(* ===================================================================== *)

(** The query interval of a hit, whatever the strand. *)
Definition interval_lo (h : DiamondHit) : Z := Z.min (q_start h) (q_end h).
Definition interval_hi (h : DiamondHit) : Z := Z.max (q_start h) (q_end h).
Definition interval_len (h : DiamondHit) : Z := (interval_hi h - interval_lo h + 1)%Z.

(** Modelled from the spec: the overlap fraction of two hits is the length of
    the intersection of their query intervals over the length of the shorter
    interval. *)
Definition overlap_fraction (h1 h2 : DiamondHit) : Q :=
  let inter :=
    Z.max 0 (Z.min (interval_hi h1) (interval_hi h2)
             - Z.max (interval_lo h1) (interval_lo h2) + 1) in
  (inject_Z inter / inject_Z (Z.min (interval_len h1) (interval_len h2)))%Q.

(** Stable sort by descending bitscore, by insertion. *)
Fixpoint insert_by_bitscore (h : DiamondHit) (l : list DiamondHit) : list DiamondHit :=
  match l with
  | [] => [h]
  | x :: l' =>
      if Qgtb (bitscore h) (bitscore x) then h :: x :: l'
      else x :: insert_by_bitscore h l'
  end.

Definition sort_by_bitscore (l : list DiamondHit) : list DiamondHit :=
  foldr insert_by_bitscore [] (reverse l).

(** Greedy acceptance: a candidate is rejected when its overlap fraction with
    a hit already kept exceeds the cutoff. *)
Definition accept_hit (cutoff : Q) (kept : list DiamondHit) (h : DiamondHit)
  : list DiamondHit :=
  if existsb (fun k => Qgtb (overlap_fraction h k) cutoff) kept
  then kept else kept ++ [h].

(** Modelled from the spec: [DiamondHitList.filter_list(overlap_cutoff)]
    ([DiamondHitList.py] is not among the sources): the hits are sorted by
    descending bitscore and accepted greedily; the list retains the accepted
    hits in the order of acceptance. *)
Definition filter_list (cutoff : Q) (l : DiamondHitList) : DiamondHitList :=
  mkDiamondHitList (hl_query_id l)
    (foldl (accept_hit cutoff) [] (sort_by_bitscore (hits l))).

(* ===================================================================== *)
(** * DiamondParser.parse_fastq_seqid *)
(* ===================================================================== *)

(** [' ' in line]. *)
Definition has_space (s : string) : bool :=
  bool_decide (" "%char ∈ list_ascii_of_string s).

(** [parse_fastq_seqid(line)]: the read identifier and the end identifier.
    [end[0]] raises [IndexError] when the second token is empty. *)
Definition parse_fastq_seqid (line : string) : outcome (string * string) :=
  let line := if String.prefix "@" line then drop_first line else line in
  if has_space line then
    let line_tokens := split_char " " line in
    match line_tokens with
    | [t0; t1] =>
        match first_char t1 with
        | Some e => Ok (t0, e)
        | None => Raise IndexError
        end
    | [t0; _; _] =>
        if endswith t0 ".1" || endswith t0 ".2"
        then Ok (drop_last2 t0, last_char t0)
        else Ok (t0, "")
    | t0 :: _ => Ok (t0, "")
    | [] => Raise IndexError
    end
  else if endswith line "/1" || endswith line "/2" then
    Ok (drop_last2 line, last_char line)
  else if endswith line ".1" || endswith line ".2" then
    Ok (drop_last2 line, last_char line)
  else Ok (line, "").

(* ===================================================================== *)
(** * DiamondParser.parse_reference_output *)
(* ===================================================================== *)

(** The processing of the hits collected for a query when a row of another
    query is reached:
<<
    _hit_list.filter_list(self.config.get_overlap_cutoff(self.collection))
    if _hit_list.hits_number != 0:
        _hit_list.annotate_hits(self.ref_data)
        read = AnnotatedRead(current_sequence_read_id)
        read.hit_list = _hit_list
        self.reads[current_sequence_read_id] = read
>> *)
Definition reference_group_interior (config : Config) (ref_data : ReferenceData)
    (current_sequence_read_id : string) (_hit_list : DiamondHitList)
    (reads : gmap string AnnotatedRead) : gmap string AnnotatedRead :=
  let _hit_list := filter_list (overlap_cutoff config) _hit_list in
  if decide (hits_number _hit_list <> 0%nat)
  then <[current_sequence_read_id :=
           new_read current_sequence_read_id (annotate_hits ref_data _hit_list)]> reads
  else reads.

(** The processing of the hits collected for the last query, at the end of
    the file:
<<
    if _hit_list.hits_number != 0:
        _hit_list.filter_list(self.config.get_overlap_cutoff(self.collection))
        _hit_list.annotate_hits(self.ref_data)
        read = AnnotatedRead(current_sequence_read_id)
        read.hit_list = _hit_list
        self.reads[current_sequence_read_id] = read
>> *)
Definition reference_group_eof (config : Config) (ref_data : ReferenceData)
    (current_sequence_read_id : string) (_hit_list : DiamondHitList)
    (reads : gmap string AnnotatedRead) : gmap string AnnotatedRead :=
  if decide (hits_number _hit_list <> 0%nat)
  then <[current_sequence_read_id :=
           new_read current_sequence_read_id
             (annotate_hits ref_data (filter_list (overlap_cutoff config) _hit_list))]>
         reads
  else reads.

(** The state of the loop over the rows: the query in flight, its hits, and
    the working set [self.reads]. *)
Record RefState : Type := mkRefState {
  ref_current : string;
  ref_hits : DiamondHitList;
  ref_reads : gmap string AnnotatedRead
}.

(** One turn of the loop [for row in tsvin]; an exception leaves the state as
    it was when it was raised. *)
Definition reference_row (config : Config) (ref_data : ReferenceData)
    (st : RefState) (row : Row) : RefState * option exn :=
  match parse_fastq_seqid (row_query row) with
  | Raise e => (st, Some e)
  | Ok (rid, _) =>
      let hit := create_hit rid row in
      if Qltb (identity hit) (identity_cutoff config) then (st, None)
      else if (aln_length hit <? length_cutoff config)%Z then (st, None)
      else if negb (String.eqb (query_id hit) (ref_current st)) then
        let reads' :=
          reference_group_interior config ref_data (ref_current st) (ref_hits st)
            (ref_reads st) in
        (mkRefState (query_id hit) (add_hit hit (new_hit_list (query_id hit))) reads',
         None)
      else (mkRefState (ref_current st) (add_hit hit (ref_hits st)) (ref_reads st), None)
  end.

Fixpoint reference_rows (config : Config) (ref_data : ReferenceData)
    (st : RefState) (rows : list Row) : RefState * option exn :=
  match rows with
  | [] => (st, None)
  | row :: rows' =>
      match reference_row config ref_data st row with
      | (st', None) => reference_rows config ref_data st' rows'
      | (st', Some e) => (st', Some e)
      end
  end.

(** [parse_reference_output(self)] on the rows of the file: the working set
    the call leaves, and the exception it raised, if any. *)
Definition parse_reference_output (config : Config) (ref_data : ReferenceData)
    (reads : gmap string AnnotatedRead) (rows : list Row)
  : gmap string AnnotatedRead * option exn :=
  match reference_rows config ref_data (mkRefState "" (new_hit_list "") reads) rows with
  | (st, Some e) => (ref_reads st, Some e)
  | (st, None) =>
      (reference_group_eof config ref_data (ref_current st) (ref_hits st) (ref_reads st),
       None)
  end.

(* ===================================================================== *)
(** * parse_background_output *)
(* ===================================================================== *)

(** ['|'.join(current_query_id.split('|')[:-2])]: the identifier of the read
    in a composite query id [base|start|end]. *)
Definition base_id (current_query_id : string) : string :=
  join "|" (drop_last 2 (split_char "|" current_query_id)).

(** What the two versions of [parse_background_output] do with the hits
    collected for a composite query id: a function from the id, the hits and
    the working set to the working set and the exception raised, if any. *)
Definition finalizer : Type :=
  string -> DiamondHitList -> gmap string AnnotatedRead ->
  gmap string AnnotatedRead * option exn.

(** The group processing of [lib/protein_functional_pipeline.py]:
<<
    _hit_list.annotate_hits(parser.ref_data)
    current_query_id_tokens = current_query_id.split('|')
    protein_id = '|'.join(current_query_id_tokens[:-2])
    hit_start = int(current_query_id_tokens[-2])
    hit_end = int(current_query_id_tokens[-1])
    if protein_id in parser.reads.keys():
        compare_hits_lca(parser.reads[protein_id], hit_start, hit_end, _hit_list,
                         biscore_range_cutoff, average_coverage,
                         parser.taxonomy_data, parser.ref_data, coverage_data)
    else:
        print('Protein not found: ', protein_id)
>> *)
Definition background_group (config : Config) (ref_data : ReferenceData)
    (taxonomy_get_lca : list string -> outcome string)
    (average_coverage : Q) (coverage_data : option (gmap string Q)) : finalizer :=
  fun current_query_id _hit_list reads =>
    let _hit_list := annotate_hits ref_data _hit_list in
    let current_query_id_tokens := split_char "|" current_query_id in
    let protein_id := base_id current_query_id in
    match from_end 2 current_query_id_tokens with
    | None => (reads, Some IndexError)
    | Some t2 =>
        match py_int t2 with
        | None => (reads, Some ValueError)
        | Some hit_start =>
            match from_end 1 current_query_id_tokens with
            | None => (reads, Some IndexError)
            | Some t1 =>
                match py_int t1 with
                | None => (reads, Some ValueError)
                | Some hit_end =>
                    match reads !! protein_id with
                    | Some read =>
                        let '(read', _, e) :=
                          compare_hits_lca read hit_start hit_end _hit_list
                            (biscore_range_cutoff config) average_coverage
                            taxonomy_get_lca ref_data coverage_data in
                        (<[protein_id := read']> reads, e)
                    | None => (reads, None)
                    end
                end
            end
        end
    end.

(** The group processing of [DiamondParser.parse_background_output]; the
    comparison [compare_hits_erpk_lca] of [Fama/DiamondParser/hit_utils.py],
    which is not among the sources, is the parameter [compare]. A [KeyError]
    raised by the lookup of the read or by the comparison is caught.
<<
    _hit_list.annotate_hits(self.ref_data)
    current_query_id_tokens = current_query_id.split('|')
    hit_end = int(current_query_id_tokens[-1])
    hit_start = int(current_query_id_tokens[-2])
    read_id = '|'.join(current_query_id_tokens[:-2])
    try:
        compare_hits_erpk_lca(self.reads[read_id], hit_start, hit_end, _hit_list, ...)
    except KeyError:
        print ('Read not found: ', read_id)
>> *)
Definition background_group_erpk (ref_data : ReferenceData)
    (compare : AnnotatedRead -> Z -> Z -> DiamondHitList -> AnnotatedRead * option exn)
  : finalizer :=
  fun current_query_id _hit_list reads =>
    let _hit_list := annotate_hits ref_data _hit_list in
    let current_query_id_tokens := split_char "|" current_query_id in
    match from_end 1 current_query_id_tokens with
    | None => (reads, Some IndexError)
    | Some t1 =>
        match py_int t1 with
        | None => (reads, Some ValueError)
        | Some hit_end =>
            match from_end 2 current_query_id_tokens with
            | None => (reads, Some IndexError)
            | Some t2 =>
                match py_int t2 with
                | None => (reads, Some ValueError)
                | Some hit_start =>
                    let read_id := base_id current_query_id in
                    match reads !! read_id with
                    | Some read =>
                        let '(read', e) := compare read hit_start hit_end _hit_list in
                        (<[read_id := read']> reads,
                         match e with Some KeyError => None | _ => e end)
                    | None => (reads, None)
                    end
                end
            end
        end
    end.

(** The state of the loop over the rows: [current_query_id] and [_hit_list]
    (both [None] until the first row is read, and set together), and the
    working set. *)
Record BgState : Type := mkBgState {
  bg_current : option (string * DiamondHitList);
  bg_reads : gmap string AnnotatedRead
}.

(** One turn of the loop [for row in tsvin] of [parse_background_output]:
<<
    if current_query_id is None:
        current_query_id = row[0]
        _hit_list = DiamondHitList(current_query_id)
    hit = DiamondHit()
    hit.create_hit(row)
    if hit.identity < identity_cutoff:
        continue
    if hit.length < length_cutoff:
        continue
    if hit.query_id != current_query_id:
        (the group processing)
        current_query_id = hit.query_id
        _hit_list = DiamondHitList(current_query_id)
    _hit_list.add_hit(hit)
>> *)
Definition background_row (finalize : finalizer) (config : Config)
    (st : BgState) (row : Row) : BgState * option exn :=
  let '(current_query_id, _hit_list) :=
    match bg_current st with
    | None => (row_query row, new_hit_list (row_query row))
    | Some cur => cur
    end in
  let hit := create_hit (row_query row) row in
  if Qltb (identity hit) (identity_cutoff config)
  then (mkBgState (Some (current_query_id, _hit_list)) (bg_reads st), None)
  else if (aln_length hit <? length_cutoff config)%Z
  then (mkBgState (Some (current_query_id, _hit_list)) (bg_reads st), None)
  else if negb (String.eqb (query_id hit) current_query_id) then
    match finalize current_query_id _hit_list (bg_reads st) with
    | (reads', Some e) => (mkBgState (Some (current_query_id, _hit_list)) reads', Some e)
    | (reads', None) =>
        (mkBgState (Some (query_id hit, add_hit hit (new_hit_list (query_id hit)))) reads',
         None)
    end
  else (mkBgState (Some (current_query_id, add_hit hit _hit_list)) (bg_reads st), None).

Fixpoint background_rows (finalize : finalizer) (config : Config)
    (st : BgState) (rows : list Row) : BgState * option exn :=
  match rows with
  | [] => (st, None)
  | row :: rows' =>
      match background_row finalize config st row with
      | (st', None) => background_rows finalize config st' rows'
      | (st', Some e) => (st', Some e)
      end
  end.

(** The end of [parse_background_output], after the loop: the group
    processing of the hits in flight. With no row read, [_hit_list] is still
    [None] and [_hit_list.annotate_hits(...)] raises [AttributeError]. *)
Definition background_eof (finalize : finalizer) (st : BgState)
  : gmap string AnnotatedRead * option exn :=
  match bg_current st with
  | None => (bg_reads st, Some AttributeError)
  | Some (current_query_id, _hit_list) =>
      finalize current_query_id _hit_list (bg_reads st)
  end.

Definition background_pass (finalize : finalizer) (config : Config)
    (reads : gmap string AnnotatedRead) (rows : list Row)
  : gmap string AnnotatedRead * option exn :=
  match background_rows finalize config (mkBgState None reads) rows with
  | (st, Some e) => (bg_reads st, Some e)
  | (st, None) => background_eof finalize st
  end.

(** [parse_background_output(parser)] of [lib/protein_functional_pipeline.py]
    on the rows of the file; [coverage_data] is the dictionary that
    [load_coverage_data] returns (empty when no coverage file is given). *)
Definition parse_background_output (config : Config) (ref_data : ReferenceData)
    (taxonomy_get_lca : list string -> outcome string)
    (coverage_data : gmap string Q)
    (reads : gmap string AnnotatedRead) (rows : list Row)
  : gmap string AnnotatedRead * option exn :=
  match get_average_coverage (map_to_list coverage_data).*2 with
  | Raise e => (reads, Some e)
  | Ok average_coverage =>
      background_pass
        (background_group config ref_data taxonomy_get_lca average_coverage
           (Some coverage_data))
        config reads rows
  end.

(** [DiamondParser.parse_background_output(self)]: when the working set is
    empty it is first replaced by the result of [import_hit_list()] (the
    parameter [imported]). *)
Definition DiamondParser_parse_background_output (config : Config)
    (ref_data : ReferenceData)
    (compare : AnnotatedRead -> Z -> Z -> DiamondHitList -> AnnotatedRead * option exn)
    (imported : outcome (gmap string AnnotatedRead))
    (reads : gmap string AnnotatedRead) (rows : list Row)
  : gmap string AnnotatedRead * option exn :=
  match (if decide (size reads = 0%nat) then imported else Ok reads) with
  | Raise e => (reads, Some e)
  | Ok reads =>
      background_pass (background_group_erpk ref_data compare) config reads rows
  end.

(* ===================================================================== *)
(** * TaxonomyData: the tables and the monad of the queries *)
(* ===================================================================== *)

(** [Fama/const.py] is not among the sources. The two reserved ids are the
    ones the lineage queries of [TaxonomyData.py] spell out (['0'] and
    ['1']); the list [RANKS] is a parameter of the queries that use it. *)
Definition UNKNOWN_TAXONOMY_ID : string := "0".
Definition ROOT_TAXONOMY_ID : string := "1".

(** [self.names] and [self.nodes] are [defaultdict(dict)]: dictionaries from
    a taxonomy id to a dictionary with the keys ['name'], or ['parent'] and
    ['rank']. *)
Record TaxonomyData : Type := mkTaxonomyData {
  names : gmap string (gmap string string);
  nodes : gmap string (gmap string string)
}.

(** A query is a function of the tables that returns a value or raises, and
    leaves the tables in some state. *)
Definition Tax (A : Type) : Type := TaxonomyData -> outcome A * TaxonomyData.

Definition tax_ret {A} (a : A) : Tax A := fun t => (Ok a, t).

Definition tax_raise {A} (e : exn) : Tax A := fun t => (Raise e, t).

Definition tax_bind {A B} (m : Tax A) (k : A -> Tax B) : Tax B :=
  fun t =>
    match m t with
    | (Ok a, t') => k a t'
    | (Raise e, t') => (Raise e, t')
    end.

Declare Scope tax_scope.
Delimit Scope tax_scope with tax.
Notation "'let*' x ':=' m 'in' k" := (tax_bind m (fun x => k))
  (at level 10, x pattern, m at level 100, k at level 200) : tax_scope.
Open Scope tax_scope.

(** [k in self.nodes] and [k in self.names]: no entry is created. *)
Definition nodes_in (k : string) : Tax bool :=
  fun t => (Ok (bool_decide (is_Some (nodes t !! k))), t).

Definition names_in (k : string) : Tax bool :=
  fun t => (Ok (bool_decide (is_Some (names t !! k))), t).

(** [self.nodes[k]] and [self.names[k]] on a [defaultdict(dict)]: a missing
    key is created with an empty dictionary. *)
Definition nodes_item (k : string) : Tax (gmap string string) :=
  fun t =>
    match nodes t !! k with
    | Some d => (Ok d, t)
    | None => (Ok ∅, mkTaxonomyData (names t) (<[k := ∅]> (nodes t)))
    end.

Definition names_item (k : string) : Tax (gmap string string) :=
  fun t =>
    match names t !! k with
    | Some d => (Ok d, t)
    | None => (Ok ∅, mkTaxonomyData (<[k := ∅]> (names t)) (nodes t))
    end.

(** [d[key]] on a plain dictionary. *)
Definition dict_get (d : gmap string string) (key : string) : Tax string :=
  match d !! key with
  | Some v => tax_ret v
  | None => tax_raise KeyError
  end.

(** [self.nodes[k][key]] and [self.names[k][key]]. *)
Definition nodes_get (k key : string) : Tax string :=
  let* d := nodes_item k in dict_get d key.

Definition names_get (k key : string) : Tax string :=
  let* d := names_item k in dict_get d key.

(** [s.pop()] on a set with at most one element ([KeyError] when empty). *)
Definition set_pop (s : list string) : Tax string :=
  match s with
  | x :: _ => tax_ret x
  | [] => tax_raise KeyError
  end.

(** [s.add(x)] on a set kept as a list without duplicates. *)
Definition set_add (x : string) (s : list string) : list string :=
  if bool_decide (x ∈ s) then s else s ++ [x].

(* ===================================================================== *)
(** * TaxonomyData.get_lca *)
(* ===================================================================== *)

(** The loop that climbs to the child of the root:
<<
    while self.nodes[parent_id]['parent'] != ROOT_TAXONOMY_ID:
        if self.nodes[parent_id]['parent'] in self.names:
            parent_id = self.nodes[parent_id]['parent']
        else:
            parent_id = UNKNOWN_TAXONOMY_ID
        lineage.insert(0,parent_id)
        depth += 1
>> *)
Fixpoint lineage_loop (fuel : nat) (parent_id : string) (lineage : list string)
    (depth : nat) : Tax (list string * nat) :=
  match fuel with
  | O => tax_raise OutOfFuel
  | S fuel' =>
      let* p := nodes_get parent_id "parent" in
      if String.eqb p ROOT_TAXONOMY_ID then tax_ret (lineage, depth)
      else
        let* p1 := nodes_get parent_id "parent" in
        let* known := names_in p1 in
        let* parent_id' :=
          (if known then nodes_get parent_id "parent"
           else tax_ret UNKNOWN_TAXONOMY_ID) in
        lineage_loop fuel' parent_id' (parent_id' :: lineage) (S depth)
  end.

(** The first loop of [get_lca]: the lineage of every id that is in
    [self.nodes], and the length of the shortest path. *)
Fixpoint lineages_loop (fuel : nat) (taxonomy_id_list : list string)
    (taxonomic_lineages : gmap string (list string)) (min_depth : nat)
  : Tax (gmap string (list string) * nat) :=
  match taxonomy_id_list with
  | [] => tax_ret (taxonomic_lineages, min_depth)
  | taxonomy_id :: rest =>
      let* present := nodes_in taxonomy_id in
      if present then
        let* parent_id := nodes_get taxonomy_id "parent" in
        let* r := lineage_loop fuel parent_id [parent_id; taxonomy_id] 1 in
        let '(lineage, depth) := r in
        lineages_loop fuel rest (<[taxonomy_id := lineage]> taxonomic_lineages)
          (if (depth <? min_depth)%nat then depth else min_depth)
      else lineages_loop fuel rest taxonomic_lineages min_depth
  end.

(** The set of the ids found at depth [i]:
<<
    id_set = set()
    for taxonomy_id in taxonomy_id_list:
        if taxonomy_id in self.nodes:
            id_set.add(taxonomic_lineages[taxonomy_id][i])
>> *)
Fixpoint level_ids (taxonomic_lineages : gmap string (list string)) (i : nat)
    (taxonomy_id_list : list string) (id_set : list string) : Tax (list string) :=
  match taxonomy_id_list with
  | [] => tax_ret id_set
  | taxonomy_id :: rest =>
      let* present := nodes_in taxonomy_id in
      if present then
        match taxonomic_lineages !! taxonomy_id with
        | None => tax_raise KeyError
        | Some lineage =>
            match lineage !! i with
            | None => tax_raise IndexError
            | Some x => level_ids taxonomic_lineages i rest (set_add x id_set)
            end
        end
      else level_ids taxonomic_lineages i rest id_set
  end.

(** The walk over the depths [i] of [levels]:
<<
    for i in range(0,min_depth+1):
        (id_set as above)
        if len(id_set) > 1:
            return upper_level_taxids.pop()
        else:
            upper_level_taxids = id_set
    if len(upper_level_taxids) == 1:
        return upper_level_taxids.pop()
    return UNKNOWN_TAXONOMY_ID
>> *)
Fixpoint levels_loop (taxonomic_lineages : gmap string (list string))
    (taxonomy_id_list : list string) (levels : list nat)
    (upper_level_taxids : list string) : Tax string :=
  match levels with
  | [] =>
      if (length upper_level_taxids =? 1)%nat then set_pop upper_level_taxids
      else tax_ret UNKNOWN_TAXONOMY_ID
  | i :: levels' =>
      let* id_set := level_ids taxonomic_lineages i taxonomy_id_list [] in
      if (1 <? length id_set)%nat then set_pop upper_level_taxids
      else levels_loop taxonomic_lineages taxonomy_id_list levels' id_set
  end.

(** [get_lca(self, taxonomy_id_list)]; the argument is given in the order in
    which Python iterates over it. [set(UNKNOWN_TAXONOMY_ID)] is the set of
    the characters of ['0'], that is, the singleton of ['0']. *)
Definition get_lca (fuel : nat) (taxonomy_id_list : list string) : Tax string :=
  match taxonomy_id_list with
  | [taxonomy_id] =>
      if String.eqb taxonomy_id "" then tax_ret UNKNOWN_TAXONOMY_ID
      else tax_ret taxonomy_id
  | _ =>
      let* r := lineages_loop fuel taxonomy_id_list ∅ 1000 in
      let '(taxonomic_lineages, min_depth) := r in
      levels_loop taxonomic_lineages taxonomy_id_list (seq 0 (S min_depth))
        [UNKNOWN_TAXONOMY_ID]
  end.

(* ===================================================================== *)
(** * TaxonomyData.get_lca2 *)
(* ===================================================================== *)

(** [taxonomic_levels[rank].add(x)] on the local [defaultdict(set)]. *)
Definition levels_add (rank x : string) (taxonomic_levels : gmap string (list string))
  : gmap string (list string) :=
  <[rank := set_add x (default [] (taxonomic_levels !! rank))]> taxonomic_levels.

(** The climb of [get_lca2] from a parent to the root:
<<
    while parent_id != ROOT_TAXONOMY_ID:
        taxonomic_levels[self.nodes[parent_id]['rank']].add(parent_id)
        parent_id = self.nodes[parent_id]['parent']
>> *)
Fixpoint levels_climb (fuel : nat) (parent_id : string)
    (taxonomic_levels : gmap string (list string)) : Tax (gmap string (list string)) :=
  match fuel with
  | O => tax_raise OutOfFuel
  | S fuel' =>
      if String.eqb parent_id ROOT_TAXONOMY_ID then tax_ret taxonomic_levels
      else
        let* rank := nodes_get parent_id "rank" in
        let* p := nodes_get parent_id "parent" in
        levels_climb fuel' p (levels_add rank parent_id taxonomic_levels)
  end.

Fixpoint levels_loop2 (fuel : nat) (taxonomy_id_list : list string)
    (taxonomic_levels : gmap string (list string)) : Tax (gmap string (list string)) :=
  match taxonomy_id_list with
  | [] => tax_ret taxonomic_levels
  | taxonomy_id :: rest =>
      if String.eqb taxonomy_id "" then levels_loop2 fuel rest taxonomic_levels
      else
        let* present := nodes_in taxonomy_id in
        if present then
          let* rank := nodes_get taxonomy_id "rank" in
          let* parent_id := nodes_get taxonomy_id "parent" in
          let* levels' :=
            levels_climb fuel parent_id (levels_add rank taxonomy_id taxonomic_levels) in
          levels_loop2 fuel rest levels'
        else levels_loop2 fuel rest taxonomic_levels
  end.

(** The most specific rank at which one taxon is represented:
<<
    last_good_level = set(ROOT_TAXONOMY_ID)
    for rank in RANKS[1:]:
        if len(taxonomic_levels[rank]) == 1:
            last_good_level = taxonomic_levels[rank]
        else:
            break
>> *)
Fixpoint last_good (ranks : list string) (taxonomic_levels : gmap string (list string))
    (last_good_level : list string) : list string :=
  match ranks with
  | [] => last_good_level
  | rank :: ranks' =>
      let level := default [] (taxonomic_levels !! rank) in
      if (length level =? 1)%nat then last_good ranks' taxonomic_levels level
      else last_good_level
  end.

(** The last loop of [get_lca2]:
<<
    while ret_val != ROOT_TAXONOMY_ID:
        if self.nodes[ret_val]['rank'] in RANKS:
            break
        ret_val = self.nodes[ret_val]['parent']
        lca_rank = self.nodes[ret_val]['rank']
>> *)
Fixpoint ranked_ancestor (RANKS : list string) (fuel : nat) (ret_val : string)
  : Tax string :=
  match fuel with
  | O => tax_raise OutOfFuel
  | S fuel' =>
      if String.eqb ret_val ROOT_TAXONOMY_ID then tax_ret ret_val
      else
        let* rank := nodes_get ret_val "rank" in
        if bool_decide (rank ∈ RANKS) then tax_ret ret_val
        else
          let* ret_val' := nodes_get ret_val "parent" in
          let* lca_rank := nodes_get ret_val' "rank" in
          ranked_ancestor RANKS fuel' ret_val'
  end.

(** [get_lca2(self, taxonomy_id_list)]. *)
Definition get_lca2 (RANKS : list string) (fuel : nat) (taxonomy_id_list : list string)
  : Tax string :=
  let ret_val := UNKNOWN_TAXONOMY_ID in
  match taxonomy_id_list with
  | [taxonomy_id] =>
      if String.eqb taxonomy_id "" then tax_ret ret_val else tax_ret taxonomy_id
  | _ =>
      let* taxonomic_levels := levels_loop2 fuel taxonomy_id_list ∅ in
      if (size taxonomic_levels =? 0)%nat then tax_ret ret_val
      else
        let last_good_level :=
          last_good (drop 1 RANKS) taxonomic_levels [ROOT_TAXONOMY_ID] in
        let* ret_val := set_pop last_good_level in
        let* lca_rank := nodes_get ret_val "rank" in
        ranked_ancestor RANKS fuel ret_val
  end.

(* ===================================================================== *)
(** * get_upper_level_taxon, get_taxonomy_rank and the lineage queries *)
(* ===================================================================== *)

(** The loop of [get_upper_level_taxon]:
<<
    while current_id != '1':
        current_id = self.nodes[current_id]['parent']
        current_rank = self.nodes[current_id]['rank']
        if current_rank in RANKS:
            return current_id, current_rank
    return ROOT_TAXONOMY_ID,self.nodes[ROOT_TAXONOMY_ID]['rank']
>> *)
Fixpoint upper_level_loop (RANKS : list string) (fuel : nat) (current_id : string)
  : Tax (string * string) :=
  match fuel with
  | O => tax_raise OutOfFuel
  | S fuel' =>
      if String.eqb current_id "1" then
        let* r := nodes_get ROOT_TAXONOMY_ID "rank" in tax_ret (ROOT_TAXONOMY_ID, r)
      else
        let* current_id' := nodes_get current_id "parent" in
        let* current_rank := nodes_get current_id' "rank" in
        if bool_decide (current_rank ∈ RANKS) then tax_ret (current_id', current_rank)
        else upper_level_loop RANKS fuel' current_id'
  end.

(** [get_upper_level_taxon(self, taxonomy_id)]. *)
Definition get_upper_level_taxon (RANKS : list string) (fuel : nat)
    (taxonomy_id : string) : Tax (string * string) :=
  let* known := names_in taxonomy_id in
  if negb known then
    let* r := nodes_get UNKNOWN_TAXONOMY_ID "rank" in tax_ret (UNKNOWN_TAXONOMY_ID, r)
  else
    let* current_id := nodes_get taxonomy_id "parent" in
    let* current_rank := nodes_get current_id "rank" in
    if String.eqb current_id UNKNOWN_TAXONOMY_ID then
      let* r := nodes_get UNKNOWN_TAXONOMY_ID "rank" in tax_ret (UNKNOWN_TAXONOMY_ID, r)
    else if String.eqb taxonomy_id ROOT_TAXONOMY_ID then
      let* r := nodes_get ROOT_TAXONOMY_ID "rank" in tax_ret (ROOT_TAXONOMY_ID, r)
    else if bool_decide (current_rank ∈ RANKS) then tax_ret (current_id, current_rank)
    else upper_level_loop RANKS fuel current_id.

(** [get_taxonomy_rank(self, taxonomy_id)]. *)
Definition get_taxonomy_rank (taxonomy_id : string) : Tax string :=
  let* present := nodes_in taxonomy_id in
  if present then nodes_get taxonomy_id "rank" else tax_ret UNKNOWN_TAXONOMY_ID.

(** The loop of the two lineage queries:
<<
    while self.nodes[parent_id]['parent'] != '1':
        if self.nodes[parent_id]['rank'] in RANKS:
            lineage.insert(0,self.names[parent_id]['name'])
        if self.nodes[parent_id]['parent'] in self.names:
            parent_id = self.nodes[parent_id]['parent']
        else:
            parent_id = '0'
>> *)
Fixpoint lineage_names_loop (RANKS : list string) (fuel : nat) (parent_id : string)
    (lineage : list string) : Tax (list string) :=
  match fuel with
  | O => tax_raise OutOfFuel
  | S fuel' =>
      let* p := nodes_get parent_id "parent" in
      if String.eqb p "1" then tax_ret lineage
      else
        let* rank := nodes_get parent_id "rank" in
        let* lineage' :=
          (if bool_decide (rank ∈ RANKS)
           then let* n := names_get parent_id "name" in tax_ret (n :: lineage)
           else tax_ret lineage) in
        let* p1 := nodes_get parent_id "parent" in
        let* known := names_in p1 in
        let* parent_id' :=
          (if known then nodes_get parent_id "parent" else tax_ret "0") in
        lineage_names_loop RANKS fuel' parent_id' lineage'
  end.

(** [s.replace(' ','_').replace('(','_').replace(')','_')]. *)
Fixpoint sanitize (s : string) : string :=
  match s with
  | EmptyString => EmptyString
  | String a s' =>
      String (if Ascii.eqb a " " || Ascii.eqb a "(" || Ascii.eqb a ")" then "_"%char
              else a)
             (sanitize s')
  end.

(** [get_lineage_string(self, taxonomy_id)]. *)
Definition get_lineage_string (RANKS : list string) (fuel : nat) (taxonomy_id : string)
  : Tax string :=
  let* present := nodes_in taxonomy_id in
  if negb present then tax_ret ""
  else
    let* n := names_get taxonomy_id "name" in
    let* parent_id := nodes_get taxonomy_id "parent" in
    let* lineage := lineage_names_loop RANKS fuel parent_id [n] in
    tax_ret (sanitize (join "_" lineage)).

(** [get_taxonomy_lineage(self, taxonomy_id)]: the same body. *)
Definition get_taxonomy_lineage (RANKS : list string) (fuel : nat) (taxonomy_id : string)
  : Tax string :=
  let* present := nodes_in taxonomy_id in
  if negb present then tax_ret ""
  else
    let* n := names_get taxonomy_id "name" in
    let* parent_id := nodes_get taxonomy_id "parent" in
    let* lineage := lineage_names_loop RANKS fuel parent_id [n] in
    tax_ret (sanitize (join "_" lineage)).

(* ===================================================================== *)
(** * TaxonomyData.load_taxdata *)
(* ===================================================================== *)

(** [self.names[k][key] = v] and [self.nodes[k][key] = v]. *)
Definition names_set (k key v : string) : Tax unit :=
  fun t =>
    (Ok tt,
     mkTaxonomyData (<[k := <[key := v]> (default ∅ (names t !! k))]> (names t))
       (nodes t)).

Definition nodes_set (k key v : string) : Tax unit :=
  fun t =>
    (Ok tt,
     mkTaxonomyData (names t)
       (<[k := <[key := v]> (default ∅ (nodes t !! k))]> (nodes t))).

(** The fields of a line of each of the three files that the load reads. *)
Record NameRow : Type := mkNameRow {
  nr_id : string;
  nr_name : string;
  nr_class : string
}.

Record NodeRow : Type := mkNodeRow {
  nd_id : string;
  nd_parent : string;
  nd_rank : string
}.

Record MergedRow : Type := mkMergedRow {
  mg_old : string;
  mg_new : string
}.

(** The fourth field of a line of scientific name: ['scientific name\t|']. *)
Definition scientific_name : string :=
  String.append "scientific name" (String "009" "|").

Fixpoint load_names (rows : list NameRow) : Tax unit :=
  match rows with
  | [] => tax_ret tt
  | r :: rows' =>
      let* _ :=
        (if String.eqb (nr_class r) scientific_name
         then names_set (nr_id r) "name" (nr_name r) else tax_ret tt) in
      load_names rows'
  end.

Fixpoint load_nodes (rows : list NodeRow) : Tax unit :=
  match rows with
  | [] => tax_ret tt
  | r :: rows' =>
      let* _ := nodes_set (nd_id r) "parent" (nd_parent r) in
      let* _ := nodes_set (nd_id r) "rank" (nd_rank r) in
      load_nodes rows'
  end.

Fixpoint load_merged (rows : list MergedRow) : Tax unit :=
  match rows with
  | [] => tax_ret tt
  | r :: rows' =>
      let* known := names_in (mg_new r) in
      let* _ :=
        (if known then
           let* n := names_get (mg_new r) "name" in
           let* _ := names_set (mg_old r) "name" n in
           let* p := nodes_get (mg_new r) "parent" in
           let* _ := nodes_set (mg_old r) "parent" p in
           let* k := nodes_get (mg_new r) "rank" in
           nodes_set (mg_old r) "rank" k
         else tax_ret tt) in
      load_merged rows'
  end.

(** [load_taxdata(self, options)] on the lines of the three files, from the
    empty tables of [__init__]. *)
Definition load_taxdata (name_rows : list NameRow) (node_rows : list NodeRow)
    (merged_rows : list MergedRow) : outcome unit * TaxonomyData :=
  (let* _ := load_names name_rows in
   let* empty := (fun t => (Ok (bool_decide (names t = ∅)), t)) in
   if (empty : bool) then tax_raise LoadFailed
   else
     let* _ := load_nodes node_rows in
     let* _ := load_merged merged_rows in
     let* _ := names_set UNKNOWN_TAXONOMY_ID "name" "Unknown" in
     let* _ := nodes_set UNKNOWN_TAXONOMY_ID "parent" ROOT_TAXONOMY_ID in
     let* _ := nodes_set UNKNOWN_TAXONOMY_ID "rank" "norank" in
     nodes_set ROOT_TAXONOMY_ID "rank" "norank")
    (mkTaxonomyData ∅ ∅).

(* ===================================================================== *)
(** * utils.sanitize_file_name *)
(* ===================================================================== *)

(** [s.replace(a, b)] and [s.replace(a, '')] for a one-character [a]. *)
Fixpoint replace_char (a b : ascii) (s : string) : string :=
  match s with
  | EmptyString => EmptyString
  | String c s' => String (if Ascii.eqb c a then b else c) (replace_char a b s')
  end.

Fixpoint remove_char (a : ascii) (s : string) : string :=
  match s with
  | EmptyString => EmptyString
  | String c s' => if Ascii.eqb c a then remove_char a s' else String c (remove_char a s')
  end.

(** The double quote. *)
Definition double_quote : ascii := "034"%char.

(** [sanitize_file_name(filename)]: three calls of [str.replace] in a row,
    the first one replaces every space by an underscore, the second one
    removes every single quote, the third one removes every double quote. *)
Definition sanitize_file_name (filename : string) : string :=
  let filename := replace_char " " "_" filename in
  let filename := remove_char "'" filename in
  let filename := remove_char double_quote filename in
  filename.

(* ===================================================================== *)
(** * import_protein_fasta and DiamondParser.import_fasta *)
(* ===================================================================== *)

(** The two functions read the lines of a FASTA file (given here after
    [line.decode('utf8').rstrip('\n\r')]) and assign [read_id_line] and
    [sequence] to reads of the working set. An assignment is recorded as the
    triple of the key of [reads], the id line and the sequence; the key is
    always one that the test [seq_id in reads] has found, and the working set
    keeps its keys, so that the subscript [reads[seq_id]] does not raise. *)
Definition fasta_write : Type := string * string * string.

(** The state of the loop of [import_protein_fasta]. *)
Record ProteinFastaState : Type := mkProteinFastaState {
  pf_sequence : list string;
  pf_current_id : string;
  pf_seq_id : option string;
  pf_read_count : nat;
  pf_base_count : nat;
  pf_writes : list fasta_write
}.

(** One turn of the loop of [import_protein_fasta]:
<<
    if line.startswith('>'):
        read_count += 1
        if current_id != '':
            seq_id = current_id[1:].split(' ')[0]
            parser.reads[seq_id].read_id_line = current_id
            parser.reads[seq_id].sequence = ''.join(sequence)
            read_count += 1
            base_count += len(''.join(sequence))
        sequence = []
        seq_id = line[1:].split(' ')[0]
        if seq_id in parser.reads:
            current_id = line
        else:
            current_id = ''
            seq_id = None
    else:
        base_count += len(line)
        if current_id != '':
            sequence.append(line)
>> *)
Definition protein_fasta_line (keys : gset string) (st : ProteinFastaState)
    (line : string) : ProteinFastaState :=
  if String.prefix ">" line then
    let read_count := S (pf_read_count st) in
    let '(read_count, base_count, writes) :=
      if negb (String.eqb (pf_current_id st) "") then
        let seq_id := before_sep " " (drop_first (pf_current_id st)) in
        (S read_count,
         (pf_base_count st + String.length (join "" (pf_sequence st)))%nat,
         pf_writes st ++ [(seq_id, pf_current_id st, join "" (pf_sequence st))])
      else (read_count, pf_base_count st, pf_writes st) in
    let seq_id := before_sep " " (drop_first line) in
    if bool_decide (seq_id ∈ keys)
    then mkProteinFastaState [] line (Some seq_id) read_count base_count writes
    else mkProteinFastaState [] "" None read_count base_count writes
  else
    let base_count := (pf_base_count st + String.length line)%nat in
    if negb (String.eqb (pf_current_id st) "")
    then mkProteinFastaState (pf_sequence st ++ [line]) (pf_current_id st) (pf_seq_id st)
           (pf_read_count st) base_count (pf_writes st)
    else mkProteinFastaState (pf_sequence st) (pf_current_id st) (pf_seq_id st)
           (pf_read_count st) base_count (pf_writes st).

(** [import_protein_fasta(parser)] on the lines of the file, for the keys of
    [parser.reads]: the pair [(read_count, base_count)] it returns and the
    assignments it makes, in order. After the loop:
<<
    if current_id != '':
        parser.reads[seq_id].read_id_line = current_id
        parser.reads[seq_id].sequence = ''.join(sequence)
>>
    [seq_id] is assigned together with [current_id], so that it is not [None]
    there; the model makes no assignment in that case. *)
Definition import_protein_fasta (keys : gset string) (lines : list string)
  : nat * nat * list fasta_write :=
  let st := foldl (protein_fasta_line keys)
              (mkProteinFastaState [] "" None 0 0 []) lines in
  let writes :=
    if negb (String.eqb (pf_current_id st) "") then
      match pf_seq_id st with
      | Some seq_id => pf_writes st ++ [(seq_id, pf_current_id st, join "" (pf_sequence st))]
      | None => pf_writes st
      end
    else pf_writes st in
  (pf_read_count st, pf_base_count st, writes).

(** The state of the loop of [DiamondParser.import_fasta]; [current_id] and
    [seq_id] are [None] until they are assigned. *)
Record FastaState : Type := mkFastaState {
  fa_sequence : list string;
  fa_current_id : option string;
  fa_seq_id : option string;
  fa_read_count : nat;
  fa_base_count : nat;
  fa_writes : list fasta_write
}.

(** [if current_id:] is true for a string that is not empty. *)
Definition truthy (current_id : option string) : bool :=
  match current_id with
  | Some s => negb (String.eqb s "")
  | None => false
  end.

(** One turn of the loop of [import_fasta]:
<<
    if line.startswith('>'):
        read_count += 1
        if current_id:
            self.reads[current_id[1:]].read_id_line = current_id
            self.reads[current_id[1:]].sequence = ''.join(sequence)
        sequence = []
        seq_id = line[1:]
        if seq_id in self.reads:
            current_id = line
        else:
            current_id = None
    else:
        base_count += len(line)
        if current_id is None:
            continue
        sequence.append(line)
>> *)
Definition fasta_line (keys : gset string) (st : FastaState) (line : string)
  : FastaState :=
  if String.prefix ">" line then
    let read_count := S (fa_read_count st) in
    let writes :=
      match fa_current_id st with
      | Some current_id =>
          if truthy (fa_current_id st)
          then fa_writes st ++ [(drop_first current_id, current_id,
                                 join "" (fa_sequence st))]
          else fa_writes st
      | None => fa_writes st
      end in
    let seq_id := drop_first line in
    if bool_decide (seq_id ∈ keys)
    then mkFastaState [] (Some line) (Some seq_id) read_count (fa_base_count st) writes
    else mkFastaState [] None (Some seq_id) read_count (fa_base_count st) writes
  else
    let base_count := (fa_base_count st + String.length line)%nat in
    match fa_current_id st with
    | None => mkFastaState (fa_sequence st) None (fa_seq_id st) (fa_read_count st)
                base_count (fa_writes st)
    | Some _ => mkFastaState (fa_sequence st ++ [line]) (fa_current_id st) (fa_seq_id st)
                  (fa_read_count st) base_count (fa_writes st)
    end.

(** [import_fasta(self)] on the lines of the file. After the loop:
<<
    if current_id:
        self.reads[seq_id].read_id_line = current_id
        self.reads[seq_id].sequence = ''.join(sequence)
>>
    [seq_id] is assigned at every header line, so that it is not [None] when
    [current_id] is set; the model makes no assignment in that case. *)
Definition import_fasta (keys : gset string) (lines : list string)
  : nat * nat * list fasta_write :=
  let st := foldl (fasta_line keys) (mkFastaState [] None None 0 0 []) lines in
  let writes :=
    if truthy (fa_current_id st) then
      match fa_seq_id st, fa_current_id st with
      | Some seq_id, Some current_id =>
          fa_writes st ++ [(seq_id, current_id, join "" (fa_sequence st))]
      | _, _ => fa_writes st
      end
    else fa_writes st in
  (fa_read_count st, fa_base_count st, writes).

(* ===================================================================== *)
(** * DiamondParser.export_hit_fasta *)
(* ===================================================================== *)

(** The decimal digits of [n], most significant first, before [acc]. *)
Fixpoint digits_of_nat (fuel n : nat) (acc : string) : string :=
  match fuel with
  | O => acc
  | S fuel' =>
      let acc' := String (ascii_of_nat (48 + n mod 10)) acc in
      if (n / 10 =? 0)%nat then acc' else digits_of_nat fuel' (n / 10) acc'
  end.

(** [str(n)] for an [int]. *)
Definition py_str (n : Z) : string :=
  if (n <? 0)%Z
  then String "-" (digits_of_nat (S (Z.to_nat (- n))) (Z.to_nat (- n)) "")
  else digits_of_nat (S (Z.to_nat n)) (Z.to_nat n) "".

(** [s[start:stop]] for a string and two integers: a negative index counts
    from the end, and both are clipped to the string. *)
Definition py_slice (s : string) (start stop : Z) : string :=
  let n := Z.of_nat (String.length s) in
  let clip i := if (i <? 0)%Z then Z.max (i + n) 0 else Z.min i n in
  let a := clip start in
  let b := clip stop in
  if (a <? b)%Z then String.substring (Z.to_nat a) (Z.to_nat (b - a)) s else "".

(** The query id that [export_hit_fasta] gives to a hit of a read:
    [read_id + '|' + str(start) + '|' + str(end)]. *)
Definition hit_query_id (read_id : string) (hit : DiamondHit) : string :=
  read_id +:+ "|" +:+ py_str (q_start hit) +:+ "|" +:+ py_str (q_end hit).

(** The two lines that [export_hit_fasta] writes for a hit of a read whose
    sequence is [sequence]:
<<
    start = hit.q_start
    end = hit.q_end
    of.write(">" + self.reads[read_id].read_id + '|' + str(start) + '|' + str(end) + '\n')
    if start < end:
        start = start - 1
        end= end
    else:
        t = start
        start = end - 1
        end = t
    of.write(self.reads[read_id].sequence[start:end] + '\n')
>> *)
Definition export_hit_entry (read : AnnotatedRead) (sequence : string)
    (hit : DiamondHit) : list string :=
  let start := q_start hit in
  let stop := q_end hit in
  let header := ">" +:+ hit_query_id (read_id read) hit in
  let '(start, stop) :=
    if (start <? stop)%Z then ((start - 1)%Z, stop)
    else ((stop - 1)%Z, start) in
  [header; py_slice sequence start stop].

(** [export_hit_fasta(self)]: the lines written, for the reads of the working
    set in the order of the dictionary, each with its sequence. *)
Definition export_hit_fasta (reads : list (AnnotatedRead * string)) : list string :=
  concat ((fun rs : AnnotatedRead * string =>
             concat (export_hit_entry rs.1 rs.2 <$> hits (hit_list rs.1))) <$> reads).

(* ===================================================================== *)
(** * Notions used to state the properties of the taxonomy queries *)
(* ===================================================================== *)

(** The tables are closed: the two tables have the same ids, among them the
    root and the unknown id, and every recorded parent is an id of the
    tables. *)
Definition tax_closed (t : TaxonomyData) : Prop :=
  dom (names t) = dom (nodes t) /\
  UNKNOWN_TAXONOMY_ID ∈ dom (nodes t) /\
  ROOT_TAXONOMY_ID ∈ dom (nodes t) /\
  map_Forall (fun _ d => match d !! "parent" with
                         | Some p => p ∈ dom (nodes t)
                         | None => True
                         end) (nodes t).

(** The query [m] leaves the tables [t] as they are, whether it returns or
    raises, and a value it returns satisfies [P]. *)
Definition tax_frame {A} (t : TaxonomyData) (m : Tax A) (P : A -> Prop) : Prop :=
  (m t).2 = t /\ forall a, (m t).1 = Ok a -> P a.

(** Every id recorded in the local [taxonomic_levels] is an id of [nodes]. *)
Definition levels_known (t : TaxonomyData) (levels : gmap string (list string)) : Prop :=
  forall rank s x, levels !! rank = Some s -> x ∈ s -> x ∈ dom (nodes t).

(** A boolean test of [tax_closed]. *)
Definition tax_closed_b (t : TaxonomyData) : bool :=
  bool_decide (dom (names t) = dom (nodes t))
  && bool_decide (UNKNOWN_TAXONOMY_ID ∈ dom (nodes t))
  && bool_decide (ROOT_TAXONOMY_ID ∈ dom (nodes t))
  && forallb (fun kd : string * gmap string string =>
                match kd.2 !! "parent" with
                | Some p => bool_decide (p ∈ dom (nodes t))
                | None => true
                end) (map_to_list (nodes t)).

(** The parent recorded for an id. *)
Definition parent_of (t : TaxonomyData) (k : string) : option string :=
  nodes t !! k ≫= (fun d => d !! "parent").

(** [l] is a path of the tree below [prev]: every element is a child of the
    element before it ([prev] for the first one), and none is the root. *)
Fixpoint chain (t : TaxonomyData) (prev : string) (l : list string) : Prop :=
  match l with
  | [] => True
  | x :: l' => parent_of t x = Some prev /\ x <> ROOT_TAXONOMY_ID /\ chain t x l'
  end.

(** [l] is the root-exclusive lineage of [id]: the path from a child of the
    root down to [id]. *)
Definition lineage_of (t : TaxonomyData) (id : string) (l : list string) : Prop :=
  chain t ROOT_TAXONOMY_ID l /\ last l = Some id.

(** The lineages have the same id at depth [i]. *)
Definition agree (Ls : list (list string)) (i : nat) : Prop :=
  exists x, Forall (fun L => L !! i = Some x) Ls.

(** The set of the ids that the lineages of [idl] have at depth [i], as
    [get_lca] builds it. *)
Definition level_set (idl : list (string * list string)) (i : nat) : list string :=
  foldl (fun s p => set_add (default "" (p.2 !! i)) s) [] idl.

(** What [get_lca] answers on lineages whose shortest one has [S m] ids:
    either the lineages differ first at a depth [d <= m], and the answer is
    the unknown id when [d = 0] and the id the lineages share at depth
    [d - 1] otherwise; or the lineages agree at every depth up to [m], and
    the answer is the id they share at depth [m]. *)
Definition lca_answer (Ls : list (list string)) (m : nat) (r : string) : Prop :=
  (exists d, (d <= m)%nat /\ (forall j, (j < d)%nat -> agree Ls j) /\ ~ agree Ls d /\
             (d = 0%nat -> r = UNKNOWN_TAXONOMY_ID) /\
             ((0 < d)%nat -> Forall (fun L => L !! (d - 1)%nat = Some r) Ls)) \/
  ((forall j, (j <= m)%nat -> agree Ls j) /\ Forall (fun L => L !! m = Some r) Ls).

(** Modelled from the claim on [get_lca]: the root-exclusive lineage of an
    id, by climbing the parents up to the root. *)
Fixpoint root_exclusive_lineage (t : TaxonomyData) (fuel : nat) (id : string)
    (below : list string) : list string :=
  match fuel with
  | O => below
  | S fuel' =>
      if String.eqb id ROOT_TAXONOMY_ID then below
      else match parent_of t id with
           | Some p => root_exclusive_lineage t fuel' p (id :: below)
           | None => id :: below
           end
  end.

(** Modelled from the claim on [get_lca]: the walk over the depths from 0 up
    to the length of the shortest lineage; at the first depth where the
    lineages differ the id of the previous depth is the answer ([None] when
    there is no previous depth), and the last common id otherwise. *)
Fixpoint claimed_walk (Ls : list (list string)) (depths : list nat)
    (previous : option string) : option string :=
  match depths with
  | [] => previous
  | i :: depths' =>
      match Ls with
      | [] => previous
      | L0 :: _ =>
          if bool_decide (Forall (fun L => L !! i = L0 !! i) Ls)
          then claimed_walk Ls depths' (L0 !! i)
          else previous
      end
  end.

Definition claimed_lca (Ls : list (list string)) : option string :=
  claimed_walk Ls (seq 0 (foldr Nat.min 1001%nat (length <$> Ls))) None.

(* ===================================================================== *)
(** * Notions used to state the properties of compare_hits_lca *)
(* ===================================================================== *)

(** The hit has the coordinates of the interval under test. *)
Definition on_interval (hit_start hit_end : Z) (h : DiamondHit) : Prop :=
  q_start h = hit_start /\ q_end h = hit_end.

(** The function ids of the kept hits, in the order the tally meets them. *)
Definition function_ids (kept : list kept_hit) : list string :=
  concat ((fun h : kept_hit => functions h.2) <$> kept).

(** The number of times a function id is met among the kept hits. *)
Definition function_count (f : string) (kept : list kept_hit) : nat :=
  length (filter (fun g => g = f) (function_ids kept)).

(** The count a [Counter] holds for a key ([0] for a missing key). *)
Fixpoint counter_get (f : string) (c : list (string * nat)) : nat :=
  match c with
  | [] => 0
  | kv :: c' => if String.eqb kv.1 f then kv.2 else counter_get f c'
  end.

(** [q] is a positive binary64 number of the normal range: a significand of
    exactly 53 bits, at an exponent that binary64 has. *)
Definition f64_normal (q : Q) : Prop :=
  exists m e : Z,
    (2 ^ 52 <= m < 2 ^ 53)%Z /\ (-1074 <= e)%Z /\ (q == inject_Z m * pow2 e)%Q.

(* ===================================================================== *)
(** * Notions used to state the properties of the two passes *)
(* ===================================================================== *)

(** The row is read to a hit of a query other than [q]. *)
Definition row_of_other_query (q : string) (row : Row) : Prop :=
  exists rid e, parse_fastq_seqid (row_query row) = Ok (rid, e) /\ rid <> q.

(** The row belongs to a composite query of a read other than [p]. *)
Definition row_of_other_read (p : string) (row : Row) : Prop :=
  base_id (row_query row) <> p.

(** The rest of the pass from a state of the loop. *)
Definition background_from (finalize : finalizer) (config : Config)
    (st : BgState) (rows : list Row) : gmap string AnnotatedRead * option exn :=
  match background_rows finalize config st rows with
  | (st', Some e) => (bg_reads st', Some e)
  | (st', None) => background_eof finalize st'
  end.

(* ===================================================================== *)
(** * Notions used to state further properties *)
(* ===================================================================== *)

(** Two hits are the same alignment: they differ at most by the query id and
    the functions attached. *)
Definition same_alignment (h h' : DiamondHit) : Prop :=
  subject_id h' = subject_id h /\ identity h' = identity h /\
  aln_length h' = aln_length h /\ q_start h' = q_start h /\ q_end h' = q_end h /\
  s_start h' = s_start h /\ s_end h' = s_end h /\ evalue h' = evalue h /\
  bitscore h' = bitscore h.

(** The pairs (function id, hit) in the order the tally meets them. *)
Definition function_hits (kept : list kept_hit) : list (string * kept_hit) :=
  concat ((fun h : kept_hit => (fun f => (f, h)) <$> functions h.2) <$> kept).

(** What the dictionary holds after the pairs [P]: one entry per function id
    met, with a hit of [P] that carries the function and whose bitscore no
    hit of [P] with that function exceeds. *)
Definition dict_ok (P : list (string * kept_hit)) (d : list (string * best_entry)) : Prop :=
  NoDup d.*1 /\
  (forall f e, (f, e) ∈ d ->
     (f, hit e) ∈ P /\ bit_score e = bitscore (hit e).2 /\
     forall k, (f, k) ∈ P -> (bitscore k.2 <= bit_score e)%Q) /\
  (forall f k, (f, k) ∈ P -> f ∈ d.*1).

(** The hit is a hit of [pool] re-anchored to the read [rid]: its query id
    is [rid] and it is annotated again. *)
Definition rebuilt_from (ref_data : ReferenceData) (rid : string)
    (pool : list DiamondHit) (h : DiamondHit) : Prop :=
  exists g, g ∈ pool /\ h = annotate_hit ref_data (set_query_id rid g).

(** What every turn of the loop of [compare_hits_lca] keeps, for the read
    [read0] and the new hits [store0] the call started with. *)
Definition compare_inv (ref_data : ReferenceData) (read0 : AnnotatedRead)
    (store0 : list DiamondHit) (read : AnnotatedRead) (store : list DiamondHit) : Prop :=
  read_id read = read_id read0 /\
  read_id_line read = read_id_line read0 /\
  (status read = status read0 \/ status read = "function" \/ status read = "nofunction") /\
  Forall2 same_alignment store0 store /\
  (hit_list read = hit_list read0 \/
   (hl_query_id (hit_list read) = read_id read0 /\
    Forall (rebuilt_from ref_data (read_id read0) (hits (hit_list read0) ++ store0))
      (hits (hit_list read)))).

(** The row is below a cutoff of the collection: the two passes skip it. *)
Definition row_below_cutoffs (config : Config) (row : Row) : Prop :=
  Qltb (row_identity row) (identity_cutoff config) = true \/
  (row_length row <? length_cutoff config)%Z = true.

(** The row passes the cutoffs and its query id is read as the read [k]. *)
Definition row_survives (config : Config) (k : string) (row : Row) : Prop :=
  (exists e, parse_fastq_seqid (row_query row) = Ok (k, e)) /\
  Qltb (row_identity row) (identity_cutoff config) = false /\
  (row_length row <? length_cutoff config)%Z = false.

(** The working set [reads'] has the reads of [reads], under the same keys
    and with the same ids. *)
Definition same_reads (reads reads' : gmap string AnnotatedRead) : Prop :=
  dom reads' = dom reads /\
  forall k r', reads' !! k = Some r' ->
    exists r, reads !! k = Some r /\ read_id r' = read_id r /\
              read_id_line r' = read_id_line r.

(** What the loop of the reference pass keeps, for the working set [reads0]
    it started with and the rows [P] read so far. *)
Definition reference_inv (config : Config) (reads0 : gmap string AnnotatedRead)
    (P : list Row) (st : RefState) : Prop :=
  hl_query_id (ref_hits st) = ref_current st /\
  dom reads0 ⊆ dom (ref_reads st) /\
  (hits (ref_hits st) <> [] ->
   Exists (row_survives config (ref_current st)) P) /\
  (forall k r, ref_reads st !! k = Some r ->
     reads0 !! k = Some r \/
     (read_id r = k /\ status r = "unprocessed" /\ Exists (row_survives config k) P)) /\
  (forall k, Exists (row_survives config k) P ->
     k ∈ dom (ref_reads st) \/ (k = ref_current st /\ hits (ref_hits st) <> [])).

(** The query changes the tables only on a call that raises [KeyError]: on
    any tables it leaves them as they are, or raises [KeyError]. *)
Definition tax_safe {A} (m : Tax A) : Prop :=
  forall t, (m t).2 = t \/ (m t).1 = Raise KeyError.

(** The rank recorded for an id. *)
Definition rank_of (t : TaxonomyData) (k : string) : option string :=
  nodes t !! k ≫= (fun d => d !! "rank").

(** The ids of the list that are ids of [nodes]. *)
Definition present_ids (t : TaxonomyData) (ids : list string) : list string :=
  filter (fun id => id ∈ dom (nodes t)) ids.

(** The query raises no exception but [e0]. *)
Definition tax_raises_only {A} (e0 : exn) (m : Tax A) : Prop :=
  forall t e, (m t).1 = Raise e -> e = e0.

(** The ids of the lines of scientific name of the names file, and the ids
    of the lines of the nodes file. *)
Definition scientific_ids (rows : list NameRow) : list string :=
  nr_id <$> filter (fun r => nr_class r = scientific_name) rows.

Definition node_ids (rows : list NodeRow) : list string := nd_id <$> rows.

(** Every parent recorded in [nodes] is in the set [S]. *)
Definition parents_in (S : gset string) (t : TaxonomyData) : Prop :=
  map_Forall (fun _ d => match d !! "parent" with
                         | Some p => p ∈ S
                         | None => True
                         end) (nodes t).

(** What the lines of the merged file keep, once the names and the nodes
    are loaded: the two tables have the same ids, among them the ids [S] of
    the nodes file, and every recorded parent is one of [S]. *)
Definition load_inv (S : gset string) (t : TaxonomyData) : Prop :=
  dom (names t) = dom (nodes t) /\ S ⊆ dom (nodes t) /\ parents_in S t.

(** The ancestor of an id [n] steps up: the id itself for [n = 0]. *)
Fixpoint nth_parent (t : TaxonomyData) (n : nat) (k : string) : option string :=
  match n with
  | O => Some k
  | S n' => parent_of t k ≫= nth_parent t n'
  end.

(** The string has no space and no parenthesis. *)
Definition clean_string (s : string) : Prop :=
  Forall (fun c => c <> " "%char /\ c <> "("%char /\ c <> ")"%char)
    (list_ascii_of_string s).

(** The character is none of the three that [sanitize_file_name] removes or
    replaces. *)
Definition safe_char (c : ascii) : Prop :=
  c <> " "%char /\ c <> "'"%char /\ c <> double_quote.

(** The header lines of a FASTA file, the number of bases of the other
    lines, and the header lines that name a protein of the working set. *)
Definition header_lines (lines : list string) : list string :=
  filter (fun l => String.prefix ">" l = true) lines.

Definition total_bases (lines : list string) : nat :=
  foldr (fun l n => (String.length l + n)%nat) 0%nat
    (filter (fun l => String.prefix ">" l = false) lines).

Definition protein_id_of (line : string) : string :=
  before_sep " " (drop_first line).

Definition known_headers (keys : gset string) (lines : list string) : list string :=
  filter (fun l => protein_id_of l ∈ keys) (header_lines lines).

(** The last header line of the file names a protein of the working set. *)
Definition last_header_known (keys : gset string) (lines : list string) : bool :=
  match last (header_lines lines) with
  | Some h => bool_decide (protein_id_of h ∈ keys)
  | None => false
  end.

(** The number of assignments that the loop of [import_protein_fasta] still
    owes: one when a protein of the working set is being read. *)
Definition pf_pending (st : ProteinFastaState) : nat :=
  if negb (String.eqb (pf_current_id st) "") then 1%nat else 0%nat.

(** The protein being read, if any, is one of the working set, and [seq_id]
    is its id. *)
Definition pf_pending_ok (keys : gset string) (st : ProteinFastaState) : Prop :=
  negb (String.eqb (pf_current_id st) "") = true ->
  pf_seq_id st = Some (protein_id_of (pf_current_id st)) /\
  protein_id_of (pf_current_id st) ∈ keys.

Definition fa_pending (st : FastaState) : nat :=
  if truthy (fa_current_id st) then 1%nat else 0%nat.

Definition fa_pending_ok (keys : gset string) (st : FastaState) : Prop :=
  forall current_id, fa_current_id st = Some current_id ->
    String.prefix ">" current_id = true /\
    fa_seq_id st = Some (drop_first current_id) /\ drop_first current_id ∈ keys.

(* ===================================================================== *)
(** * Sample data *)
(* ===================================================================== *)

(** A hit of the query [P1|1|100] on the interval [1..100], with the given
    subject, bitscore and functions. *)
Definition sample_hit (subject : string) (bs : Q) (fs : list string) : DiamondHit :=
  mkDiamondHit "P1|1|100" subject 90 100 1 100 1 100 0 bs fs.

(** Reference data with two proteins of function [F1] and a taxon for each
    subject. *)
Definition sample_ref_data : ReferenceData :=
  mkReferenceData
    (fun s => if String.eqb s "S1" then ["F1"]
              else if String.eqb s "S2" then ["F1"] else [])
    (fun s => if String.eqb s "S1" then "562" else "0").

(** A read [P1] whose only hit is the anchor on [1..100]. *)
Definition sample_read (anchor : DiamondHit) : AnnotatedRead :=
  mkAnnotatedRead "P1" ">P1_1 # 1 # 300" "unprocessed"
    (mkDiamondHitList "P1" [anchor]) ∅ None.

(** A taxonomy that answers every query with the unknown taxon. *)
Definition sample_lca (ids : list string) : outcome string := Ok "0".

(** Cutoffs: identity 50%, length 10, overlap 0.5, bitscore range 0.03. *)
Definition sample_config : Config := mkConfig 50 10 (1 # 2) (3 # 100).

(** A row of the given query and subject on the interval [1..100]. *)
Definition sample_row (query subject : string) (bs : Q) : Row :=
  mkRow query subject 95 100 1 100 1 100 0 bs.

(** A line of the names file for the taxon [i]. *)
Definition sample_name (i : string) : NameRow :=
  mkNameRow i (String.append "taxon " i) scientific_name.

(** The tree root -> A -> B -> C, root -> A -> D -> E and root -> X -> Y, as
    [load_taxdata] leaves it. *)
Definition sample_tree : TaxonomyData :=
  (load_taxdata
     [sample_name "1"; sample_name "A"; sample_name "B"; sample_name "C";
      sample_name "D"; sample_name "E"; sample_name "X"; sample_name "Y"]
     [mkNodeRow "1" "1" "no rank"; mkNodeRow "A" "1" "phylum";
      mkNodeRow "B" "A" "class"; mkNodeRow "C" "B" "species";
      mkNodeRow "D" "A" "class"; mkNodeRow "E" "D" "species";
      mkNodeRow "X" "1" "phylum"; mkNodeRow "Y" "X" "genus"] []).2.

(** The tables that [load_taxdata] leaves when the nodes file has a line for
    [C], child of [B], and no line for [B]. *)
Definition orphan_tree : TaxonomyData :=
  (load_taxdata [sample_name "C"] [mkNodeRow "C" "B" "species"] []).2.

Definition sample_ranks : list string :=
  ["norank"; "superkingdom"; "phylum"; "class"; "order"; "family"; "genus"; "species"].

(* ===================================================================== *)
(** * Theorems *)
(* ===================================================================== *)

Lemma Qgtb_true (x y : Q) : Qgtb x y = true <-> (y < x)%Q.
Proof.
  unfold Qgtb. rewrite negb_true_iff.
  split.
  - intros H. apply Qnot_le_lt. intros Hle. apply Qle_bool_iff in Hle. congruence.
  - intros H. destruct (Qle_bool x y) eqn:E; [|done].
    apply Qle_bool_iff in E. lra.
Qed.

Lemma Qgtb_false (x y : Q) : Qgtb x y = false <-> (x <= y)%Q.
Proof.
  unfold Qgtb. rewrite negb_false_iff. apply Qle_bool_iff.
Qed.

Lemma Qgeb_true (x y : Q) : Qgeb x y = true <-> (y <= x)%Q.
Proof. unfold Qgeb. apply Qle_bool_iff. Qed.

Lemma py_div_nonzero (a b : Q) : ~ (b == 0)%Q -> py_div a b = Ok (a / b)%Q.
Proof.
  intros H. unfold py_div. destruct (Qeq_bool b 0) eqn:E; [|done].
  apply Qeq_bool_iff in E. contradiction.
Qed.

(** C8. The normalisation never divides by zero: [get_protein_score] returns
    normally for every pair of arguments; when the average coverage is zero or
    negative the result is the coverage itself (factor 1.0), and when it is
    positive the result is [coverage / average_coverage]. The average coverage
    computed at the head of [parse_background_output] never divides by zero
    either, and is [0.0] for an empty coverage table. *)
Theorem get_protein_score_no_zero_division :
  (forall average_coverage coverage : Q,
      ((average_coverage <= 0)%Q ->
       get_protein_score average_coverage coverage = Ok coverage) /\
      ((0 < average_coverage)%Q ->
       get_protein_score average_coverage coverage
       = Ok (coverage / average_coverage)%Q) /\
      (exists r, get_protein_score average_coverage coverage = Ok r)) /\
  (forall coverage_values : list Q,
      exists r, get_average_coverage coverage_values = Ok r) /\
  get_average_coverage [] = Ok 0%Q.
Proof.
  split; [|split; [|reflexivity]].
  - intros avg cov.
    assert (Hneg : (avg <= 0)%Q -> get_protein_score avg cov = Ok cov).
    { intros H. unfold get_protein_score.
      apply Qgtb_false in H. by rewrite H. }
    assert (Hpos : (0 < avg)%Q -> get_protein_score avg cov = Ok (cov / avg)%Q).
    { intros H. unfold get_protein_score.
      pose proof (proj2 (Qgtb_true avg 0) H) as Hb. rewrite Hb.
      apply py_div_nonzero. lra. }
    split; [done|]. split; [done|].
    destruct (Qlt_le_dec 0 avg) as [H|H]; eauto.
  - intros [|c l]; [by eexists|].
    unfold get_average_coverage. rewrite py_div_nonzero; [by eexists|].
    assert (0 < inject_Z (Z.of_nat (length (c :: l))))%Q; [|lra].
    rewrite <- (Zlt_Qlt 0). simpl length. lia.
Qed.

Lemma get_protein_score_witness :
  get_protein_score 0 5 = Ok 5%Q /\ get_protein_score 2 6 = Ok (6 / 2)%Q.
Proof.
  split.
  - apply (proj1 (proj1 get_protein_score_no_zero_division 0%Q 5%Q)). lra.
  - apply (proj1 (proj2 (proj1 get_protein_score_no_zero_division 2%Q 6%Q))). lra.
Defined.

(* --------------------------------------------------------------------- *)
(** ** The bitscore window and the re-admission of the anchor hit *)
(* --------------------------------------------------------------------- *)

Lemma elem_of_window_filter (lower : Q) (l : list DiamondHit) (r : hit_ref)
    (h : DiamondHit) :
  (r, h) ∈ window_filter lower l <->
  (exists i, r = NewHit i /\ l !! i = Some h) /\ (lower < bitscore h)%Q.
Proof.
  unfold window_filter. rewrite list_elem_of_In, filter_In, <- list_elem_of_In.
  rewrite elem_of_lookup_imap. simpl. rewrite Qgtb_true.
  split.
  - intros [(i & x & Heq & Hl) Hlt]. inversion Heq; subst. eauto.
  - intros [(i & -> & Hl) Hlt]. eauto.
Qed.


(** C4. The anchor hit is appended to the kept hits exactly when its subject
    id is not the subject id of a kept hit and its bitscore is at least the
    best bitscore; otherwise the kept hits are left as they are. *)
Theorem readmit_iff (new_hits : list kept_hit) (anchor : DiamondHit) (best_bitscore : Q) :
  let absent := subject_id anchor ∉ (fun p : kept_hit => subject_id p.2) <$> new_hits in
  (absent /\ (best_bitscore <= bitscore anchor)%Q ->
   readmit new_hits anchor best_bitscore = new_hits ++ [(AnchorHit, anchor)]) /\
  (~ (absent /\ (best_bitscore <= bitscore anchor)%Q) ->
   readmit new_hits anchor best_bitscore = new_hits).
Proof.
  intros absent. unfold readmit. fold absent.
  destruct (bool_decide absent) eqn:Ha; simpl.
  - apply bool_decide_eq_true in Ha.
    destruct (Qgeb (bitscore anchor) best_bitscore) eqn:Hb.
    + apply Qgeb_true in Hb. split; [done|]. intros H. destruct H. done.
    + split; [|done]. intros [_ H]. apply Qgeb_true in H. congruence.
  - apply bool_decide_eq_false in Ha. split; [|done]. intros [H _]. done.
Qed.


Lemma readmit_iff_witness :
  readmit [(NewHit 0, sample_hit "S1" 50 ["F1"])] (sample_hit "S2" 60 ["F1"]) 50
  = [(NewHit 0, sample_hit "S1" 50 ["F1"]); (AnchorHit, sample_hit "S2" 60 ["F1"])].
Proof.
  apply (proj1 (readmit_iff [(NewHit 0, sample_hit "S1" 50 ["F1"])]
                  (sample_hit "S2" 60 ["F1"]) 50)).
  split.
  - apply (bool_decide_unpack _). vm_compute. exact I.
  - vm_compute. discriminate.
Defined.

(* --------------------------------------------------------------------- *)
(** ** The best hit *)
(* --------------------------------------------------------------------- *)

Lemma find_best_hit_fold (l : list DiamondHit) (acc : option DiamondHit * Q) :
  let r := foldl (fun acc new_hit =>
                    if Qgtb (bitscore new_hit) acc.2
                    then (Some new_hit, bitscore new_hit) else acc) acc l in
  (acc.2 <= r.2)%Q /\
  (forall h, h ∈ l -> (bitscore h <= r.2)%Q) /\
  (r = acc \/ exists bh, r = (Some bh, bitscore bh) /\ bh ∈ l /\ (acc.2 < bitscore bh)%Q).
Proof.
  revert acc. induction l as [|x l IH]; intros acc; simpl.
  - split; [lra|]. split; [|by left]. intros h Hh. by apply elem_of_nil in Hh.
  - destruct (Qgtb (bitscore x) acc.2) eqn:E.
    + apply Qgtb_true in E.
      destruct (IH (Some x, bitscore x)) as (H1 & H2 & H3). simpl in *.
      split; [lra|]. split.
      * intros h Hh. apply elem_of_cons in Hh as [->|Hh]; [lra|by apply H2].
      * right. destruct H3 as [->|(bh & -> & Hin & Hlt)].
        -- exists x. split; [done|]. split; [by left|done].
        -- exists bh. split; [done|]. split; [by right|lra].
    + apply Qgtb_false in E.
      destruct (IH acc) as (H1 & H2 & H3).
      split; [done|]. split.
      * intros h Hh. apply elem_of_cons in Hh as [->|Hh]; [lra|by apply H2].
      * destruct H3 as [->|(bh & -> & Hin & Hlt)]; [by left|].
        right. exists bh. split; [done|]. split; [by right|done].
Qed.

(** The best hit is a hit of the list with a positive bitscore that no hit of
    the list exceeds. *)
Lemma find_best_hit_Some (l : list DiamondHit) (bh : DiamondHit) (b : Q) :
  find_best_hit l = (Some bh, b) ->
  bh ∈ l /\ b = bitscore bh /\ (0 < b)%Q /\ forall h, h ∈ l -> (bitscore h <= b)%Q.
Proof.
  intros H. unfold find_best_hit in H.
  destruct (find_best_hit_fold l (None, 0%Q)) as (H1 & H2 & H3).
  rewrite H in *. simpl in *.
  destruct H3 as [?|(bh' & Heq & Hin & Hlt)]; [done|].
  inversion Heq; subst. done.
Qed.

(** No best hit: no hit of the list has a positive bitscore. *)
Lemma find_best_hit_None (l : list DiamondHit) (b : Q) :
  find_best_hit l = (None, b) ->
  b = 0%Q /\ forall h, h ∈ l -> (bitscore h <= 0)%Q.
Proof.
  intros H. unfold find_best_hit in H.
  destruct (find_best_hit_fold l (None, 0%Q)) as (H1 & H2 & H3).
  rewrite H in *. simpl in *.
  destruct H3 as [Heq|(bh' & Heq & Hin & Hlt)]; [|done].
  inversion Heq; subst. done.
Qed.

Lemma find_best_hit_nil : find_best_hit [] = (None, 0%Q).
Proof. reflexivity. Qed.

(* --------------------------------------------------------------------- *)
(** ** Locating the anchor hit *)
(* --------------------------------------------------------------------- *)

Lemma on_interval_test (hit_start hit_end : Z) (h : DiamondHit) :
  (q_start h =? hit_start)%Z && (q_end h =? hit_end)%Z = true
  <-> on_interval hit_start hit_end h.
Proof. unfold on_interval. rewrite andb_true_iff, !Z.eqb_eq. done. Qed.

(** The hits before the first one on the interval are skipped. *)
Lemma compare_loop_skip ref_data lca hs he c avg cov pre rest read store :
  Forall (fun h => ~ on_interval hs he h) pre ->
  compare_loop ref_data lca hs he c avg cov (pre ++ rest) read store
  = compare_loop ref_data lca hs he c avg cov rest read store.
Proof.
  induction 1 as [|x pre Hx _ IH]; [done|]. simpl.
  destruct ((q_start x =? hs)%Z && (q_end x =? he)%Z) eqn:E; [|done].
  apply on_interval_test in E. done.
Qed.

(** The call on a read whose first hit on the interval is [anchor]. *)
Lemma compare_hits_lca_located read hs he new_hits c avg lca ref_data cov_data
    pre anchor post :
  hits (hit_list read) = pre ++ anchor :: post ->
  Forall (fun h => ~ on_interval hs he h) pre ->
  on_interval hs he anchor ->
  compare_hits_lca read hs he new_hits c avg lca ref_data cov_data
  = match compare_hit ref_data lca c avg (get_coverage cov_data read) anchor read
            (hits new_hits) with
    | (read', store', Returned) => (read', store', None)
    | (read', store', Raised e) => (read', store', Some e)
    | (read', store', Continue) =>
        compare_loop ref_data lca hs he c avg (get_coverage cov_data read) post
          read' store'
    end.
Proof.
  intros Hl Hpre Ha. unfold compare_hits_lca. rewrite Hl.
  rewrite compare_loop_skip by done. simpl.
  apply on_interval_test in Ha. by rewrite Ha.
Qed.

(** C6. Once the anchor hit on [(hit_start, hit_end)] is located, if the new
    hit list is empty, or has no best hit, or its best hit carries the
    empty-function sentinel, the call returns normally with the status of the
    read set to ["nofunction"] and nothing else changed: the functions, the
    hit list and the taxonomy id of the read are the ones it had. *)
Theorem compare_hits_lca_no_best_hit read hs he new_hits c avg lca ref_data
    cov_data pre anchor post :
  hits (hit_list read) = pre ++ anchor :: post ->
  Forall (fun h => ~ on_interval hs he h) pre ->
  on_interval hs he anchor ->
  (hits new_hits = [] \/
   (find_best_hit (hits new_hits)).1 = None \/
   exists bh, (find_best_hit (hits new_hits)).1 = Some bh /\ "" ∈ functions bh) ->
  let '(read', store', e) :=
    compare_hits_lca read hs he new_hits c avg lca ref_data cov_data in
  e = None /\ store' = hits new_hits /\
  read' = set_status "nofunction" read /\
  status read' = "nofunction" /\
  read_functions read' = read_functions read /\
  hit_list read' = hit_list read /\
  taxonomy read' = taxonomy read.
Proof.
  intros Hl Hpre Ha Hbest.
  rewrite (compare_hits_lca_located _ _ _ _ _ _ _ _ _ _ _ _ Hl Hpre Ha).
  assert (compare_hit ref_data lca c avg (get_coverage cov_data read) anchor read
            (hits new_hits) = (set_status "nofunction" read, hits new_hits, Returned))
    as ->; [|done].
  unfold compare_hit.
  destruct Hbest as [Hnil|[Hnone|(bh & Hsome & Hin)]].
  - rewrite Hnil. done.
  - destruct (find_best_hit (hits new_hits)) as [o b]. simpl in Hnone. by subst.
  - destruct (find_best_hit (hits new_hits)) as [o b]. simpl in Hsome. subst.
    by rewrite bool_decide_eq_true_2.
Qed.

Lemma compare_hits_lca_no_best_hit_witness :
  let '(read', store', e) :=
    compare_hits_lca (sample_read (sample_hit "S1" 50 ["F1"])) 1 100
      (mkDiamondHitList "P1|1|100" [sample_hit "S9" 60 [""]]) (3 # 100) 0
      sample_lca sample_ref_data None in
  e = None /\ store' = [sample_hit "S9" 60 [""]] /\
  read' = set_status "nofunction" (sample_read (sample_hit "S1" 50 ["F1"])) /\
  status read' = "nofunction" /\
  read_functions read' = ∅ /\
  hit_list read' = mkDiamondHitList "P1" [sample_hit "S1" 50 ["F1"]] /\
  taxonomy read' = None.
Proof.
  apply (compare_hits_lca_no_best_hit (sample_read (sample_hit "S1" 50 ["F1"])) 1 100
           (mkDiamondHitList "P1|1|100" [sample_hit "S9" 60 [""]]) (3 # 100) 0
           sample_lca sample_ref_data None [] (sample_hit "S1" 50 ["F1"]) []).
  - reflexivity.
  - constructor.
  - split; reflexivity.
  - right. right. exists (sample_hit "S9" 60 [""]). split; [reflexivity|].
    apply (bool_decide_unpack _). vm_compute. exact I.
Defined.

(* --------------------------------------------------------------------- *)
(** ** The counter of function ids *)
(* --------------------------------------------------------------------- *)

Lemma counter_get_absent f (c : list (string * nat)) :
  f ∉ c.*1 -> counter_get f c = 0%nat.
Proof.
  induction c as [|[g n] c IH]; [done|]. simpl. intros Hf.
  apply not_elem_of_cons in Hf as [Hne Hf].
  destruct (String.eqb_spec g f); [congruence|]. by apply IH.
Qed.

Lemma counter_get_app_present f (c c' : list (string * nat)) :
  f ∈ c.*1 -> counter_get f (c ++ c') = counter_get f c.
Proof.
  induction c as [|[g n] c IH]; simpl; intros Hf.
  - by apply elem_of_nil in Hf.
  - destruct (String.eqb_spec g f); [done|].
    apply elem_of_cons in Hf as [?|Hf]; [congruence|]. by apply IH.
Qed.

Lemma counter_get_app_absent f (c c' : list (string * nat)) :
  f ∉ c.*1 -> counter_get f (c ++ c') = counter_get f c'.
Proof.
  induction c as [|[g n] c IH]; simpl; intros Hf; [done|].
  apply not_elem_of_cons in Hf as [Hne Hf].
  destruct (String.eqb_spec g f); [congruence|]. by apply IH.
Qed.

Lemma counter_get_map_incr f g (c : list (string * nat)) :
  counter_get f
    ((fun kv : string * nat => if String.eqb kv.1 g then (kv.1, S kv.2) else kv) <$> c)
  = if decide (f = g)
    then (if decide (g ∈ c.*1) then S (counter_get f c) else counter_get f c)
    else counter_get f c.
Proof.
  induction c as [|[k n] c IH].
  - simpl. by repeat case_decide.
  - rewrite fmap_cons. cbn [fst snd].
    destruct (String.eqb_spec k g) as [->|Hkg]; cbn [counter_get fst snd];
      rewrite IH; clear IH.
    + destruct (String.eqb_spec g f) as [->|Hgf].
      * rewrite decide_True by done.
        rewrite decide_True by (rewrite fmap_cons; by left). done.
      * destruct (decide (f = g)); [congruence|done].
    + destruct (String.eqb_spec k f) as [->|Hkf].
      * destruct (decide (f = g)); [congruence|done].
      * destruct (decide (f = g)) as [->|]; [|done].
        destruct (decide (g ∈ c.*1)) as [Hin|Hnin].
        -- rewrite decide_True by (rewrite fmap_cons; by right). done.
        -- rewrite decide_False; [done|]. rewrite fmap_cons.
           intros Hin. apply elem_of_cons in Hin as [?|?]; simpl in *; congruence.
Qed.

Lemma counter_get_incr f g (c : list (string * nat)) :
  counter_get f (counter_incr g c)
  = if decide (f = g) then S (counter_get f c) else counter_get f c.
Proof.
  unfold counter_incr. case_bool_decide as Hg.
  - rewrite counter_get_map_incr. destruct (decide (f = g)); [|done].
    by rewrite decide_True.
  - destruct (decide (f = g)) as [->|Hne].
    + rewrite counter_get_app_absent by done. simpl.
      rewrite String.eqb_refl. by rewrite counter_get_absent.
    + destruct (decide (f ∈ c.*1)).
      * by rewrite counter_get_app_present.
      * rewrite counter_get_app_absent by done. simpl.
        destruct (String.eqb_spec g f); [congruence|].
        by rewrite counter_get_absent.
Qed.

Lemma counter_incr_keys g (c : list (string * nat)) :
  (counter_incr g c).*1 = if decide (g ∈ c.*1) then c.*1 else c.*1 ++ [g].
Proof.
  unfold counter_incr. case_bool_decide as Hg.
  - rewrite decide_True by done. rewrite <- list_fmap_compose.
    apply list_fmap_ext. intros _ [k n] _. simpl. by destruct (String.eqb k g).
  - rewrite decide_False by done. by rewrite fmap_app.
Qed.

Lemma counter_incr_NoDup g (c : list (string * nat)) :
  NoDup c.*1 -> NoDup (counter_incr g c).*1.
Proof.
  intros Hc. rewrite counter_incr_keys. case_decide; [done|].
  apply NoDup_app. split; [done|]. split; [|apply NoDup_singleton].
  intros x Hx Hx'. apply list_elem_of_singleton in Hx'. by subst.
Qed.

Lemma counter_fold_NoDup (l : list string) (c : list (string * nat)) :
  NoDup c.*1 -> NoDup (foldl (fun c f => counter_incr f c) c l).*1.
Proof.
  revert c. induction l as [|f l IH]; intros c Hc; simpl; [done|].
  apply IH. by apply counter_incr_NoDup.
Qed.

Lemma counter_fold_get f (l : list string) (c : list (string * nat)) :
  counter_get f (foldl (fun c f => counter_incr f c) c l)
  = (counter_get f c + length (filter (fun g => g = f) l))%nat.
Proof.
  revert c. induction l as [|g l IH]; intros c; simpl; [lia|].
  rewrite IH, counter_get_incr, filter_cons.
  destruct (decide (f = g)) as [->|Hne].
  - rewrite decide_True by done. simpl. lia.
  - rewrite decide_False by congruence. done.
Qed.

Lemma counter_entry_get f n (c : list (string * nat)) :
  NoDup c.*1 -> (f, n) ∈ c -> counter_get f c = n.
Proof.
  induction c as [|[g m] c IH]; simpl; intros Hnd Hin.
  - by apply elem_of_nil in Hin.
  - apply NoDup_cons in Hnd as [Hg Hnd].
    apply elem_of_cons in Hin as [Heq|Hin].
    + inversion Heq; subst. by rewrite String.eqb_refl.
    + destruct (String.eqb_spec g f) as [->|]; [|by apply IH].
      exfalso. apply Hg. apply list_elem_of_fmap. by exists (f, n).
Qed.

Lemma counter_get_entry f (c : list (string * nat)) :
  (0 < counter_get f c)%nat -> (f, counter_get f c) ∈ c.
Proof.
  induction c as [|[g m] c IH]; simpl; intros H; [lia|].
  destruct (String.eqb_spec g f) as [->|]; [by left|]. right. by apply IH.
Qed.

(** The counter that [tally] builds is the fold of [counter_incr] over the
    function ids of the kept hits. *)
Lemma tally_counter (kept : list kept_hit) :
  (tally kept).1 = foldl (fun c f => counter_incr f c) [] (function_ids kept).
Proof.
  unfold tally, function_ids.
  change (@nil (string * nat))
    with (@nil (string * nat), @nil (string * best_entry)).1 at 2.
  generalize (@nil (string * nat), @nil (string * best_entry)).
  induction kept as [|h kept IH]; intros acc; simpl; [done|].
  rewrite foldl_app, IH. f_equal.
  generalize (functions h.2). intros fs. revert acc.
  induction fs as [|f fs IHf]; intros acc; simpl; [done|]. by rewrite IHf.
Qed.

Lemma tally_count f (kept : list kept_hit) :
  counter_get f (tally kept).1 = function_count f kept.
Proof. rewrite tally_counter, counter_fold_get. done. Qed.

Lemma tally_NoDup (kept : list kept_hit) : NoDup (tally kept).1.*1.
Proof. rewrite tally_counter. apply counter_fold_NoDup. constructor. Qed.

(** [most_common(1)] returns an entry of the counter whose count no entry
    exceeds. *)
Lemma most_common_1_fold (c : list (string * nat)) (best : string * nat) :
  exists kv, foldl (fun best kv =>
                 match best with
                 | None => Some kv
                 | Some b => if (b.2 <? kv.2)%nat then Some kv else Some b
                 end) (Some best) c = Some kv /\
    (kv = best \/ kv ∈ c) /\ (best.2 <= kv.2)%nat /\
    forall x, x ∈ c -> (x.2 <= kv.2)%nat.
Proof.
  revert best. induction c as [|x c IH]; intros best; simpl.
  - exists best. split; [done|]. split; [by left|]. split; [lia|].
    intros x Hx. by apply elem_of_nil in Hx.
  - destruct (best.2 <? x.2)%nat eqn:E.
    + apply Nat.ltb_lt in E.
      destruct (IH x) as (kv & Hf & Hin & Hle & Hall).
      exists kv. split; [done|]. split.
      { right. destruct Hin as [->|?]; [by left|by right]. }
      split; [lia|]. intros y Hy.
      apply elem_of_cons in Hy as [->|Hy]; [done|by apply Hall].
    + apply Nat.ltb_ge in E.
      destruct (IH best) as (kv & Hf & Hin & Hle & Hall).
      exists kv. split; [done|]. split.
      { destruct Hin as [->|?]; [by left|right; by right]. }
      split; [done|]. intros y Hy.
      apply elem_of_cons in Hy as [->|Hy]; [lia|by apply Hall].
Qed.

Lemma most_common_1_spec (c : list (string * nat)) :
  c <> [] ->
  exists kv, most_common_1 c = Some kv /\ kv ∈ c /\ forall x, x ∈ c -> (x.2 <= kv.2)%nat.
Proof.
  destruct c as [|x c]; [done|]. intros _. unfold most_common_1. simpl.
  destruct (most_common_1_fold c x) as (kv & Hf & Hin & Hle & Hall).
  exists kv. split; [done|]. split.
  - destruct Hin as [->|?]; [by left|by right].
  - intros y Hy. apply elem_of_cons in Hy as [->|Hy]; [done|by apply Hall].
Qed.

Lemma most_common_1_None (c : list (string * nat)) :
  most_common_1 c = None <-> c = [].
Proof.
  split; [|by intros ->].
  destruct c as [|x c]; [done|]. intros H.
  destruct (most_common_1_spec (x :: c)) as (kv & Hf & _); [done|]. congruence.
Qed.

(** The function id that is strictly the most frequent one among the kept
    hits is the answer of [most_common(1)] on the tally. *)
Lemma most_common_1_plurality (kept : list kept_hit) (f : string) :
  (forall g, g <> f -> (function_count g kept < function_count f kept)%nat) ->
  (0 < function_count f kept)%nat ->
  most_common_1 (tally kept).1 = Some (f, function_count f kept).
Proof.
  intros Hmax Hpos.
  pose proof (tally_NoDup kept) as Hnd.
  assert (Hf : (f, function_count f kept) ∈ (tally kept).1).
  { rewrite <- tally_count. apply counter_get_entry. by rewrite tally_count. }
  destruct (most_common_1_spec (tally kept).1) as ([g n] & Hmc & Hin & Hall).
  { intros Hnil. rewrite Hnil in Hf. by apply elem_of_nil in Hf. }
  rewrite Hmc. f_equal.
  pose proof (counter_entry_get _ _ _ Hnd Hin) as Hg. rewrite tally_count in Hg.
  specialize (Hall _ Hf). simpl in Hall.
  destruct (decide (g = f)) as [->|Hne]; [by subst|].
  specialize (Hmax g Hne). lia.
Qed.

Lemma function_count_pos (f : string) (kept : list kept_hit) (k : kept_hit) :
  k ∈ kept -> f ∈ functions k.2 -> (0 < function_count f kept)%nat.
Proof.
  intros Hk Hf. unfold function_count.
  assert (Hin : f ∈ filter (fun g => g = f) (function_ids kept)).
  { apply list_elem_of_filter. split; [done|].
    unfold function_ids. apply list_elem_of_In, in_concat.
    exists (functions k.2). split; [|by apply list_elem_of_In].
    apply list_elem_of_In, list_elem_of_fmap. by exists k. }
  destruct (filter _ _); [by apply elem_of_nil in Hin|simpl; lia].
Qed.

(* --------------------------------------------------------------------- *)
(** ** The majority veto *)
(* --------------------------------------------------------------------- *)

(** C2. Once the anchor hit on [(hit_start, hit_end)] is located, if the
    empty-function sentinel is the most frequent function id among the kept
    hits (the hits of the bitscore window, with the anchor hit when it is
    re-admitted), the call returns normally with the status of the read set
    to ["nofunction"]; no score is added to the functions of the read, its
    hit list is not replaced and no taxonomy id is assigned, whatever the
    functions of the best hit are. *)
Theorem compare_hits_lca_majority_veto read hs he new_hits c avg lca ref_data
    cov_data pre anchor post :
  hits (hit_list read) = pre ++ anchor :: post ->
  Forall (fun h => ~ on_interval hs he h) pre ->
  on_interval hs he anchor ->
  let best_bitscore := (find_best_hit (hits new_hits)).2 in
  let kept :=
    readmit (window_filter (bitscore_lower_cutoff best_bitscore c) (hits new_hits))
      anchor best_bitscore in
  (forall g, g <> "" -> (function_count g kept < function_count "" kept)%nat) ->
  let '(read', store', e) :=
    compare_hits_lca read hs he new_hits c avg lca ref_data cov_data in
  e = None /\ store' = hits new_hits /\
  read' = set_status "nofunction" read /\
  status read' = "nofunction" /\
  read_functions read' = read_functions read /\
  hit_list read' = hit_list read /\
  taxonomy read' = taxonomy read.
Proof.
  intros Hl Hpre Ha best_bitscore kept Hmax.
  rewrite (compare_hits_lca_located _ _ _ _ _ _ _ _ _ _ _ _ Hl Hpre Ha).
  assert (compare_hit ref_data lca c avg (get_coverage cov_data read) anchor read
            (hits new_hits) = (set_status "nofunction" read, hits new_hits, Returned))
    as ->; [|done].
  unfold compare_hit. subst kept best_bitscore.
  destruct (find_best_hit (hits new_hits)) as [[bh|] b]; [|done].
  case_bool_decide; [done|]. simpl in Hmax.
  set (kept := readmit _ _ _) in *.
  assert (Hpos : (0 < function_count "" kept)%nat).
  { assert ("x" <> "") as Hx by done. specialize (Hmax "x" Hx). lia. }
  pose proof (most_common_1_plurality kept "" Hmax Hpos) as Hmc.
  destruct (tally kept) as [counter fdict]. simpl in Hmc. rewrite Hmc.
  done.
Qed.

Lemma compare_hits_lca_majority_veto_witness :
  let '(read', store', e) :=
    compare_hits_lca (sample_read (sample_hit "S1" 40 ["F1"])) 1 100
      (mkDiamondHitList "P1|1|100"
         [sample_hit "S1" 50 ["F1"]; sample_hit "S8" 49 [""]; sample_hit "S9" 49 [""]])
      (3 # 100) 0 sample_lca sample_ref_data None in
  e = None /\
  store' = [sample_hit "S1" 50 ["F1"]; sample_hit "S8" 49 [""]; sample_hit "S9" 49 [""]] /\
  read' = set_status "nofunction" (sample_read (sample_hit "S1" 40 ["F1"])) /\
  status read' = "nofunction" /\
  read_functions read' = ∅ /\
  hit_list read' = mkDiamondHitList "P1" [sample_hit "S1" 40 ["F1"]] /\
  taxonomy read' = None.
Proof.
  apply (compare_hits_lca_majority_veto (sample_read (sample_hit "S1" 40 ["F1"])) 1 100
           (mkDiamondHitList "P1|1|100"
              [sample_hit "S1" 50 ["F1"]; sample_hit "S8" 49 [""]; sample_hit "S9" 49 [""]])
           (3 # 100) 0 sample_lca sample_ref_data None [] (sample_hit "S1" 40 ["F1"]) []).
  - reflexivity.
  - constructor.
  - split; reflexivity.
  - intros g Hg.
    change (function_count g
              [(NewHit 0, sample_hit "S1" 50 ["F1"]); (NewHit 1, sample_hit "S8" 49 [""]);
               (NewHit 2, sample_hit "S9" 49 [""])] < 2)%nat.
    unfold function_count, function_ids. simpl.
    rewrite !filter_cons, filter_nil.
    repeat case_decide; simpl; try lia; congruence.
Defined.

(* --------------------------------------------------------------------- *)
(** ** The best hit passes the window *)
(* --------------------------------------------------------------------- *)

Lemma annotate_hit_functions (ref_data : ReferenceData) (h : DiamondHit) :
  functions (annotate_hit ref_data h) <> [].
Proof.
  unfold annotate_hit. simpl.
  by destruct (lookup_protein_function ref_data (subject_id h)).
Qed.

Lemma readmit_elem_of (new_hits : list kept_hit) anchor best (k : kept_hit) :
  k ∈ readmit new_hits anchor best -> k ∈ new_hits \/ k = (AnchorHit, anchor).
Proof.
  unfold readmit. destruct (_ && _); [|by left].
  intros [?|Hk]%elem_of_app; [by left|]. right. by apply list_elem_of_singleton in Hk.
Qed.

Lemma readmit_incl (new_hits : list kept_hit) anchor best (k : kept_hit) :
  k ∈ new_hits -> k ∈ readmit new_hits anchor best.
Proof.
  unfold readmit. destruct (_ && _); [|done]. intros ?. apply elem_of_app. by left.
Qed.

(* --------------------------------------------------------------------- *)
(** ** The rounding of the window bound *)
(* --------------------------------------------------------------------- *)

Lemma pow2_pos e : (0 < pow2 e)%Q.
Proof. apply Qpower_0_lt. reflexivity. Qed.

Lemma pow2_add a b : (pow2 (a + b) == pow2 a * pow2 b)%Q.
Proof. apply Qpower_plus. discriminate. Qed.

Lemma pow2_le a b : (a <= b)%Z -> (pow2 a <= pow2 b)%Q.
Proof. intros H. apply Qpower_le_compat_l; [done|]. discriminate. Qed.

Lemma pow2_lt_inv a b : (pow2 a < pow2 b)%Q -> (a < b)%Z.
Proof. intros H. apply (Qpower_lt_compat_l_inv 2); [done|reflexivity]. Qed.

Lemma pow2_Z k : (0 <= k)%Z -> (pow2 k == inject_Z (2 ^ k))%Q.
Proof. intros H. unfold pow2. rewrite (Zpower_Qpower 2 k H). reflexivity. Qed.

Lemma Q_num_den q : (q * inject_Z (Z.pos (Qden q)) == inject_Z (Qnum q))%Q.
Proof. destruct q as [qn qd]. unfold Qeq. simpl. rewrite Pos.mul_1_r. ring. Qed.

Lemma Qlog2_spec q :
  (0 < q)%Q -> (pow2 (Qlog2 q) <= q)%Q /\ (q < pow2 (Qlog2 q + 1))%Q.
Proof.
  intros Hq. unfold Qlog2.
  set (n := Qnum q). set (d := Z.pos (Qden q)).
  set (a := Z.log2 n). set (b := Z.log2 d).
  assert (0 < n)%Z as Hn.
  { unfold Qlt in Hq. simpl in Hq. unfold n. lia. }
  assert (0 < d)%Z as Hd by done.
  destruct (Z.log2_spec n Hn) as [Ha1 Ha2]. destruct (Z.log2_spec d Hd) as [Hb1 Hb2].
  fold a in Ha1, Ha2. fold b in Hb1, Hb2.
  pose proof (Z.log2_nonneg n) as Ha0. pose proof (Z.log2_nonneg d) as Hb0.
  fold a in Ha0. fold b in Hb0.
  assert (q * inject_Z d == inject_Z n)%Q as Hqd by apply Q_num_den.
  assert (pow2 a <= inject_Z n)%Q as Qa1.
  { rewrite pow2_Z by done. by rewrite <- Zle_Qle. }
  assert (inject_Z n < pow2 (a + 1))%Q as Qa2.
  { rewrite pow2_Z by lia. rewrite <- Zlt_Qlt. unfold Z.succ in Ha2. done. }
  assert (pow2 b <= inject_Z d)%Q as Qb1.
  { rewrite pow2_Z by done. by rewrite <- Zle_Qle. }
  assert (inject_Z d < pow2 (b + 1))%Q as Qb2.
  { rewrite pow2_Z by lia. rewrite <- Zlt_Qlt. unfold Z.succ in Hb2. done. }
  assert (0 < inject_Z d)%Q as Qd0.
  { rewrite <- (Zlt_Qlt 0). done. }
  set (k := (a - b)%Z).
  assert (pow2 (a + 1) == pow2 (k + 1) * pow2 b)%Q as E1.
  { rewrite <- pow2_add. unfold k. by replace (a - b + 1 + b)%Z with (a + 1)%Z by lia. }
  assert (pow2 a == pow2 (k - 1) * pow2 (b + 1))%Q as E2.
  { rewrite <- pow2_add. unfold k. by replace (a - b - 1 + (b + 1))%Z with a by lia. }
  pose proof (pow2_pos (k + 1)) as P1. pose proof (pow2_pos (k - 1)) as P2.
  pose proof (pow2_pos b) as P3.
  assert (q < pow2 (k + 1))%Q as Hup.
  { apply (Qmult_lt_r _ _ (inject_Z d)); [done|]. rewrite Hqd. nra. }
  assert (pow2 (k - 1) <= q)%Q as Hlow.
  { apply (Qmult_le_r _ _ (inject_Z d)); [done|]. rewrite Hqd. nra. }
  destruct (Qle_bool (pow2 k) q) eqn:E.
  - apply Qle_bool_iff in E. done.
  - split; [done|]. replace (k - 1 + 1)%Z with k by lia.
    apply Qnot_le_lt. intros H. apply Qle_bool_iff in H. congruence.
Qed.

Lemma rne_le (z : Q) (n : Z) : (z < inject_Z n + (1 # 2))%Q -> (rne z <= n)%Z.
Proof.
  intros Hz. unfold rne.
  pose proof (Qfloor_le z) as Hf.
  assert (Qfloor z <= n)%Z as Hfn.
  { assert (inject_Z (Qfloor z) < inject_Z (n + 1))%Q as H.
    { rewrite inject_Z_plus. change (inject_Z 1) with 1%Q. lra. }
    rewrite <- Zlt_Qlt in H. lia. }
  assert ((Qfloor z < n)%Z \/ (z - inject_Z (Qfloor z) < 1 # 2)%Q) as Hcase.
  { destruct (Z.eq_dec (Qfloor z) n) as [Heq|Hne]; [|left; lia].
    right. rewrite Heq. lra. }
  destruct (Qcompare_spec (z - inject_Z (Qfloor z)) (1 # 2)) as [He|Hl|Hg].
  - destruct Hcase as [?|Hlt]; [|lra]. destruct (Z.even _); lia.
  - lia.
  - destruct Hcase as [?|Hlt]; [lia|lra].
Qed.

Lemma Qabs_pos_eq q : (0 < q)%Q -> Qabs q = q.
Proof.
  intros H. destruct q as [n d]. unfold Qabs. f_equal.
  apply Z.abs_eq. unfold Qlt in H. simpl in H. lia.
Qed.

Lemma f64_exponent_spec y :
  (0 < y)%Q ->
  (-1074 <= f64_exponent y)%Z /\
  (y < inject_Z (2 ^ 53) * pow2 (f64_exponent y))%Q /\
  ((inject_Z (2 ^ 52) * pow2 (f64_exponent y) <= y)%Q \/ f64_exponent y = (-1074)%Z).
Proof.
  intros Hy. unfold f64_exponent. rewrite (Qabs_pos_eq y Hy).
  destruct (Qlog2_spec y Hy) as [Hl Hu]. set (lf := Qlog2 y) in *.
  split; [lia|].
  assert (pow2 (lf + 1) == inject_Z (2 ^ 53) * pow2 (lf - 52))%Q as E1.
  { rewrite <- (pow2_Z 53) by lia. rewrite <- pow2_add.
    by replace (53 + (lf - 52))%Z with (lf + 1)%Z by lia. }
  assert (pow2 lf == inject_Z (2 ^ 52) * pow2 (lf - 52))%Q as E2.
  { rewrite <- (pow2_Z 52) by lia. rewrite <- pow2_add.
    by replace (52 + (lf - 52))%Z with lf by lia. }
  pose proof (pow2_le (lf - 52) (Z.max (lf - 52) (-1074)) (Z.le_max_l _ _)) as Hmono.
  assert (0 < inject_Z (2 ^ 53))%Q as H53 by reflexivity.
  split.
  - rewrite E1 in Hu. nra.
  - destruct (Z.max_spec (lf - 52) (-1074)) as [[_ ->]|[_ ->]]; [by right|].
    left. by rewrite <- E2.
Qed.

Lemma f64_round_le y n :
  (y < (inject_Z n + (1 # 2)) * pow2 (f64_exponent y))%Q ->
  (f64_round y <= inject_Z n * pow2 (f64_exponent y))%Q.
Proof.
  intros H. unfold f64_round. pose proof (pow2_pos (f64_exponent y)) as Hp.
  assert (rne (y / pow2 (f64_exponent y)) <= n)%Z as Hr.
  { apply rne_le. apply Qlt_shift_div_r; done. }
  rewrite Zle_Qle in Hr. nra.
Qed.

Lemma f64_round_nonpos y : (y <= 0)%Q -> (f64_round y <= 0)%Q.
Proof.
  intros H. pose proof (pow2_pos (f64_exponent y)) as Hp.
  pose proof (f64_round_le y 0) as Hr. change (inject_Z 0) with 0%Q in Hr.
  assert (y < (0 + (1 # 2)) * pow2 (f64_exponent y))%Q as Hlt by nra.
  apply Hr in Hlt. nra.
Qed.

Lemma pow2_values :
  (pow2 (-52) == 1 # 4503599627370496)%Q /\
  (pow2 (-53) == 1 # 9007199254740992)%Q /\
  (pow2 (-54) == 1 # 18014398509481984)%Q /\
  (inject_Z (2 ^ 52) == 4503599627370496)%Q /\
  (inject_Z (2 ^ 53) == 9007199254740992)%Q.
Proof. repeat split; reflexivity. Qed.

Lemma one_minus_cutoff_rounds_below_one c :
  (pow2 (-54) < c)%Q -> (f64_sub 1 c <= 1 - pow2 (-53))%Q.
Proof.
  destruct pow2_values as (V52 & V53 & V54 & I52 & I53).
  rewrite V54, V53. intros Hc. unfold f64_sub. set (x := (1 - c)%Q).
  assert (x < 1 - (1 # 18014398509481984))%Q as Hx by (unfold x; lra).
  destruct (Qlt_le_dec 0 x) as [Hpos|Hneg].
  2:{ pose proof (f64_round_nonpos x Hneg). lra. }
  destruct (f64_exponent_spec x Hpos) as (He & Hup & Hlow).
  set (e := f64_exponent x) in *.
  pose proof (pow2_pos e) as Hp.
  rewrite I53 in Hup. rewrite I52 in Hlow.
  assert (e <= -53)%Z as He53.
  { destruct (Z_le_gt_dec e (-53)%Z) as [|Hgt]; [done|]. exfalso.
    destruct Hlow as [Hlow|Hlow]; [|lia].
    pose proof (pow2_le (-52)%Z e ltac:(lia)) as Hm.
    rewrite V52 in Hm. lra. }
  destruct (Z.eq_dec e (-53)%Z) as [Heq|Hne].
  - pose proof (f64_round_le x (2 ^ 53 - 1)%Z) as Hr. fold e in Hr.
    assert (pow2 e == 1 # 9007199254740992)%Q as E by (rewrite Heq; exact V53).
    change (inject_Z (2 ^ 53 - 1)%Z) with 9007199254740991%Q in Hr.
    rewrite E in Hr. lra.
  - pose proof (f64_round_le x (2 ^ 53)%Z) as Hr. fold e in Hr.
    pose proof (pow2_le e (-54)%Z ltac:(lia)) as Hm.
    rewrite V54 in Hm. rewrite I53 in Hr. lra.
Qed.

Lemma product_rounds_below best r :
  f64_normal best -> (pow2 (-1022) < best)%Q -> (r <= 1 - pow2 (-53))%Q ->
  (f64_mul best r < best)%Q.
Proof.
  destruct pow2_values as (V52 & V53 & V54 & I52 & I53).
  intros (m & e & [Hm1 Hm2] & He & Hb) Hmin Hr. rewrite V53 in Hr.
  pose proof (pow2_pos e) as HP.
  assert (4503599627370496 <= inject_Z m)%Q as HM1.
  { rewrite <- I52, <- Zle_Qle. done. }
  assert (inject_Z m <= 9007199254740991)%Q as HM2.
  { change 9007199254740991%Q with (inject_Z (2 ^ 53 - 1)%Z). rewrite <- Zle_Qle. lia. }
  assert (0 < best)%Q as Hbest by nra.
  assert (4503599627370496 * pow2 e <= best)%Q as HB1 by nra.
  assert (best * r <= best - best * (1 # 9007199254740992))%Q as Hy by nra.
  assert (m = (2 ^ 52)%Z -> e <> (-1074)%Z) as Hsmall.
  { intros -> ->. rewrite I52 in Hb.
    assert (pow2 (-1022) == pow2 52 * pow2 (-1074))%Q as E by (by rewrite <- pow2_add).
    assert (pow2 52 == 4503599627370496)%Q as E' by reflexivity.
    rewrite E' in E. lra. }
  assert (m = (2 ^ 52)%Z \/ (4503599627370497 * pow2 e <= best)%Q) as Hm.
  { destruct (Z.eq_dec m (2 ^ 52)%Z) as [|Hne]; [by left|]. right.
    assert (4503599627370497 <= inject_Z m)%Q as HM3.
    { change 4503599627370497%Q with (inject_Z (2 ^ 52 + 1)%Z). rewrite <- Zle_Qle. lia. }
    nra. }
  unfold f64_mul. set (y := (best * r)%Q) in *.
  destruct (Qlt_le_dec 0 y) as [Hpos|Hneg].
  2:{ pose proof (f64_round_nonpos y Hneg). lra. }
  destruct (f64_exponent_spec y Hpos) as (Hey & Hup & Hlow).
  set (ey := f64_exponent y) in *.
  pose proof (pow2_pos ey) as HPy.
  rewrite I53 in Hup. rewrite I52 in Hlow.
  pose proof (f64_round_le y (2 ^ 53)%Z) as R53. fold ey in R53. rewrite I53 in R53.
  assert (ey <= e)%Z as Hle.
  { destruct (Z_le_gt_dec ey e) as [|Hgt]; [done|]. exfalso.
    destruct Hlow as [Hlow|Hlow]; [|lia].
    pose proof (pow2_le (e + 1)%Z ey ltac:(lia)) as Hmono.
    rewrite pow2_add in Hmono. change (pow2 1) with 2%Q in Hmono. nra. }
  destruct (Z.eq_dec ey e) as [Heq|Hne].
  - assert (pow2 ey == pow2 e)%Q as E by (by rewrite Heq).
    destruct Hm as [Hm|Hm].
    + exfalso. destruct Hlow as [Hlow|Hlow]; [|by apply Hsmall; [|rewrite <- Heq]].
      subst m. rewrite I52 in Hb. nra.
    + pose proof (f64_round_le y (m - 1)%Z) as R. fold ey in R.
      assert (inject_Z (m - 1)%Z == inject_Z m - 1)%Q as Em.
      { unfold Z.sub. rewrite inject_Z_plus. reflexivity. }
      rewrite Em, E in R. nra.
  - destruct Hm as [Hm|Hm].
    + subst m. rewrite I52 in Hb.
      destruct (Z.eq_dec ey (e - 1)%Z) as [Heq1|Hne1].
      * assert (pow2 e == 2 * pow2 ey)%Q as E.
        { replace e with (1 + ey)%Z by lia. rewrite pow2_add. reflexivity. }
        pose proof (f64_round_le y (2 ^ 53 - 1)%Z) as R. fold ey in R.
        change (inject_Z (2 ^ 53 - 1)%Z) with 9007199254740991%Q in R. nra.
      * pose proof (pow2_le ey (e - 2)%Z ltac:(lia)) as Hmono.
        assert (pow2 e == 4 * pow2 (e - 2))%Q as E.
        { replace e with (2 + (e - 2))%Z at 1 by lia. rewrite pow2_add. reflexivity. }
        nra.
    + pose proof (pow2_le ey (e - 1)%Z ltac:(lia)) as Hmono.
      assert (pow2 e == 2 * pow2 (e - 1))%Q as E.
      { replace e with (1 + (e - 1))%Z at 1 by lia. rewrite pow2_add. reflexivity. }
      nra.
Qed.

(** The bound of the window is below a best bitscore of the normal range
    as soon as [1.0 - bitscore_range_cutoff] is not rounded to [1.0]. *)
Lemma bitscore_lower_cutoff_below_best best c :
  f64_normal best -> (pow2 (-1022) < best)%Q -> (pow2 (-54) < c)%Q ->
  (bitscore_lower_cutoff best c < best)%Q.
Proof.
  intros Hn Hmin Hc. unfold bitscore_lower_cutoff.
  apply product_rounds_below; [done|done|].
  by apply one_minus_cutoff_rounds_below_one.
Qed.

(** C10. When the annotated new hit list has a best hit (its bitscore is then
    strictly positive) whose bitscore is a binary64 number of the normal
    range above the smallest one ([2^-1022]), and [bitscore_range_cutoff] is
    greater than [2^-54], the best hit passes the bitscore window, the kept
    hits are not empty, every kept hit carries at least one function entry,
    and [most_common(1)] is applied to a counter that is not empty. With
    [bitscore_range_cutoff = 0] the guarantee is lost: on the sample input
    below the window is empty and the call raises [IndexError]. *)
Theorem best_hit_passes_window :
  (forall (ref_data : ReferenceData) (raw : DiamondHitList) (anchor0 bh : DiamondHit)
          (best_bitscore c : Q),
      let store := hits (annotate_hits ref_data raw) in
      let anchor := annotate_hit ref_data anchor0 in
      let window := window_filter (bitscore_lower_cutoff best_bitscore c) store in
      let kept := readmit window anchor best_bitscore in
      find_best_hit store = (Some bh, best_bitscore) ->
      f64_normal best_bitscore ->
      (pow2 (-1022) < best_bitscore)%Q ->
      (pow2 (-54) < c)%Q ->
      (0 < best_bitscore)%Q /\
      (exists i, (NewHit i, bh) ∈ window) /\
      kept <> [] /\
      (forall k, k ∈ kept -> functions k.2 <> []) /\
      (tally kept).1 <> [] /\
      (exists kv, most_common_1 (tally kept).1 = Some kv)) /\
  (let raw := mkDiamondHitList "P1|1|100" [sample_hit "S1" 50 []] in
   let store := hits (annotate_hits sample_ref_data raw) in
   let anchor := annotate_hit sample_ref_data (sample_hit "S1" 40 []) in
   find_best_hit store = (Some (sample_hit "S1" 50 ["F1"]), 50%Q) /\
   window_filter (bitscore_lower_cutoff 50 0) store = [] /\
   readmit (window_filter (bitscore_lower_cutoff 50 0) store) anchor 50 = [] /\
   (compare_hits_lca (sample_read anchor) 1 100 (annotate_hits sample_ref_data raw)
      0 0 sample_lca sample_ref_data None).2 = Some IndexError).
Proof.
  split.
  - intros ref_data raw anchor0 bh best c store anchor window kept Hbest Hnorm Hmin Hc.
    pose proof (bitscore_lower_cutoff_below_best best c Hnorm Hmin Hc) as Hbound.
    apply find_best_hit_Some in Hbest as (Hin & -> & Hpos & Hmaxb).
    assert (Hwin : exists i, (NewHit i, bh) ∈ window).
    { apply list_elem_of_lookup in Hin as [i Hi]. exists i.
      apply elem_of_window_filter. split; [by eauto|]. exact Hbound. }
    assert (Hfun : forall k, k ∈ kept -> functions k.2 <> []).
    { intros [r k] Hk. simpl.
      apply readmit_elem_of in Hk as [Hk|Hk].
      - apply elem_of_window_filter in Hk as [(i & _ & Hi) _].
        apply list_elem_of_lookup_2 in Hi. unfold store in Hi. simpl in Hi.
        apply list_elem_of_fmap in Hi as (k0 & -> & _).
        apply annotate_hit_functions.
      - inversion Hk; subst. apply annotate_hit_functions. }
    destruct Hwin as [i Hi].
    assert (Hk : (NewHit i, bh) ∈ kept) by (by apply readmit_incl).
    assert (Htally : (tally kept).1 <> []).
    { pose proof (Hfun _ Hk) as Hne. simpl in Hne.
      destruct (functions bh) as [|f fs] eqn:Hfs; [done|].
      assert (Hpos' : (0 < function_count f kept)%nat).
      { apply (function_count_pos f kept _ Hk). simpl. rewrite Hfs. by left. }
      rewrite <- tally_count in Hpos'. intros Hnil. rewrite Hnil in Hpos'.
      simpl in Hpos'. lia. }
    split; [done|]. split; [by eauto|]. split.
    { intros Hnil. rewrite Hnil in Hk. by apply elem_of_nil in Hk. }
    split; [done|]. split; [done|].
    destruct (most_common_1_spec _ Htally) as (kv & Hkv & _). by exists kv.
  - vm_compute. done.
Qed.

Lemma best_hit_passes_window_witness :
  exists i, (NewHit i, sample_hit "S1" 50 ["F1"])
            ∈ window_filter (bitscore_lower_cutoff 50 (3 # 100))
                [sample_hit "S1" 50 ["F1"]].
Proof.
  apply (proj1 best_hit_passes_window sample_ref_data
           (mkDiamondHitList "P1|1|100" [sample_hit "S1" 50 []])
           (sample_hit "S1" 40 []) (sample_hit "S1" 50 ["F1"]) 50%Q (3 # 100)%Q).
  - reflexivity.
  - exists 7036874417766400%Z, (-47)%Z. split; [lia|]. split; [lia|]. reflexivity.
  - reflexivity.
  - reflexivity.
Defined.

(** C10 (the code at a failing input). A positive cutoff does not suffice:
    for [bitscore_range_cutoff = 2^-60] the float [1.0 - 2^-60] is [1.0], the
    bound is the best bitscore itself, the best hit fails the strict test of
    the window, no hit is kept and [most_common(1)[0]] raises [IndexError].
    The same happens at [2^-54], where the tie is rounded to [1.0]. *)
Lemma best_hit_fails_window_tiny_cutoff :
  let raw := mkDiamondHitList "P1|1|100" [sample_hit "S1" 50 []] in
  let store := hits (annotate_hits sample_ref_data raw) in
  let anchor := annotate_hit sample_ref_data (sample_hit "S1" 40 []) in
  (0 < pow2 (-60))%Q /\
  find_best_hit store = (Some (sample_hit "S1" 50 ["F1"]), 50%Q) /\
  (f64_sub 1 (pow2 (-60)) == 1)%Q /\
  (bitscore_lower_cutoff 50 (pow2 (-60)) == 50)%Q /\
  window_filter (bitscore_lower_cutoff 50 (pow2 (-60))) store = [] /\
  readmit (window_filter (bitscore_lower_cutoff 50 (pow2 (-60))) store) anchor 50 = [] /\
  (compare_hits_lca (sample_read anchor) 1 100 (annotate_hits sample_ref_data raw)
     (pow2 (-60)) 0 sample_lca sample_ref_data None).2 = Some IndexError /\
  (bitscore_lower_cutoff 50 (pow2 (-54)) == 50)%Q /\
  (compare_hits_lca (sample_read anchor) 1 100 (annotate_hits sample_ref_data raw)
     (pow2 (-54)) 0 sample_lca sample_ref_data None).2 = Some IndexError.
Proof. vm_compute. done. Qed.

(* --------------------------------------------------------------------- *)
(** ** The two passes on an empty input *)
(* --------------------------------------------------------------------- *)

Lemma get_average_coverage_ok (coverage_values : list Q) :
  exists r, get_average_coverage coverage_values = Ok r.
Proof.
  destruct coverage_values as [|c l]; [by eexists|].
  unfold get_average_coverage. rewrite py_div_nonzero; [by eexists|].
  assert (0 < inject_Z (Z.of_nat (length (c :: l))))%Q; [|lra].
  rewrite <- (Zlt_Qlt 0). simpl length. lia.
Qed.

(** C1 (the code at the failing input). On a file with no row the reference
    pass returns normally and leaves the working set as it was, but both
    versions of the background pass raise [AttributeError]: [_hit_list] is
    still [None] when [_hit_list.annotate_hits] is called after the loop.
    [DiamondParser.parse_background_output] has, before that, replaced an
    empty working set by the imported hit list. *)
Theorem parse_empty_input config ref_data lca coverage_data compare imported
    (reads : gmap string AnnotatedRead) :
  parse_reference_output config ref_data reads [] = (reads, None) /\
  parse_background_output config ref_data lca coverage_data reads []
  = (reads, Some AttributeError) /\
  DiamondParser_parse_background_output config ref_data compare imported reads []
  = match (if decide (size reads = 0%nat) then imported else Ok reads) with
    | Ok reads' => (reads', Some AttributeError)
    | Raise e => (reads, Some e)
    end.
Proof.
  split; [done|]. split.
  - unfold parse_background_output.
    destruct (get_average_coverage_ok (map_to_list coverage_data).*2) as [r ->].
    done.
  - unfold DiamondParser_parse_background_output.
    by destruct (if decide (size reads = 0%nat) then imported else Ok reads).
Qed.

(* --------------------------------------------------------------------- *)
(** ** The last group of the reference pass *)
(* --------------------------------------------------------------------- *)

Lemma insert_by_bitscore_not_nil h l : insert_by_bitscore h l <> [].
Proof. destruct l as [|x l]; simpl; [done|]. by destruct (Qgtb _ _). Qed.

Lemma sort_by_bitscore_nil l : sort_by_bitscore l = [] <-> l = [].
Proof.
  split; [|by intros ->]. unfold sort_by_bitscore.
  destruct l as [|x l] using rev_ind; [done|].
  rewrite reverse_snoc. simpl. intros H. by apply insert_by_bitscore_not_nil in H.
Qed.

Lemma accept_hit_length cutoff kept h :
  (length kept <= length (accept_hit cutoff kept h))%nat.
Proof.
  unfold accept_hit. destruct (existsb _ _); [done|]. rewrite length_app. lia.
Qed.

Lemma accept_fold_length cutoff l kept :
  (length kept <= length (foldl (accept_hit cutoff) kept l))%nat.
Proof.
  revert kept. induction l as [|x l IH]; intros kept; simpl; [done|].
  etrans; [apply (accept_hit_length cutoff kept x)|apply IH].
Qed.

(** Overlap resolution keeps at least the best hit: the filtered list is
    empty exactly when the list was. *)
Lemma filter_list_hits_number cutoff (l : DiamondHitList) :
  hits_number (filter_list cutoff l) = 0%nat <-> hits_number l = 0%nat.
Proof.
  unfold hits_number, filter_list. simpl.
  destruct (sort_by_bitscore (hits l)) as [|x s] eqn:Hs.
  - apply (proj1 (sort_by_bitscore_nil _)) in Hs. rewrite Hs. done.
  - assert (hits l <> []) as Hne.
    { intros Hnil. rewrite Hnil in Hs. done. }
    split.
    + simpl. intros H.
      pose proof (accept_fold_length cutoff s (accept_hit cutoff [] x)) as Hle.
      change (accept_hit cutoff [] x) with [x] in *. simpl in Hle. lia.
    + intros H. destruct (hits l); done.
Qed.

(** The processing of the last group at the end of the file is the
    processing of a group inside the file. *)
Lemma reference_group_eof_interior config ref_data q hl reads :
  reference_group_eof config ref_data q hl reads
  = reference_group_interior config ref_data q hl reads.
Proof.
  unfold reference_group_eof, reference_group_interior.
  pose proof (filter_list_hits_number (overlap_cutoff config) hl) as Hiff.
  destruct (decide (hits_number hl <> 0%nat)) as [H|H];
    destruct (decide (hits_number (filter_list (overlap_cutoff config) hl) <> 0%nat))
      as [H'|H']; try done.
  - exfalso. apply H. apply Hiff. lia.
  - exfalso. apply H'. apply Hiff. lia.
Qed.

Lemma reference_rows_app config ref_data st rows rows' :
  reference_rows config ref_data st (rows ++ rows')
  = match reference_rows config ref_data st rows with
    | (st', None) => reference_rows config ref_data st' rows'
    | (st', Some e) => (st', Some e)
    end.
Proof.
  revert st. induction rows as [|r rows IH]; intros st; simpl; [done|].
  destruct (reference_row config ref_data st r) as [st' [e|]]; [done|]. apply IH.
Qed.

(** Rows of other queries leave the entry of [q] alone. *)
Lemma reference_rows_other config ref_data q st rows :
  ref_current st <> q ->
  Forall (row_of_other_query q) rows ->
  exists st', reference_rows config ref_data st rows = (st', None) /\
              ref_current st' <> q /\ ref_reads st' !! q = ref_reads st !! q.
Proof.
  intros Hcur Hrows. revert st Hcur.
  induction Hrows as [|r rows (rid & e & Hp & Hne) _ IH]; intros st Hcur; simpl.
  - by exists st.
  - unfold reference_row. rewrite Hp. simpl.
    destruct (Qltb _ _); [by apply IH|].
    destruct (_ <? _)%Z; [by apply IH|].
    destruct (negb _).
    + edestruct IH as (st' & -> & Hc & Hr); [|exists st'; split; [done|]]; [done|].
      split; [done|]. rewrite Hr. simpl.
      unfold reference_group_interior. case_decide; [|done].
      by rewrite lookup_insert_ne.
    + edestruct IH as (st' & -> & Hc & Hr); [|exists st'; split; [done|]]; done.
Qed.

(** From the state that has the group of [q] in flight, rows of other queries
    lead to the entry that the end of the file gives to [q]. *)
Lemma reference_last_group config ref_data q hl reads rows :
  Forall (row_of_other_query q) rows ->
  exists st', reference_rows config ref_data (mkRefState q hl reads) rows = (st', None) /\
    reference_group_eof config ref_data (ref_current st') (ref_hits st') (ref_reads st') !! q
    = reference_group_eof config ref_data q hl reads !! q.
Proof.
  intros Hrows. revert hl reads.
  induction Hrows as [|r rows (rid & e & Hp & Hne) Hrows IH]; intros hl reads; simpl.
  - by eexists.
  - unfold reference_row. rewrite Hp. simpl.
    destruct (Qltb _ _); [by apply IH|].
    destruct (_ <? _)%Z; [by apply IH|].
    destruct (String.eqb_spec rid q) as [|_]; [done|]. simpl.
    edestruct (reference_rows_other config ref_data q) as (st' & -> & Hc & Hr);
      [| exact Hrows |]; [done|].
    exists st'. split; [done|]. simpl in Hr.
    rewrite (reference_group_eof_interior config ref_data q hl reads), <- Hr.
    unfold reference_group_eof. case_decide; [|done]. by rewrite lookup_insert_ne.
Qed.

(* --------------------------------------------------------------------- *)
(** ** The last group of the background pass *)
(* --------------------------------------------------------------------- *)

Lemma background_rows_app finalize config st rows rows' :
  background_rows finalize config st (rows ++ rows')
  = match background_rows finalize config st rows with
    | (st', None) => background_rows finalize config st' rows'
    | (st', Some e) => (st', Some e)
    end.
Proof.
  revert st. induction rows as [|r rows IH]; intros st; simpl; [done|].
  destruct (background_row finalize config st r) as [st' [e|]]; [done|]. apply IH.
Qed.

Lemma background_from_cons finalize config st r rows :
  background_from finalize config st (r :: rows)
  = match background_row finalize config st r with
    | (st', None) => background_from finalize config st' rows
    | (st', Some e) => (bg_reads st', Some e)
    end.
Proof.
  unfold background_from. simpl.
  by destruct (background_row finalize config st r) as [st' [e|]].
Qed.

(** The group processing of the pipeline only touches the entry of the read
    named by the composite query id. *)
Lemma background_group_frame config ref_data lca avg cov cur hl reads p :
  base_id cur <> p ->
  (background_group config ref_data lca avg cov cur hl reads).1 !! p = reads !! p.
Proof.
  intros Hne. unfold background_group.
  repeat (match goal with
          | |- context [match ?x with _ => _ end] => destruct x eqn:?
          end; simpl; try done).
  by rewrite lookup_insert_ne.
Qed.

Section background_last_group.
Variables (config : Config) (ref_data : ReferenceData)
          (lca : list string -> outcome string) (avg : Q)
          (cov : option (gmap string Q)).

(** Groups of other reads leave the entry of [p] alone. *)
Lemma background_from_other p cur hl reads rows :
  base_id cur <> p ->
  Forall (row_of_other_read p) rows ->
  (background_from (background_group config ref_data lca avg cov) config
     (mkBgState (Some (cur, hl)) reads) rows).1 !! p
  = reads !! p.
Proof.
  intros Hcur Hrows. revert cur hl reads Hcur.
  induction Hrows as [|r rows Hr _ IH]; intros cur hl reads Hcur.
  - unfold background_from. simpl. by apply background_group_frame.
  - rewrite background_from_cons. unfold background_row. simpl.
    destruct (Qltb _ _); [by apply IH|].
    destruct (_ <? _)%Z; [by apply IH|].
    destruct (negb _); [|by apply IH].
    pose proof (background_group_frame config ref_data lca avg cov cur hl reads p Hcur)
      as Hframe.
    destruct (background_group config ref_data lca avg cov cur hl reads)
      as [reads' [e|]]; simpl in *; [done|].
    rewrite IH by done. done.
Qed.

(** From the state that has the group [q] in flight, rows of other reads
    lead to the entry that the group processing of [q] gives to its read. *)
Lemma background_last_group q hl reads rows :
  Forall (row_of_other_read (base_id q)) rows ->
  (background_from (background_group config ref_data lca avg cov) config
     (mkBgState (Some (q, hl)) reads) rows).1 !! base_id q
  = (background_group config ref_data lca avg cov q hl reads).1 !! base_id q.
Proof.
  intros Hrows. revert hl reads.
  induction Hrows as [|r rows Hr Hrows IH]; intros hl reads; [done|].
  rewrite background_from_cons. unfold background_row. simpl.
  destruct (Qltb _ _); [by apply IH|].
  destruct (_ <? _)%Z; [by apply IH|].
  destruct (String.eqb_spec (row_query r) q) as [Heq|_]; simpl.
  { unfold row_of_other_read in Hr. by rewrite Heq in Hr. }
  destruct (background_group config ref_data lca avg cov q hl reads)
    as [reads' [e|]]; simpl; [done|].
  by apply background_from_other.
Qed.
End background_last_group.

(** C7. The last group of the input is processed like a group inside the
    input. Reference pass: when the rows leave the group of the query [q] in
    flight, the entry of [q] in the working set at the end of the pass is the
    same whether the file ends there or goes on with rows of other queries.
    Background pass: when the rows leave the group of the composite query [q]
    in flight, the entry of its read is the same whether the file ends there
    or goes on with rows of composite queries of other reads. *)
Theorem last_group_like_interior :
  (forall config ref_data reads rows rows' q hl reads1,
      reference_rows config ref_data (mkRefState "" (new_hit_list "") reads) rows
      = (mkRefState q hl reads1, None) ->
      Forall (row_of_other_query q) rows' ->
      (parse_reference_output config ref_data reads (rows ++ rows')).1 !! q
      = (parse_reference_output config ref_data reads rows).1 !! q) /\
  (forall config ref_data lca coverage_data reads rows rows' average_coverage q hl reads1,
      get_average_coverage (map_to_list coverage_data).*2 = Ok average_coverage ->
      background_rows
        (background_group config ref_data lca average_coverage (Some coverage_data))
        config (mkBgState None reads) rows
      = (mkBgState (Some (q, hl)) reads1, None) ->
      Forall (row_of_other_read (base_id q)) rows' ->
      (parse_background_output config ref_data lca coverage_data reads (rows ++ rows')).1
        !! base_id q
      = (parse_background_output config ref_data lca coverage_data reads rows).1
        !! base_id q).
Proof.
  split.
  - intros config ref_data reads rows rows' q hl reads1 Hrows Hother.
    unfold parse_reference_output. rewrite reference_rows_app, Hrows.
    destruct (reference_last_group config ref_data q hl reads1 rows' Hother)
      as (st' & -> & Heq).
    done.
  - intros config ref_data lca coverage_data reads rows rows' avg q hl reads1
      Havg Hrows Hother.
    unfold parse_background_output, background_pass. rewrite Havg.
    rewrite background_rows_app, Hrows.
    apply (background_last_group config ref_data lca avg (Some coverage_data)
             q hl reads1 rows' Hother).
Qed.

Lemma last_group_like_interior_witness :
  (parse_reference_output sample_config sample_ref_data ∅
     ([sample_row "Q1" "S1" 50] ++ [sample_row "Q2" "S2" 40])).1 !! "Q1"
  = (parse_reference_output sample_config sample_ref_data ∅
       [sample_row "Q1" "S1" 50]).1 !! "Q1" /\
  (parse_background_output sample_config sample_ref_data sample_lca ∅
     {["P1" := sample_read (sample_hit "S1" 50 ["F1"])]}
     ([sample_row "P1|1|100" "S1" 50] ++ [sample_row "P2|1|50" "S2" 40])).1 !! "P1"
  = (parse_background_output sample_config sample_ref_data sample_lca ∅
       {["P1" := sample_read (sample_hit "S1" 50 ["F1"])]}
       [sample_row "P1|1|100" "S1" 50]).1 !! "P1".
Proof.
  split.
  - apply (proj1 last_group_like_interior sample_config sample_ref_data ∅
             [sample_row "Q1" "S1" 50] [sample_row "Q2" "S2" 40] "Q1"
             (mkDiamondHitList "Q1" [create_hit "Q1" (sample_row "Q1" "S1" 50)]) ∅).
    + reflexivity.
    + constructor; [|constructor]. exists "Q2", "". split; [reflexivity|discriminate].
  - apply (proj2 last_group_like_interior sample_config sample_ref_data sample_lca ∅
             {["P1" := sample_read (sample_hit "S1" 50 ["F1"])]}
             [sample_row "P1|1|100" "S1" 50] [sample_row "P2|1|50" "S2" 40] 0%Q
             "P1|1|100"
             (mkDiamondHitList "P1|1|100"
                [create_hit "P1|1|100" (sample_row "P1|1|100" "S1" 50)])
             {["P1" := sample_read (sample_hit "S1" 50 ["F1"])]}).
    + reflexivity.
    + reflexivity.
    + constructor; [|constructor]. unfold row_of_other_read. vm_compute. discriminate.
Defined.

(* --------------------------------------------------------------------- *)
(** ** The queries leave closed tables as they are *)
(* --------------------------------------------------------------------- *)

Lemma frame_ret {A} t (a : A) (P : A -> Prop) : P a -> tax_frame t (tax_ret a) P.
Proof. intros H. split; [done|]. intros a' [= <-]. done. Qed.

Lemma frame_raise {A} t e (P : A -> Prop) : tax_frame t (tax_raise e) P.
Proof. split; [done|]. intros a' [=]. Qed.

Lemma frame_bind {A B} t (m : Tax A) (k : A -> Tax B) (P : A -> Prop) (R : B -> Prop) :
  tax_frame t m P ->
  (forall a, P a -> tax_frame t (k a) R) ->
  tax_frame t (tax_bind m k) R.
Proof.
  intros [Hm HP] Hk. unfold tax_frame, tax_bind.
  destruct (m t) as [[a|e] t'] eqn:E; simpl in *; subst t'.
  - apply Hk. by apply HP.
  - split; [done|]. intros a' [=].
Qed.

Lemma frame_weaken {A} t (m : Tax A) (P R : A -> Prop) :
  tax_frame t m P -> (forall a, P a -> R a) -> tax_frame t m R.
Proof. intros [Hm HP] HPR. split; [done|]. intros a Ha. apply HPR, HP, Ha. Qed.

Lemma frame_nodes_in t k :
  tax_frame t (nodes_in k) (fun b => b = true -> k ∈ dom (nodes t)).
Proof.
  split; [done|]. intros b [= <-]. intros Hb%bool_decide_eq_true.
  by apply elem_of_dom.
Qed.

Lemma frame_names_in t k :
  tax_frame t (names_in k) (fun b => b = true -> k ∈ dom (names t)).
Proof.
  split; [done|]. intros b [= <-]. intros Hb%bool_decide_eq_true.
  by apply elem_of_dom.
Qed.

Lemma frame_dict_get t d key :
  tax_frame t (dict_get d key) (fun v => d !! key = Some v).
Proof.
  unfold dict_get. destruct (d !! key); [by apply frame_ret|apply frame_raise].
Qed.

Lemma frame_nodes_get t k key :
  k ∈ dom (nodes t) ->
  tax_frame t (nodes_get k key)
    (fun v => exists d, nodes t !! k = Some d /\ d !! key = Some v).
Proof.
  intros [d Hd]%elem_of_dom. unfold nodes_get.
  apply frame_bind with (P := fun d' => d' = d).
  - unfold nodes_item, tax_frame. rewrite Hd. simpl. split; [done|]. by intros a [= <-].
  - intros ? ->. eapply frame_weaken; [apply frame_dict_get|]. simpl. eauto.
Qed.

Lemma frame_names_get t k key :
  k ∈ dom (names t) ->
  tax_frame t (names_get k key) (fun _ => True).
Proof.
  intros [d Hd]%elem_of_dom. unfold names_get.
  apply frame_bind with (P := fun d' => d' = d).
  - unfold names_item, tax_frame. rewrite Hd. simpl. split; [done|]. by intros a [= <-].
  - intros ? ->. eapply frame_weaken; [apply frame_dict_get|]. done.
Qed.

(** In closed tables the parent of an id of the tables is an id of the
    tables. *)
Lemma frame_nodes_parent t k :
  tax_closed t -> k ∈ dom (nodes t) ->
  tax_frame t (nodes_get k "parent") (fun p => p ∈ dom (nodes t)).
Proof.
  intros (_ & _ & _ & Hcl) Hk.
  eapply frame_weaken; [by apply frame_nodes_get|].
  intros p (d & Hd & Hp). specialize (Hcl k d Hd). simpl in Hcl. by rewrite Hp in Hcl.
Qed.

Lemma frame_nodes_any t k key :
  k ∈ dom (nodes t) -> tax_frame t (nodes_get k key) (fun _ => True).
Proof. intros Hk. eapply frame_weaken; [by apply frame_nodes_get|done]. Qed.

Lemma frame_set_pop t s : tax_frame t (set_pop s) (fun x => x ∈ s).
Proof.
  destruct s as [|x s]; simpl; [apply frame_raise|]. apply frame_ret. by left.
Qed.

Lemma frame_lineage_loop t fuel parent_id lineage depth :
  tax_closed t -> parent_id ∈ dom (nodes t) ->
  tax_frame t (lineage_loop fuel parent_id lineage depth) (fun _ => True).
Proof.
  intros Hcl. revert parent_id lineage depth.
  induction fuel as [|fuel IH]; intros parent_id lineage depth Hp; simpl.
  - apply frame_raise.
  - eapply frame_bind; [by apply frame_nodes_parent|]. intros p Hpn. simpl.
    destruct (String.eqb p ROOT_TAXONOMY_ID); [by apply frame_ret|].
    eapply frame_bind; [by apply frame_nodes_parent|]. intros p1 Hp1. simpl.
    eapply frame_bind; [apply frame_names_in|]. intros known _. simpl.
    eapply frame_bind with (P := fun p' => p' ∈ dom (nodes t)).
    + destruct known; [by apply frame_nodes_parent|]. apply frame_ret.
      by destruct Hcl as (_ & ? & _).
    + intros p' Hp'. by apply IH.
Qed.

Lemma frame_lineages_loop t fuel ids lineages min_depth :
  tax_closed t ->
  tax_frame t (lineages_loop fuel ids lineages min_depth) (fun _ => True).
Proof.
  intros Hcl. revert lineages min_depth.
  induction ids as [|id ids IH]; intros lineages min_depth; simpl.
  - by apply frame_ret.
  - eapply frame_bind; [apply frame_nodes_in|]. intros present Hpres. simpl.
    destruct present; [|apply IH].
    eapply frame_bind; [apply frame_nodes_parent; auto|]. intros p Hp. simpl.
    eapply frame_bind; [by apply frame_lineage_loop|]. intros [l d] _. apply IH.
Qed.

Lemma frame_level_ids t lineages i ids id_set :
  tax_frame t (level_ids lineages i ids id_set) (fun _ => True).
Proof.
  revert id_set. induction ids as [|id ids IH]; intros id_set; simpl.
  - by apply frame_ret.
  - eapply frame_bind; [apply frame_nodes_in|]. intros present _. simpl.
    destruct present; [|apply IH].
    destruct (lineages !! id) as [l|]; [|apply frame_raise].
    destruct (l !! i); [apply IH|apply frame_raise].
Qed.

Lemma frame_levels_loop t lineages ids levels upper :
  tax_frame t (levels_loop lineages ids levels upper) (fun _ => True).
Proof.
  revert upper. induction levels as [|i levels IH]; intros upper; simpl.
  - destruct (_ =? _)%nat; [|by apply frame_ret].
    eapply frame_weaken; [apply frame_set_pop|done].
  - eapply frame_bind; [apply frame_level_ids|]. intros id_set _. simpl.
    destruct (_ <? _)%nat; [|apply IH].
    eapply frame_weaken; [apply frame_set_pop|done].
Qed.

Lemma frame_get_lca t fuel ids :
  tax_closed t -> tax_frame t (get_lca fuel ids) (fun _ => True).
Proof.
  intros Hcl. unfold get_lca.
  assert (Hgen : tax_frame t
            (let* r := lineages_loop fuel ids ∅ 1000 in
             let '(taxonomic_lineages, min_depth) := r in
             levels_loop taxonomic_lineages ids (seq 0 (S min_depth))
               [UNKNOWN_TAXONOMY_ID]) (fun _ => True)).
  { eapply frame_bind; [by apply frame_lineages_loop|]. intros [l d] _.
    apply frame_levels_loop. }
  destruct ids as [|id [|id' ids]]; try exact Hgen.
  destruct (String.eqb id ""); by apply frame_ret.
Qed.

Lemma levels_add_known t rank x levels :
  x ∈ dom (nodes t) -> levels_known t levels -> levels_known t (levels_add rank x levels).
Proof.
  intros Hx Hl rank' s y Hs Hy. unfold levels_add in Hs.
  destruct (decide (rank = rank')) as [<-|Hne].
  - rewrite lookup_insert_eq in Hs. injection Hs as <-.
    unfold set_add in Hy. case_bool_decide.
    + destruct (levels !! rank) as [s0|] eqn:E; simpl in *; [by eapply Hl|].
      by apply elem_of_nil in Hy.
    + apply elem_of_app in Hy as [Hy|Hy].
      * destruct (levels !! rank) as [s0|] eqn:E; simpl in *; [by eapply Hl|].
        by apply elem_of_nil in Hy.
      * apply list_elem_of_singleton in Hy. by subst.
  - rewrite lookup_insert_ne in Hs by done. by eapply Hl.
Qed.

Lemma frame_levels_climb t fuel parent_id levels :
  tax_closed t -> parent_id ∈ dom (nodes t) -> levels_known t levels ->
  tax_frame t (levels_climb fuel parent_id levels) (levels_known t).
Proof.
  intros Hcl. revert parent_id levels.
  induction fuel as [|fuel IH]; intros parent_id levels Hp Hl; simpl.
  - apply frame_raise.
  - destruct (String.eqb parent_id ROOT_TAXONOMY_ID); [by apply frame_ret|].
    eapply frame_bind; [by apply frame_nodes_any|]. intros rank _. simpl.
    eapply frame_bind; [by apply frame_nodes_parent|]. intros p Hpn. simpl.
    apply IH; [done|]. by apply levels_add_known.
Qed.

Lemma frame_levels_loop2 t fuel ids levels :
  tax_closed t -> levels_known t levels ->
  tax_frame t (levels_loop2 fuel ids levels) (levels_known t).
Proof.
  intros Hcl. revert levels.
  induction ids as [|id ids IH]; intros levels Hl; simpl.
  - by apply frame_ret.
  - destruct (String.eqb id ""); [by apply IH|].
    eapply frame_bind; [apply frame_nodes_in|]. intros present Hpres. simpl.
    destruct present; [|by apply IH].
    eapply frame_bind; [apply frame_nodes_any; auto|]. intros rank _. simpl.
    eapply frame_bind; [apply frame_nodes_parent; auto|]. intros p Hp. simpl.
    eapply frame_bind.
    + apply frame_levels_climb; [done..|]. apply levels_add_known; auto.
    + intros levels' Hl'. by apply IH.
Qed.

Lemma last_good_known t ranks levels last :
  levels_known t levels -> (forall x, x ∈ last -> x ∈ dom (nodes t)) ->
  forall x, x ∈ last_good ranks levels last -> x ∈ dom (nodes t).
Proof.
  intros Hl. revert last. induction ranks as [|rank ranks IH]; intros last Hlast; simpl.
  - done.
  - destruct (_ =? _)%nat; [|done]. apply IH. intros x Hx.
    destruct (levels !! rank) as [s|] eqn:E; simpl in *; [by eapply Hl|].
    by apply elem_of_nil in Hx.
Qed.

Lemma frame_ranked_ancestor t RANKS fuel ret_val :
  tax_closed t -> ret_val ∈ dom (nodes t) ->
  tax_frame t (ranked_ancestor RANKS fuel ret_val) (fun _ => True).
Proof.
  intros Hcl. revert ret_val.
  induction fuel as [|fuel IH]; intros ret_val Hr; simpl.
  - apply frame_raise.
  - destruct (String.eqb ret_val ROOT_TAXONOMY_ID); [by apply frame_ret|].
    eapply frame_bind; [by apply frame_nodes_any|]. intros rank _. simpl.
    case_bool_decide; [by apply frame_ret|].
    eapply frame_bind; [by apply frame_nodes_parent|]. intros p Hp. simpl.
    eapply frame_bind; [by apply frame_nodes_any|]. intros lca_rank _. simpl.
    by apply IH.
Qed.

Lemma frame_get_lca2 t RANKS fuel ids :
  tax_closed t -> tax_frame t (get_lca2 RANKS fuel ids) (fun _ => True).
Proof.
  intros Hcl. unfold get_lca2.
  assert (Hgen : tax_frame t
            (let* taxonomic_levels := levels_loop2 fuel ids ∅ in
             if (size taxonomic_levels =? 0)%nat then tax_ret UNKNOWN_TAXONOMY_ID
             else
               let* ret_val :=
                 set_pop (last_good (drop 1 RANKS) taxonomic_levels [ROOT_TAXONOMY_ID]) in
               let* lca_rank := nodes_get ret_val "rank" in
               ranked_ancestor RANKS fuel ret_val) (fun _ => True)).
  { eapply frame_bind.
    - apply frame_levels_loop2; [done|]. intros rank s x Hs. by rewrite lookup_empty in Hs.
    - intros levels Hl. simpl. destruct (_ =? _)%nat; [by apply frame_ret|].
      eapply frame_bind; [apply frame_set_pop|]. intros r Hr. simpl.
      assert (r ∈ dom (nodes t)) as Hrn.
      { eapply last_good_known; [exact Hl| |exact Hr].
        intros x Hx. apply list_elem_of_singleton in Hx as ->.
        by destruct Hcl as (_ & _ & ? & _). }
      eapply frame_bind; [by apply frame_nodes_any|]. intros lca_rank _. simpl.
      by apply frame_ranked_ancestor. }
  destruct ids as [|id [|id' ids]]; try exact Hgen.
  destruct (String.eqb id ""); by apply frame_ret.
Qed.

Lemma frame_upper_level_loop t RANKS fuel current_id :
  tax_closed t -> current_id ∈ dom (nodes t) ->
  tax_frame t (upper_level_loop RANKS fuel current_id) (fun _ => True).
Proof.
  intros Hcl. pose proof Hcl as (_ & _ & Hroot & _). revert current_id.
  induction fuel as [|fuel IH]; intros current_id Hc; simpl.
  - apply frame_raise.
  - destruct (String.eqb current_id "1").
    + eapply frame_bind; [by apply frame_nodes_any|]. intros r _. by apply frame_ret.
    + eapply frame_bind; [by apply frame_nodes_parent|]. intros p Hp. simpl.
      eapply frame_bind; [by apply frame_nodes_any|]. intros rank _. simpl.
      case_bool_decide; [by apply frame_ret|]. by apply IH.
Qed.

Lemma frame_get_upper_level_taxon t RANKS fuel taxonomy_id :
  tax_closed t -> tax_frame t (get_upper_level_taxon RANKS fuel taxonomy_id) (fun _ => True).
Proof.
  intros Hcl. pose proof Hcl as (Hdom & Hunk & Hroot & _). unfold get_upper_level_taxon.
  eapply frame_bind; [apply frame_names_in|]. intros known Hk. simpl.
  destruct known; simpl.
  - assert (taxonomy_id ∈ dom (nodes t)) as Hn by (rewrite <- Hdom; auto).
    eapply frame_bind; [by apply frame_nodes_parent|]. intros p Hp. simpl.
    eapply frame_bind; [by apply frame_nodes_any|]. intros rank _. simpl.
    destruct (String.eqb p UNKNOWN_TAXONOMY_ID).
    { eapply frame_bind; [by apply frame_nodes_any|]. intros r _. by apply frame_ret. }
    destruct (String.eqb taxonomy_id ROOT_TAXONOMY_ID).
    { eapply frame_bind; [by apply frame_nodes_any|]. intros r _. by apply frame_ret. }
    case_bool_decide; [by apply frame_ret|]. by apply frame_upper_level_loop.
  - eapply frame_bind; [by apply frame_nodes_any|]. intros r _. by apply frame_ret.
Qed.

Lemma frame_get_taxonomy_rank t taxonomy_id :
  tax_frame t (get_taxonomy_rank taxonomy_id) (fun _ => True).
Proof.
  unfold get_taxonomy_rank.
  eapply frame_bind; [apply frame_nodes_in|]. intros present Hp. simpl.
  destruct present; [|by apply frame_ret]. apply frame_nodes_any. auto.
Qed.

Lemma frame_lineage_names_loop t RANKS fuel parent_id lineage :
  tax_closed t -> parent_id ∈ dom (nodes t) ->
  tax_frame t (lineage_names_loop RANKS fuel parent_id lineage) (fun _ => True).
Proof.
  intros Hcl. pose proof Hcl as (Hdom & Hunk & _ & _). revert parent_id lineage.
  induction fuel as [|fuel IH]; intros parent_id lineage Hp; simpl.
  - apply frame_raise.
  - eapply frame_bind; [by apply frame_nodes_parent|]. intros p Hpn. simpl.
    destruct (String.eqb p "1"); [by apply frame_ret|].
    eapply frame_bind; [by apply frame_nodes_any|]. intros rank _. simpl.
    eapply frame_bind with (P := fun _ => True).
    { case_bool_decide; [|by apply frame_ret].
      eapply frame_bind; [apply frame_names_get; by rewrite Hdom|].
      intros n _. by apply frame_ret. }
    intros lineage' _. simpl.
    eapply frame_bind; [by apply frame_nodes_parent|]. intros p1 Hp1. simpl.
    eapply frame_bind; [apply frame_names_in|]. intros known _. simpl.
    eapply frame_bind with (P := fun p' => p' ∈ dom (nodes t)).
    + destruct known; [by apply frame_nodes_parent|]. by apply frame_ret.
    + intros p' Hp'. by apply IH.
Qed.

Lemma frame_get_lineage_string t RANKS fuel taxonomy_id :
  tax_closed t -> tax_frame t (get_lineage_string RANKS fuel taxonomy_id) (fun _ => True).
Proof.
  intros Hcl. pose proof Hcl as (Hdom & _). unfold get_lineage_string.
  eapply frame_bind; [apply frame_nodes_in|]. intros present Hp. simpl.
  destruct present; simpl; [|by apply frame_ret].
  eapply frame_bind; [apply frame_names_get; rewrite Hdom; auto|]. intros n _. simpl.
  eapply frame_bind; [apply frame_nodes_parent; auto|]. intros p Hpn. simpl.
  eapply frame_bind; [by apply frame_lineage_names_loop|]. intros l _. by apply frame_ret.
Qed.

Lemma frame_get_taxonomy_lineage t RANKS fuel taxonomy_id :
  tax_closed t -> tax_frame t (get_taxonomy_lineage RANKS fuel taxonomy_id) (fun _ => True).
Proof. apply frame_get_lineage_string. Qed.

(** C9 (amended). On closed tables (the two tables have the same ids, the
    root and the unknown id among them, and every recorded parent is an id of
    the tables) no query changes the tables: whatever the arguments, and
    whether the query returns, raises or is cut by the fuel, [names] and
    [nodes] are the same before and after [get_lca], [get_lca2],
    [get_upper_level_taxon], [get_taxonomy_rank], [get_lineage_string] and
    [get_taxonomy_lineage]. *)
Theorem queries_leave_closed_tables (t : TaxonomyData) (RANKS : list string)
    (fuel : nat) (taxonomy_id_list : list string) (taxonomy_id : string) :
  tax_closed t ->
  (get_lca fuel taxonomy_id_list t).2 = t /\
  (get_lca2 RANKS fuel taxonomy_id_list t).2 = t /\
  (get_upper_level_taxon RANKS fuel taxonomy_id t).2 = t /\
  (get_taxonomy_rank taxonomy_id t).2 = t /\
  (get_lineage_string RANKS fuel taxonomy_id t).2 = t /\
  (get_taxonomy_lineage RANKS fuel taxonomy_id t).2 = t.
Proof.
  intros Hcl. repeat split.
  - by apply frame_get_lca.
  - by apply frame_get_lca2.
  - by apply frame_get_upper_level_taxon.
  - by apply frame_get_taxonomy_rank.
  - by apply frame_get_lineage_string.
  - by apply frame_get_taxonomy_lineage.
Qed.

Lemma tax_closed_b_correct (t : TaxonomyData) : tax_closed_b t = true -> tax_closed t.
Proof.
  unfold tax_closed_b, tax_closed. rewrite !andb_true_iff, !bool_decide_eq_true.
  intros [[[? ?] ?] Hall]. repeat split; try done.
  intros k d Hkd. simpl.
  rewrite forallb_forall in Hall.
  specialize (Hall (k, d)). simpl in Hall.
  destruct (d !! "parent") as [p|]; [|done].
  apply (bool_decide_unpack _). apply Is_true_true, Hall, list_elem_of_In.
  by apply elem_of_map_to_list.
Qed.

Lemma sample_tree_closed : tax_closed sample_tree.
Proof. apply tax_closed_b_correct. vm_compute. reflexivity. Qed.

Lemma queries_leave_closed_tables_witness :
  (get_lca 10 ["C"; "E"] sample_tree).2 = sample_tree /\
  (get_lca2 sample_ranks 10 ["C"; "E"] sample_tree).2 = sample_tree /\
  (get_upper_level_taxon sample_ranks 10 "C" sample_tree).2 = sample_tree /\
  (get_taxonomy_rank "C" sample_tree).2 = sample_tree /\
  (get_lineage_string sample_ranks 10 "C" sample_tree).2 = sample_tree /\
  (get_taxonomy_lineage sample_ranks 10 "C" sample_tree).2 = sample_tree.
Proof.
  apply (queries_leave_closed_tables sample_tree sample_ranks 10 ["C"; "E"] "C").
  apply tax_closed_b_correct. vm_compute. reflexivity.
Defined.

(** C9 (counterexample). [load_taxdata] completes on a nodes file whose line
    for [C] names a parent [B] that has no line; on the tables it leaves,
    [get_lca(['C', 'D'])] evaluates [self.nodes['B']], which creates the
    entry ['B'] in [nodes] before [KeyError] is raised. *)
Lemma get_lca_creates_node :
  (load_taxdata [sample_name "C"] [mkNodeRow "C" "B" "species"] []).1 = Ok tt /\
  nodes orphan_tree !! "B" = None /\
  (get_lca 10 ["C"; "D"] orphan_tree).1 = Raise KeyError /\
  nodes (get_lca 10 ["C"; "D"] orphan_tree).2 !! "B" = Some ∅ /\
  (get_lca 10 ["C"; "D"] orphan_tree).2 <> orphan_tree.
Proof.
  assert (nodes orphan_tree !! "B" = None) as Hbefore by (vm_compute; reflexivity).
  assert (nodes (get_lca 10 ["C"; "D"] orphan_tree).2 !! "B" = Some ∅) as Hafter
    by (vm_compute; reflexivity).
  split; [vm_compute; reflexivity|]. split; [done|].
  split; [vm_compute; reflexivity|]. split; [done|].
  intros Heq. rewrite Heq in Hafter. congruence.
Qed.

(* --------------------------------------------------------------------- *)
(** ** get_lca on lineages *)
(* --------------------------------------------------------------------- *)

Lemma tax_bind_ok {A B} (m : Tax A) (k : A -> Tax B) t a t' :
  m t = (Ok a, t') -> tax_bind m k t = k a t'.
Proof. intros H. unfold tax_bind. by rewrite H. Qed.

Lemma parent_of_dom t k p : parent_of t k = Some p -> k ∈ dom (nodes t).
Proof.
  unfold parent_of. intros H. apply elem_of_dom.
  destruct (nodes t !! k); [done|discriminate].
Qed.

Lemma nodes_get_parent t k p :
  parent_of t k = Some p -> nodes_get k "parent" t = (Ok p, t).
Proof.
  unfold parent_of, nodes_get, nodes_item, tax_bind, dict_get. intros H.
  destruct (nodes t !! k) as [d|]; [|discriminate]. simpl in H. by rewrite H.
Qed.

Lemma nodes_in_true t k : k ∈ dom (nodes t) -> nodes_in k t = (Ok true, t).
Proof.
  intros H%elem_of_dom. unfold nodes_in. by rewrite bool_decide_eq_true_2.
Qed.

Lemma names_in_true t k : k ∈ dom (names t) -> names_in k t = (Ok true, t).
Proof.
  intros H%elem_of_dom. unfold names_in. by rewrite bool_decide_eq_true_2.
Qed.

Lemma chain_app t prev l1 l2 :
  chain t prev (l1 ++ l2) <-> chain t prev l1 /\ chain t (default prev (last l1)) l2.
Proof.
  revert prev. induction l1 as [|x l1 IH]; intros prev; simpl.
  - tauto.
  - rewrite IH. destruct l1 as [|y l1]; simpl; [tauto|].
    assert (is_Some (last (y :: l1))) as [z Hz] by (by apply last_is_Some).
    rewrite Hz. simpl. tauto.
Qed.

(** The loop of [get_lca] rebuilds the path above the parent it starts
    from. *)
Lemma lineage_loop_chain t pre :
  tax_closed t ->
  forall a suf depth fuel,
    chain t ROOT_TAXONOMY_ID (pre ++ [a]) ->
    (length pre < fuel)%nat ->
    lineage_loop fuel a (a :: suf) depth t
    = (Ok (pre ++ a :: suf, (depth + length pre)%nat), t).
Proof.
  intros Hcl. induction pre as [|b pre IH] using rev_ind;
    intros a suf depth fuel Hch Hfuel.
  - destruct fuel as [|fuel]; [simpl in Hfuel; lia|]. simpl in Hch.
    destruct Hch as (Hp & _ & _). simpl.
    rewrite (tax_bind_ok _ _ _ _ _ (nodes_get_parent _ _ _ Hp)). simpl.
    by rewrite Nat.add_0_r.
  - destruct fuel as [|fuel]; [simpl in Hfuel; lia|].
    rewrite length_app in Hfuel. simpl in Hfuel.
    apply chain_app in Hch as [Hpre Ha]. rewrite last_snoc in Ha. simpl in Ha.
    destruct Ha as (Hp & _ & _).
    pose proof Hpre as Hb. apply chain_app in Hb as [_ Hb]. simpl in Hb.
    destruct Hb as (Hbp & Hbroot & _).
    assert (b ∈ dom (names t)) as Hbn.
    { destruct Hcl as (-> & _). by eapply parent_of_dom. }
    simpl.
    rewrite (tax_bind_ok _ _ _ _ _ (nodes_get_parent _ _ _ Hp)).
    destruct (String.eqb_spec b ROOT_TAXONOMY_ID) as [|_]; [done|].
    rewrite (tax_bind_ok _ _ _ _ _ (nodes_get_parent _ _ _ Hp)).
    rewrite (tax_bind_ok _ _ _ _ _ (names_in_true _ _ Hbn)).
    rewrite (tax_bind_ok _ _ _ _ _ (nodes_get_parent _ _ _ Hp)).
    rewrite (IH b (a :: suf) (S depth) fuel Hpre) by lia.
    rewrite <- app_assoc, length_app. simpl.
    by replace (depth + (length pre + 1))%nat with (S (depth + length pre)) by lia.
Qed.

Lemma min_ltb (d m : nat) : (if (d <? m)%nat then d else m) = Nat.min d m.
Proof. destruct (Nat.ltb_spec d m); lia. Qed.

(** The first loop of [get_lca] on ids that have a lineage of two ids or
    more. *)
Lemma lineages_loop_chain t fuel (idl : list (string * list string)) M md :
  tax_closed t ->
  Forall (fun p => lineage_of t p.1 p.2 /\ (2 <= length p.2 <= fuel)%nat) idl ->
  lineages_loop fuel idl.*1 M md t
  = (Ok (foldl (fun M p => <[p.1 := p.2]> M) M idl,
         foldl (fun m p => Nat.min (length p.2 - 1) m) md idl), t).
Proof.
  intros Hcl Hall. revert M md.
  induction Hall as [|[id L] idl ([Hch Hlast] & Hlen) _ IH]; intros M md; [done|].
  simpl in *.
  destruct L as [|x L] using rev_ind; [simpl in Hlen; lia|]. clear IHL.
  rewrite last_snoc in Hlast. injection Hlast as ->.
  destruct L as [|a pre] using rev_ind; [simpl in Hlen; lia|]. clear IHpre.
  rewrite !length_app in Hlen. simpl in Hlen.
  pose proof Hch as Hid. apply chain_app in Hid as [Hpre Hid].
  rewrite last_snoc in Hid. simpl in Hid. destruct Hid as (Hp & _ & _).
  rewrite (tax_bind_ok _ _ _ _ _ (nodes_in_true _ _ (parent_of_dom _ _ _ Hp))).
  rewrite (tax_bind_ok _ _ _ _ _ (nodes_get_parent _ _ _ Hp)).
  rewrite (tax_bind_ok _ _ _ _ _ (lineage_loop_chain t pre Hcl a [id] 1 fuel Hpre
                                    ltac:(lia))).
  rewrite min_ltb, IH. cbn [foldl fst snd].
  assert ((pre ++ [a]) ++ [id] = pre ++ [a; id]) as -> by (by rewrite <- app_assoc).
  replace (length (pre ++ [a; id]) - 1)%nat with (1 + length pre)%nat; [done|].
  rewrite length_app. simpl. lia.
Qed.

Lemma fold_insert_notin (idl : list (string * list string))
    (M : gmap string (list string)) id :
  id ∉ idl.*1 ->
  foldl (fun M p => <[p.1 := p.2]> M) M idl !! id = M !! id.
Proof.
  revert M. induction idl as [|[id' L'] idl IH]; intros M Hid; simpl; [done|].
  rewrite fmap_cons in Hid. apply not_elem_of_cons in Hid as [Hne Hid].
  rewrite IH by done. simpl. by rewrite lookup_insert_ne.
Qed.

Lemma fold_insert_in (idl : list (string * list string))
    (M : gmap string (list string)) id L :
  NoDup idl.*1 -> (id, L) ∈ idl ->
  foldl (fun M p => <[p.1 := p.2]> M) M idl !! id = Some L.
Proof.
  revert M. induction idl as [|[id' L'] idl IH]; intros M Hnd Hin; simpl.
  - by apply elem_of_nil in Hin.
  - rewrite fmap_cons in Hnd. apply NoDup_cons in Hnd as [Hnotin Hnd].
    apply elem_of_cons in Hin as [Heq|Hin].
    + inversion Heq; subst. rewrite fold_insert_notin by done. simpl.
      by rewrite lookup_insert_eq.
    + by apply IH.
Qed.

Lemma fold_min_le (idl : list (string * list string)) md :
  (foldl (fun m p => Nat.min (length p.2 - 1) m) md idl <= md)%nat /\
  forall p, p ∈ idl ->
    (foldl (fun m p => Nat.min (length p.2 - 1) m) md idl <= length p.2 - 1)%nat.
Proof.
  revert md. induction idl as [|q idl IH]; intros md; simpl.
  - split; [done|]. intros p Hp. by apply elem_of_nil in Hp.
  - destruct (IH (Nat.min (length q.2 - 1) md)) as [H1 H2]. split; [lia|].
    intros p Hp. apply elem_of_cons in Hp as [->|Hp]; [lia|by apply H2].
Qed.

Lemma fold_min_ge (idl : list (string * list string)) md m :
  Forall (fun p => (m < length p.2)%nat) idl -> (m <= md)%nat ->
  (m <= foldl (fun m p => Nat.min (length p.2 - 1) m) md idl)%nat.
Proof.
  intros Hall. revert md. induction Hall as [|q idl Hq _ IH]; intros md Hmd; simpl.
  - done.
  - apply IH. lia.
Qed.

Lemma fold_min_eq (idl : list (string * list string)) md m :
  Forall (fun p => (m < length p.2)%nat) idl ->
  Exists (fun p => length p.2 = S m) idl ->
  (m <= md)%nat ->
  foldl (fun m p => Nat.min (length p.2 - 1) m) md idl = m.
Proof.
  intros Hall Hex Hmd. apply Nat.le_antisymm; [|by apply fold_min_ge].
  apply Exists_exists in Hex as (p & Hp & Hlen).
  destruct (fold_min_le idl md) as [_ H]. specialize (H p Hp). lia.
Qed.

Lemma level_ids_chain t (M : gmap string (list string)) i
    (idl : list (string * list string)) acc :
  Forall (fun p => p.1 ∈ dom (nodes t) /\ M !! p.1 = Some p.2 /\ (i < length p.2)%nat)
    idl ->
  level_ids M i idl.*1 acc t
  = (Ok (foldl (fun s p => set_add (default "" (p.2 !! i)) s) acc idl), t).
Proof.
  intros Hall. revert acc.
  induction Hall as [|[id L] idl (Hdom & HM & Hlen) _ IH]; intros acc; [done|].
  simpl in *. rewrite (tax_bind_ok _ _ _ _ _ (nodes_in_true _ _ Hdom)). rewrite HM.
  destruct (lookup_lt_is_Some_2 L i Hlen) as [x Hx]. rewrite Hx. simpl. apply IH.
Qed.

Lemma set_add_elem_of x y s : y ∈ set_add x s <-> y = x \/ y ∈ s.
Proof.
  unfold set_add. case_bool_decide.
  - split; [by right|]. by intros [->|?].
  - rewrite elem_of_app, list_elem_of_singleton. tauto.
Qed.

Lemma fold_set_add_elem_of {A} (f : A -> string) (l : list A) acc y :
  y ∈ foldl (fun s p => set_add (f p) s) acc l <-> y ∈ acc \/ exists p, p ∈ l /\ y = f p.
Proof.
  revert acc. induction l as [|q l IH]; intros acc; simpl.
  - split; [by left|]. intros [?|(p & Hp & _)]; [done|]. by apply elem_of_nil in Hp.
  - rewrite IH, set_add_elem_of. split.
    + intros [[->|?]|(p & Hp & ->)]; [right|by left|right].
      * exists q. split; [by left|done].
      * exists p. split; [by right|done].
    + intros [?|(p & Hp & ->)]; [left; by right|].
      apply elem_of_cons in Hp as [->|Hp]; [left; by left|].
      right. by exists p.
Qed.

Lemma fold_set_add_same {A} (f : A -> string) (l : list A) x :
  Forall (fun p => f p = x) l ->
  foldl (fun s p => set_add (f p) s) [x] l = [x].
Proof.
  induction 1 as [|q l Hq _ IH]; simpl; [done|].
  rewrite Hq. unfold set_add at 2. rewrite bool_decide_eq_true_2 by (by left). done.
Qed.

Lemma level_set_agree (idl : list (string * list string)) i x :
  idl <> [] ->
  Forall (fun L => L !! i = Some x) idl.*2 ->
  level_set idl i = [x].
Proof.
  intros Hne Hall. rewrite Forall_fmap in Hall. unfold level_set.
  destruct Hall as [|q idl Hq Hall]; [done|]. simpl in *.
  rewrite Hq. simpl. unfold set_add at 2. simpl.
  apply (fold_set_add_same (fun p : string * list string => default "" (p.2 !! i))).
  eapply Forall_impl; [exact Hall|]. simpl. by intros p ->.
Qed.

Lemma level_set_short (idl : list (string * list string)) i :
  idl <> [] ->
  Forall (fun p => (i < length p.2)%nat) idl ->
  (length (level_set idl i) <= 1)%nat ->
  agree idl.*2 i.
Proof.
  intros Hne Hlen Hshort.
  assert (Hin : forall p, p ∈ idl -> default "" (p.2 !! i) ∈ level_set idl i).
  { intros p Hp. apply fold_set_add_elem_of. right. by exists p. }
  destruct idl as [|q idl]; [done|].
  exists (default "" (q.2 !! i)). rewrite Forall_fmap.
  apply Forall_forall. intros p Hp. simpl.
  pose proof (Hin q ltac:(by left)) as Hq. pose proof (Hin p Hp) as Hp'.
  rewrite Forall_forall in Hlen. specialize (Hlen p Hp).
  destruct (lookup_lt_is_Some_2 p.2 i Hlen) as [y Hy]. rewrite Hy in *. simpl in *.
  destruct (level_set (q :: idl) i) as [|z [|z' s]]; simpl in Hshort; [|..|lia].
  - by apply elem_of_nil in Hq.
  - apply list_elem_of_singleton in Hq, Hp'. congruence.
Qed.

Section levels_walk.
Variables (t : TaxonomyData) (M : gmap string (list string))
          (idl : list (string * list string)) (m : nat).
Hypothesis Hidl : idl <> [].
Hypothesis Hknown :
  Forall (fun p => p.1 ∈ dom (nodes t) /\ M !! p.1 = Some p.2 /\ (m < length p.2)%nat) idl.

Lemma level_ids_level_set i :
  (i <= m)%nat -> level_ids M i idl.*1 [] t = (Ok (level_set idl i), t).
Proof.
  intros Hi. apply level_ids_chain.
  eapply Forall_impl; [exact Hknown|]. simpl. intros p (? & ? & ?).
  repeat split; [done..|lia].
Qed.

(** The walk over the depths [i, i+1, ..., m], when the lineages agree at
    every depth below [i] and [upper] holds the id of depth [i - 1] (the
    unknown id when [i = 0]). *)
Lemma levels_walk k : forall i upper,
  (i + k = S m)%nat ->
  (forall j, (j < i)%nat -> agree idl.*2 j) ->
  (i = 0%nat -> upper = [UNKNOWN_TAXONOMY_ID]) ->
  ((0 < i)%nat ->
   exists x, upper = [x] /\ Forall (fun L => L !! (i - 1)%nat = Some x) idl.*2) ->
  exists r, levels_loop M idl.*1 (seq i k) upper t = (Ok r, t) /\
            lca_answer idl.*2 m r.
Proof.
  induction k as [|k IH]; intros i upper Hik Hbelow Hzero Hpos.
  - destruct Hpos as (x & -> & Hx); [lia|]. exists x. split; [done|].
    right. split.
    + intros j Hj. apply Hbelow. lia.
    + by replace m with (i - 1)%nat by lia.
  - simpl. rewrite (tax_bind_ok _ _ _ _ _ (level_ids_level_set i ltac:(lia))).
    destruct (Nat.ltb_spec 1 (length (level_set idl i))) as [Hlong|Hshort].
    + assert (~ agree idl.*2 i) as Hdis.
      { intros [x Hx]. rewrite (level_set_agree idl i x Hidl Hx) in Hlong.
        simpl in Hlong. lia. }
      destruct (decide (i = 0%nat)) as [->|Hi].
      * rewrite Hzero by done. exists UNKNOWN_TAXONOMY_ID. split; [done|].
        left. exists 0%nat. repeat split; [lia|done..|lia].
      * destruct Hpos as (x & -> & Hx); [lia|]. exists x. split; [done|].
        left. exists i. repeat split; [lia|done..|lia|done].
    + assert (agree idl.*2 i) as [x Hx].
      { apply level_set_short; [done| |done].
        eapply Forall_impl; [exact Hknown|]. simpl. intros p (_ & _ & ?). lia. }
      rewrite (level_set_agree idl i x Hidl Hx).
      apply IH; [lia| |lia|].
      * intros j Hj. destruct (decide (j = i)) as [->|]; [by exists x|].
        apply Hbelow. lia.
      * intros _. exists x. split; [done|]. by replace (S i - 1)%nat with i by lia.
Qed.
End levels_walk.

(** C5 (amended). On closed tables, for two or more distinct ids that are
    neither the root nor children of the root, [get_lca] returns, leaves the
    tables as they are, and its answer is read off the root-exclusive
    lineages of the ids (from a child of the root down to the id): when the
    lineages differ first at a depth [d] not beyond the last depth of the
    shortest one, the answer is the unknown id if [d = 0] and the id the
    lineages share at depth [d - 1] otherwise; when they agree up to the end
    of the shortest lineage, the answer is its last id. In the tree
    root -> A -> B -> C, root -> A -> D -> E the answer for C and E is A. *)
Theorem get_lca_walk :
  (forall (t : TaxonomyData) (idl : list (string * list string)) (fuel m : nat),
      tax_closed t ->
      (2 <= length idl)%nat ->
      NoDup idl.*1 ->
      Forall (fun p => lineage_of t p.1 p.2 /\ (2 <= length p.2 <= fuel)%nat) idl ->
      Forall (fun p => (m < length p.2)%nat) idl ->
      Exists (fun p => length p.2 = S m) idl ->
      (m <= 1000)%nat ->
      exists r, get_lca fuel idl.*1 t = (Ok r, t) /\ lca_answer idl.*2 m r) /\
  get_lca 10 ["C"; "E"] sample_tree = (Ok "A", sample_tree).
Proof.
  split; [|by vm_compute].
  intros t idl fuel m Hcl Hlen Hnd Hlin Hm Hex Hm1000.
  assert (get_lca fuel idl.*1 t
          = (let* r := lineages_loop fuel idl.*1 ∅ 1000 in
             let '(taxonomic_lineages, min_depth) := r in
             levels_loop taxonomic_lineages idl.*1 (seq 0 (S min_depth))
               [UNKNOWN_TAXONOMY_ID]) t) as ->.
  { destruct idl as [|p1 [|p2 idl]]; simpl in Hlen; [lia|lia|done]. }
  rewrite (tax_bind_ok _ _ _ _ _ (lineages_loop_chain t fuel idl ∅ 1000 Hcl Hlin)).
  rewrite (fold_min_eq idl 1000 m Hm Hex Hm1000).
  assert (idl <> []) as Hne by (destruct idl; [simpl in Hlen; lia|done]).
  apply (levels_walk t _ idl m Hne); [|lia|intros j Hj; lia|done|intros Hj; lia].
  apply Forall_forall. intros [id L] Hp. simpl.
  rewrite Forall_forall in Hlin, Hm.
  destruct (Hlin _ Hp) as ([Hch Hlast] & Hl2 & _). specialize (Hm _ Hp). simpl in *.
  repeat split; [|by apply fold_insert_in|done].
  apply last_Some in Hlast as [L' ->].
  apply chain_app in Hch as [_ Hch].
  destruct (last L') as [a|] eqn:E; simpl in Hch.
  - destruct Hch as (Hpar & _). by eapply parent_of_dom.
  - destruct Hch as (Hpar & _). by eapply parent_of_dom.
Qed.

Lemma get_lca_walk_witness :
  exists r, get_lca 10 ["C"; "E"] sample_tree = (Ok r, sample_tree) /\
            lca_answer [["A"; "B"; "C"]; ["A"; "D"; "E"]] 2 r.
Proof.
  apply (proj1 get_lca_walk sample_tree
           [("C", ["A"; "B"; "C"]); ("E", ["A"; "D"; "E"])] 10%nat 2%nat).
  - apply tax_closed_b_correct. vm_compute. reflexivity.
  - simpl. lia.
  - apply (bool_decide_unpack _). vm_compute. exact I.
  - repeat constructor; simpl; try lia; try discriminate; vm_compute; reflexivity.
  - repeat constructor; simpl; lia.
  - left. reflexivity.
  - lia.
Defined.

(** C5 (counterexample). In the sample tree, A is a child of the root and an
    ancestor of C: the root-exclusive lineages of A and C are [A] and
    [A; B; C], they agree up to the end of the shortest one, and the claim
    gives A; [get_lca] builds [1; A] for A and answers the unknown id. B and
    Y are in two branches of the root: the lineages [A; B] and [X; Y] differ
    at depth 0, where there is no previous depth, and [get_lca] answers the
    unknown id. *)
Lemma get_lca_not_claimed :
  (root_exclusive_lineage sample_tree 10 "A" [] = ["A"] /\
   root_exclusive_lineage sample_tree 10 "C" [] = ["A"; "B"; "C"] /\
   claimed_lca [["A"]; ["A"; "B"; "C"]] = Some "A" /\
   (get_lca 10 ["A"; "C"] sample_tree).1 = Ok "0" /\
   (get_lca 10 ["A"; "C"] sample_tree).1 <> Ok "A") /\
  (root_exclusive_lineage sample_tree 10 "B" [] = ["A"; "B"] /\
   root_exclusive_lineage sample_tree 10 "Y" [] = ["X"; "Y"] /\
   claimed_lca [["A"; "B"]; ["X"; "Y"]] = None /\
   (get_lca 10 ["B"; "Y"] sample_tree).1 = Ok "0").
Proof. repeat split; try (vm_compute; reflexivity). vm_compute. discriminate. Qed.

(* --------------------------------------------------------------------- *)
(** ** The models on sample inputs *)
(* --------------------------------------------------------------------- *)

(** A single id is its own answer, whatever the tables. *)
Lemma get_lca_singleton (t : TaxonomyData) (fuel : nat) (x : string) :
  get_lca fuel [x] t = (Ok (if String.eqb x "" then UNKNOWN_TAXONOMY_ID else x), t).
Proof. unfold get_lca. by destruct (String.eqb x ""). Qed.

Example get_lca_twice_the_same :
  get_lca 10 ["C"; "C"] sample_tree = (Ok "C", sample_tree).
Proof. by vm_compute. Qed.

Example get_lca_ancestor_and_descendant :
  get_lca 10 ["B"; "C"] sample_tree = (Ok "B", sample_tree).
Proof. by vm_compute. Qed.

Example get_lca_skips_missing_id :
  get_lca 10 ["C"; "nowhere"] sample_tree = (Ok "C", sample_tree).
Proof. by vm_compute. Qed.

(** Two hits on the same interval: overlap resolution keeps the one with the
    higher bitscore, and annotation gives it the function of its subject. *)
Example filter_list_scenario :
  hits (annotate_hits sample_ref_data
          (filter_list (1 # 2)
             (mkDiamondHitList "Q1" [sample_hit "S2" 40 []; sample_hit "S1" 50 []])))
  = [sample_hit "S1" 50 ["F1"]].
Proof. by vm_compute. Qed.

Example parse_fastq_seqid_formats :
  parse_fastq_seqid "@r1 1:N:0" = Ok ("r1", "1") /\
  parse_fastq_seqid "SRR1.2 a b" = Ok ("SRR1", "2") /\
  parse_fastq_seqid "r9/2" = Ok ("r9", "2") /\
  parse_fastq_seqid "r9" = Ok ("r9", "").
Proof. repeat split; by vm_compute. Qed.

(** A call that goes through: the read gets the status ["function"], the
    best hit of each function, and the taxon that the taxonomy answers. *)
Example compare_hits_lca_function :
  let '(read', _, e) :=
    compare_hits_lca (sample_read (sample_hit "S1" 50 ["F1"])) 1 100
      (mkDiamondHitList "P1|1|100" [sample_hit "S1" 50 ["F1"]; sample_hit "S2" 49 ["F1"]])
      (3 # 100) 0 sample_lca sample_ref_data None in
  e = None /\ status read' = "function" /\
  hits (hit_list read') = [set_query_id "P1" (sample_hit "S1" 50 ["F1"])] /\
  read_functions read' !! "F1" = Some 1%Q /\
  taxonomy read' = Some "0".
Proof. by vm_compute. Qed.

(** The background pass on one group: the read of the composite query is
    compared with the hits of the group at the end of the file. *)
Example parse_background_output_one_group :
  let '(reads', e) :=
    parse_background_output sample_config sample_ref_data sample_lca ∅
      {["P1" := sample_read (sample_hit "S1" 50 ["F1"])]}
      [sample_row "P1|1|100" "S1" 50] in
  e = None /\ status <$> reads' !! "P1" = Some "function".
Proof. by vm_compute. Qed.

(* --------------------------------------------------------------------- *)
(** ** Further properties of compare_hits_lca *)
(* --------------------------------------------------------------------- *)

(** X1. When no hit of the read has the coordinates [(hit_start, hit_end)],
    [compare_hits_lca] does nothing: the read and the hits of the new list
    are left as they are and nothing is raised. *)
Theorem compare_hits_lca_no_anchor read hs he new_hits c avg lca ref_data cov_data :
  Forall (fun h => ~ on_interval hs he h) (hits (hit_list read)) ->
  compare_hits_lca read hs he new_hits c avg lca ref_data cov_data
  = (read, hits new_hits, None).
Proof.
  intros Hnone. unfold compare_hits_lca.
  rewrite <- (app_nil_r (hits (hit_list read))).
  by rewrite compare_loop_skip.
Qed.

Lemma compare_hits_lca_no_anchor_witness :
  compare_hits_lca (sample_read (sample_hit "S1" 50 ["F1"])) 5 100
    (mkDiamondHitList "P1|5|100" [sample_hit "S2" 60 ["F1"]]) (3 # 100) 0
    sample_lca sample_ref_data None
  = (sample_read (sample_hit "S1" 50 ["F1"]), [sample_hit "S2" 60 ["F1"]], None).
Proof.
  apply (compare_hits_lca_no_anchor (sample_read (sample_hit "S1" 50 ["F1"])) 5 100
           (mkDiamondHitList "P1|5|100" [sample_hit "S2" 60 ["F1"]])).
  constructor; [|constructor]. intros [H _]. vm_compute in H. discriminate H.
Defined.

(** X2. The best hit of the new list: there is none exactly when no hit has
    a positive bitscore; when there is one, it is a hit of the list, its
    bitscore is positive, it is the best bitscore recorded, and no hit of the
    list has a higher bitscore. *)
Theorem find_best_hit_characterised (l : list DiamondHit) :
  ((find_best_hit l).1 = None <-> forall h, h ∈ l -> (bitscore h <= 0)%Q) /\
  (forall bh, (find_best_hit l).1 = Some bh ->
     bh ∈ l /\ (find_best_hit l).2 = bitscore bh /\ (0 < bitscore bh)%Q /\
     forall h, h ∈ l -> (bitscore h <= bitscore bh)%Q).
Proof.
  destruct (find_best_hit l) as [[bh|] b] eqn:E; simpl.
  - apply find_best_hit_Some in E as (Hin & -> & Hpos & Hmax). split.
    + split; [done|]. intros Hall. specialize (Hall bh Hin). lra.
    + intros ? [= <-]. done.
  - apply find_best_hit_None in E as (-> & Hall). split; [done|]. by intros bh.
Qed.

Lemma find_best_hit_characterised_witness :
  sample_hit "S2" 60 ["F1"] ∈ [sample_hit "S1" 50 ["F1"]; sample_hit "S2" 60 ["F1"]] /\
  (find_best_hit [sample_hit "S1" 50 ["F1"]; sample_hit "S2" 60 ["F1"]]).2 = 60%Q.
Proof.
  pose proof (proj2 (find_best_hit_characterised
                       [sample_hit "S1" 50 ["F1"]; sample_hit "S2" 60 ["F1"]])
                (sample_hit "S2" 60 ["F1"]) eq_refl) as (H1 & H2 & _).
  split; [exact H1|exact H2].
Defined.

Lemma elem_of_function_hits (kept : list kept_hit) f k :
  (f, k) ∈ function_hits kept <-> k ∈ kept /\ f ∈ functions k.2.
Proof.
  unfold function_hits. split.
  - intros H. apply list_elem_of_In, in_concat in H as (l & Hl & Hin).
    apply list_elem_of_In, list_elem_of_fmap in Hl as (k' & -> & Hk').
    apply list_elem_of_In, list_elem_of_fmap in Hin as (f' & Heq & Hf').
    inversion Heq; subst. done.
  - intros [Hk Hf]. apply list_elem_of_In, in_concat.
    exists ((fun f => (f, k)) <$> functions k.2). split.
    + apply list_elem_of_In, list_elem_of_fmap. by exists k.
    + apply list_elem_of_In, list_elem_of_fmap. by exists f.
Qed.

(** The dictionary that [tally] builds is the fold of [dict_update] over the
    pairs (function id, hit). *)
Lemma tally_dict (kept : list kept_hit) :
  (tally kept).2
  = foldl (fun d (p : string * kept_hit) => dict_update p.1 p.2 d) [] (function_hits kept).
Proof.
  unfold tally, function_hits.
  change (@nil (string * best_entry))
    with (@nil (string * nat), @nil (string * best_entry)).2 at 2.
  generalize (@nil (string * nat), @nil (string * best_entry)).
  induction kept as [|h kept IH]; intros acc; simpl; [done|].
  rewrite foldl_app, IH. f_equal.
  generalize (functions h.2). intros fs. revert acc.
  induction fs as [|f fs IHf]; intros acc; simpl; [done|]. by rewrite IHf.
Qed.

Lemma dict_update_keys f h (d : list (string * best_entry)) :
  (dict_update f h d).*1 = if decide (f ∈ d.*1) then d.*1 else d.*1 ++ [f].
Proof.
  unfold dict_update. case_bool_decide as Hf.
  - rewrite decide_True by done. rewrite <- list_fmap_compose.
    apply list_fmap_ext. intros _ [k e] _. simpl.
    destruct (String.eqb k f); [|done]. by destruct (Qgtb _ _).
  - rewrite decide_False by done. by rewrite fmap_app.
Qed.

Lemma dict_update_ok P d f h :
  dict_ok P d -> dict_ok (P ++ [(f, h)]) (dict_update f h d).
Proof.
  intros (Hnd & Hent & Hkeys). split; [|split].
  - rewrite dict_update_keys. case_decide; [done|].
    apply NoDup_app. split; [done|]. split; [|apply NoDup_singleton].
    intros x Hx Hx'. apply list_elem_of_singleton in Hx'. by subst.
  - intros g e' Hin. unfold dict_update in Hin. case_bool_decide as Hf.
    + apply list_elem_of_fmap in Hin as ([g0 e0] & Heq & Hin0). simpl in Heq.
      destruct (Hent _ _ Hin0) as (HP & Hbs & Hmax).
      destruct (String.eqb_spec g0 f) as [->|Hne].
      * destruct (Qgtb (bitscore h.2) (bit_score e0)) eqn:Hgt; inversion Heq; subst; simpl.
        -- apply Qgtb_true in Hgt. split; [apply elem_of_app; right; by left|].
           split; [done|]. intros k Hk. apply elem_of_app in Hk as [Hk|Hk].
           ++ specialize (Hmax _ Hk). lra.
           ++ apply list_elem_of_singleton in Hk. inversion Hk; subst. lra.
        -- apply Qgtb_false in Hgt. split; [apply elem_of_app; by left|].
           split; [done|]. intros k Hk. apply elem_of_app in Hk as [Hk|Hk].
           ++ by apply Hmax.
           ++ apply list_elem_of_singleton in Hk. inversion Hk; subst. done.
      * inversion Heq; subst. split; [apply elem_of_app; by left|].
        split; [done|]. intros k Hk. apply elem_of_app in Hk as [Hk|Hk].
        -- by apply Hmax.
        -- apply list_elem_of_singleton in Hk. inversion Hk; subst. done.
    + apply elem_of_app in Hin as [Hin|Hin].
      * destruct (Hent _ _ Hin) as (HP & Hbs & Hmax).
        split; [apply elem_of_app; by left|]. split; [done|].
        intros k Hk. apply elem_of_app in Hk as [Hk|Hk]; [by apply Hmax|].
        apply list_elem_of_singleton in Hk. inversion Hk; subst.
        exfalso. apply Hf. apply list_elem_of_fmap. by exists (f, e').
      * apply list_elem_of_singleton in Hin. inversion Hin; subst. simpl.
        split; [apply elem_of_app; right; by left|]. split; [done|].
        intros k Hk. apply elem_of_app in Hk as [Hk|Hk].
        -- exfalso. apply Hf. by eapply Hkeys.
        -- apply list_elem_of_singleton in Hk. inversion Hk; subst. lra.
  - intros g k Hk. rewrite dict_update_keys. apply elem_of_app in Hk as [Hk|Hk].
    + case_decide; [by eapply Hkeys|]. apply elem_of_app. left. by eapply Hkeys.
    + apply list_elem_of_singleton in Hk. inversion Hk; subst.
      case_decide; [done|]. apply elem_of_app. right. by left.
Qed.

Lemma dict_fold_ok (l P : list (string * kept_hit)) d :
  dict_ok P d ->
  dict_ok (P ++ l) (foldl (fun d (p : string * kept_hit) => dict_update p.1 p.2 d) d l).
Proof.
  revert P d. induction l as [|[f h] l IH]; intros P d Hok; simpl.
  - by rewrite app_nil_r.
  - replace (P ++ (f, h) :: l) with ((P ++ [(f, h)]) ++ l) by (by rewrite <- app_assoc).
    apply IH. by apply dict_update_ok.
Qed.

(** X3. The per-function dictionary of [compare_hits_lca] holds one entry
    per function id met among the kept hits; the hit of the entry is a kept
    hit that carries the function, its bitscore is the recorded one, and no
    kept hit with that function has a higher bitscore. *)
Theorem tally_best_hit_per_function (kept : list kept_hit) :
  NoDup (tally kept).2.*1 /\
  (forall f e, (f, e) ∈ (tally kept).2 ->
     hit e ∈ kept /\ f ∈ functions (hit e).2 /\ bit_score e = bitscore (hit e).2 /\
     forall k, k ∈ kept -> f ∈ functions k.2 -> (bitscore k.2 <= bit_score e)%Q) /\
  (forall k f, k ∈ kept -> f ∈ functions k.2 -> f ∈ (tally kept).2.*1).
Proof.
  rewrite tally_dict.
  destruct (dict_fold_ok (function_hits kept) [] []) as (Hnd & Hent & Hkeys).
  { split; [constructor|]. split; intros ? ? H; by apply elem_of_nil in H. }
  simpl in *. split; [done|]. split.
  - intros f e Hin. destruct (Hent _ _ Hin) as (HP & Hbs & Hmax).
    apply elem_of_function_hits in HP as [Hk Hf]. repeat split; try done.
    intros k Hk' Hf'. apply Hmax. by apply elem_of_function_hits.
  - intros k f Hk Hf. apply (Hkeys f k). by apply elem_of_function_hits.
Qed.

Lemma tally_best_hit_per_function_witness :
  "F1" ∈ (tally [(NewHit 0, sample_hit "S1" 50 ["F1"]);
                 (NewHit 1, sample_hit "S2" 60 ["F1"; "F2"])]).2.*1.
Proof.
  apply (proj2 (proj2 (tally_best_hit_per_function
                         [(NewHit 0, sample_hit "S1" 50 ["F1"]);
                          (NewHit 1, sample_hit "S2" 60 ["F1"; "F2"])]))
           (NewHit 0, sample_hit "S1" 50 ["F1"]) "F1").
  - apply list_elem_of_here.
  - simpl. apply list_elem_of_here.
Defined.

Lemma same_alignment_refl h : same_alignment h h.
Proof. by repeat split. Qed.

Lemma same_alignment_trans h1 h2 h3 :
  same_alignment h1 h2 -> same_alignment h2 h3 -> same_alignment h1 h3.
Proof.
  unfold same_alignment. intros (?&?&?&?&?&?&?&?&?) (?&?&?&?&?&?&?&?&?).
  repeat split; congruence.
Qed.

Lemma same_alignment_annotate ref_data rid g :
  same_alignment g (annotate_hit ref_data (set_query_id rid g)).
Proof. by repeat split. Qed.

Lemma annotate_same_alignment ref_data rid g g0 :
  same_alignment g0 g ->
  annotate_hit ref_data (set_query_id rid g) = annotate_hit ref_data (set_query_id rid g0).
Proof.
  destruct g, g0. unfold same_alignment. simpl. intros (?&?&?&?&?&?&?&?&?). by subst.
Qed.

Lemma Forall2_same_alignment_refl l : Forall2 same_alignment l l.
Proof. induction l; constructor; [apply same_alignment_refl|done]. Qed.

Lemma Forall2_same_alignment_trans l1 l2 l3 :
  Forall2 same_alignment l1 l2 -> Forall2 same_alignment l2 l3 ->
  Forall2 same_alignment l1 l3.
Proof. apply Forall2_trans. apply same_alignment_trans. Qed.

(** The new list of hits: the hits chosen are re-anchored copies of hits of
    the store or of the anchor, and the store keeps its alignments. *)
Lemma rebuild_hits_spec ref_data rid anchor d store :
  Forall2 same_alignment store (rebuild_hits ref_data rid anchor d store).1 /\
  hl_query_id (rebuild_hits ref_data rid anchor d store).2 = rid /\
  Forall (rebuilt_from ref_data rid (anchor :: store))
    (hits (rebuild_hits ref_data rid anchor d store).2).
Proof.
  unfold rebuild_hits.
  assert (Hgen : forall acc : list DiamondHit * DiamondHitList,
    Forall2 same_alignment store acc.1 -> hl_query_id acc.2 = rid ->
    Forall (rebuilt_from ref_data rid (anchor :: store)) (hits acc.2) ->
    let r := foldl (fun acc (kv : string * best_entry) =>
           if String.eqb kv.1 "" then acc
           else match (hit kv.2).1 with
                | NewHit i =>
                    match acc.1 !! i with
                    | Some g =>
                        let good_hit := annotate_hit ref_data (set_query_id rid g) in
                        (<[i := good_hit]> acc.1, add_hit good_hit acc.2)
                    | None => acc
                    end
                | AnchorHit =>
                    let good_hit := annotate_hit ref_data (set_query_id rid anchor) in
                    (acc.1, add_hit good_hit acc.2)
                end) acc d in
    Forall2 same_alignment store r.1 /\ hl_query_id r.2 = rid /\
    Forall (rebuilt_from ref_data rid (anchor :: store)) (hits r.2)).
  { induction d as [|kv d IH]; intros acc H1 H2 H3; simpl; [done|].
    destruct (String.eqb kv.1 ""); [by apply IH|].
    destruct ((hit kv.2).1) as [i|].
    - destruct (acc.1 !! i) as [g|] eqn:Hg; [|by apply IH].
      destruct (Forall2_lookup_r _ _ _ _ _ H1 Hg) as (s0 & Hs0 & Hsg).
      apply IH; simpl.
      + rewrite <- (list_insert_id store i s0 Hs0).
        apply Forall2_insert; [done|].
        eapply same_alignment_trans; [exact Hsg|apply same_alignment_annotate].
      + done.
      + apply Forall_app. split; [done|]. constructor; [|done].
        exists s0. split; [right; by eapply list_elem_of_lookup_2|].
        by apply annotate_same_alignment.
    - apply IH; simpl; [done..|].
      apply Forall_app. split; [done|]. constructor; [|done].
      exists anchor. split; [by left|done]. }
  apply Hgen; simpl; [apply Forall2_same_alignment_refl|done|constructor].
Qed.

Lemma compare_hit_inv ref_data lca c avg cov anchor read store :
  let r := compare_hit ref_data lca c avg cov anchor read store in
  read_id r.1.1 = read_id read /\
  read_id_line r.1.1 = read_id_line read /\
  (status r.1.1 = status read \/ status r.1.1 = "function"
   \/ status r.1.1 = "nofunction") /\
  Forall2 same_alignment store r.1.2 /\
  (hit_list r.1.1 = hit_list read \/
   (hl_query_id (hit_list r.1.1) = read_id read /\
    Forall (rebuilt_from ref_data (read_id read) (anchor :: store))
      (hits (hit_list r.1.1)))).
Proof.
  pose proof (Forall2_same_alignment_refl store) as Hrefl.
  unfold compare_hit.
  destruct (find_best_hit store) as [[bh|] b]; [|simpl; by eauto 10].
  case_bool_decide; [simpl; by eauto 10|].
  destruct (tally _) as [cnt fd].
  destruct (most_common_1 cnt) as [[f n]|]; [|simpl; by eauto 10].
  destruct (String.eqb f ""); [simpl; by eauto 10|].
  destruct (score_functions _ _ _) as [nf|e]; [|simpl; by eauto 10].
  pose proof (rebuild_hits_spec ref_data (read_id read) anchor fd store) as (H1 & H2 & H3).
  destruct (rebuild_hits _ _ _ _ _) as [store' hl]. simpl in *.
  destruct (lca _) as [t|e]; simpl; repeat split; eauto.
Qed.

Lemma compare_loop_inv ref_data lca hs he c avg cov read0 store0 old_hits :
  forall read store,
    old_hits ⊆ hits (hit_list read0) ->
    compare_inv ref_data read0 store0 read store ->
    let r := compare_loop ref_data lca hs he c avg cov old_hits read store in
    compare_inv ref_data read0 store0 r.1.1 r.1.2.
Proof.
  induction old_hits as [|h old_hits IH]; intros read store Hsub Hinv; simpl; [done|].
  assert (old_hits ⊆ hits (hit_list read0)) as Hsub'.
  { intros x Hx. apply Hsub. by right. }
  destruct (_ && _); [|by apply IH].
  pose proof (compare_hit_inv ref_data lca c avg cov h read store) as Hstep.
  destruct (compare_hit _ _ _ _ _ _ _ _) as [[read' store'] fl]. simpl in Hstep.
  destruct Hinv as (I1 & I2 & I3 & I4 & I5).
  destruct Hstep as (S1 & S2 & S3 & S4 & S5).
  assert (compare_inv ref_data read0 store0 read' store') as Hinv'.
  { split; [congruence|]. split; [congruence|]. split.
    { destruct S3 as [-> | [-> | ->]]; auto. }
    split; [by eapply Forall2_same_alignment_trans|].
    destruct S5 as [-> | [S5 S6]]; [done|]. right. rewrite S5, I1. split; [done|].
    eapply Forall_impl; [exact S6|]. rewrite I1.
    intros x (g & Hg & ->). apply elem_of_cons in Hg as [->|Hg].
    - exists h. split; [|done]. apply elem_of_app. left. apply Hsub. by left.
    - apply list_elem_of_lookup in Hg as [i Hi].
      destruct (Forall2_lookup_r _ _ _ _ _ I4 Hi) as (g0 & Hg0 & Hal).
      exists g0. split; [|by apply annotate_same_alignment].
      apply elem_of_app. right. by eapply list_elem_of_lookup_2. }
  destruct fl; simpl; [done| |done]. by apply IH.
Qed.

Lemma compare_hits_lca_inv read hs he new_hits c avg lca ref_data cov_data :
  let r := compare_hits_lca read hs he new_hits c avg lca ref_data cov_data in
  compare_inv ref_data read (hits new_hits) r.1.1 r.1.2.
Proof.
  unfold compare_hits_lca. apply compare_loop_inv; [done|].
  repeat split; auto. apply Forall2_same_alignment_refl.
Qed.

(** X4. [compare_hits_lca] never renames the read: the id of the read and
    its id line are the ones it had; its status is the one it had,
    ["function"] or ["nofunction"]; and the hits of the new list keep their
    alignment (subject, identity, length, coordinates, e-value, bitscore):
    only their query id and their functions can change. *)
Theorem compare_hits_lca_keeps_read read hs he new_hits c avg lca ref_data cov_data :
  let '(read', store', e) :=
    compare_hits_lca read hs he new_hits c avg lca ref_data cov_data in
  read_id read' = read_id read /\
  read_id_line read' = read_id_line read /\
  (status read' = status read \/ status read' = "function"
   \/ status read' = "nofunction") /\
  Forall2 same_alignment (hits new_hits) store'.
Proof.
  pose proof (compare_hits_lca_inv read hs he new_hits c avg lca ref_data cov_data) as H.
  destruct (compare_hits_lca _ _ _ _ _ _ _ _ _) as [[read' store'] e].
  destruct H as (?&?&?&?&_). done.
Qed.

(** X5. [compare_hits_lca] either leaves the hit list of the read as it was
    or replaces it by a list named after the read in which every hit is a
    hit of the new search, or a hit the read had, with the id of the read as
    query id and annotated again from the reference data. *)
Theorem compare_hits_lca_new_hit_list read hs he new_hits c avg lca ref_data cov_data :
  let '(read', store', e) :=
    compare_hits_lca read hs he new_hits c avg lca ref_data cov_data in
  hit_list read' = hit_list read \/
  (hl_query_id (hit_list read') = read_id read /\
   forall h, h ∈ hits (hit_list read') ->
     exists g, (g ∈ hits (hit_list read) \/ g ∈ hits new_hits) /\
               h = annotate_hit ref_data (set_query_id (read_id read) g)).
Proof.
  pose proof (compare_hits_lca_inv read hs he new_hits c avg lca ref_data cov_data) as H.
  destruct (compare_hits_lca _ _ _ _ _ _ _ _ _) as [[read' store'] e].
  destruct H as (_&_&_&_&[?|[Hq Hall]]); [by left|]. right. split; [done|].
  intros h Hh. rewrite Forall_forall in Hall. destruct (Hall h Hh) as (g & Hg & ->).
  exists g. split; [|done]. by apply elem_of_app in Hg.
Qed.

Lemma compare_hits_lca_new_hit_list_witness :
  exists g, (g ∈ [sample_hit "S1" 50 ["F1"]]
             \/ g ∈ [sample_hit "S1" 50 ["F1"]; sample_hit "S2" 49 ["F1"]]) /\
            set_query_id "P1" (sample_hit "S1" 50 ["F1"])
            = annotate_hit sample_ref_data (set_query_id "P1" g).
Proof.
  pose proof (compare_hits_lca_new_hit_list (sample_read (sample_hit "S1" 50 ["F1"])) 1 100
      (mkDiamondHitList "P1|1|100" [sample_hit "S1" 50 ["F1"]; sample_hit "S2" 49 ["F1"]])
      (3 # 100) 0 sample_lca sample_ref_data None) as H.
  vm_compute in H. destruct H as [H|[_ H]]; [discriminate H|].
  apply (H (set_query_id "P1" (sample_hit "S1" 50 ["F1"]))).
  apply list_elem_of_here.
Defined.

(* --------------------------------------------------------------------- *)
(** ** Further properties of the two passes *)
(* --------------------------------------------------------------------- *)

Lemma reference_row_below config ref_data st row :
  (exists rid e, parse_fastq_seqid (row_query row) = Ok (rid, e)) ->
  row_below_cutoffs config row ->
  reference_row config ref_data st row = (st, None).
Proof.
  intros (rid & e & Hp) Hbelow. unfold reference_row. rewrite Hp. simpl.
  destruct Hbelow as [-> | Hlen]; [done|]. rewrite Hlen. by destruct (Qltb _ _).
Qed.

(** X6. The reference pass does not see a row below the identity or length
    cutoff (once its query id is read): the pass on the file with the row is
    the pass on the file without it; when every row is below a cutoff, the
    working set is left as it was. *)
Theorem reference_pass_skips_rows_below_cutoffs config ref_data reads :
  (forall rows1 row rows2,
      (exists rid e, parse_fastq_seqid (row_query row) = Ok (rid, e)) ->
      row_below_cutoffs config row ->
      parse_reference_output config ref_data reads (rows1 ++ row :: rows2)
      = parse_reference_output config ref_data reads (rows1 ++ rows2)) /\
  (forall rows,
      Forall (fun row => (exists rid e, parse_fastq_seqid (row_query row) = Ok (rid, e))
                         /\ row_below_cutoffs config row) rows ->
      parse_reference_output config ref_data reads rows = (reads, None)).
Proof.
  split.
  - intros rows1 row rows2 Hp Hbelow. unfold parse_reference_output.
    rewrite !reference_rows_app.
    destruct (reference_rows config ref_data _ rows1) as [st [e|]]; [done|].
    simpl. by rewrite reference_row_below.
  - intros rows Hall. unfold parse_reference_output.
    assert (reference_rows config ref_data (mkRefState "" (new_hit_list "") reads) rows
            = (mkRefState "" (new_hit_list "") reads, None)) as ->; [|done].
    induction Hall as [|row rows [Hp Hb] _ IH]; simpl; [done|].
    by rewrite reference_row_below.
Qed.

Lemma reference_pass_skips_rows_below_cutoffs_witness :
  parse_reference_output sample_config sample_ref_data ∅
    ([sample_row "Q1" "S1" 50] ++ mkRow "Q2" "S2" 10 100 1 100 1 100 0 40 :: [])
  = parse_reference_output sample_config sample_ref_data ∅
      ([sample_row "Q1" "S1" 50] ++ []).
Proof.
  apply (proj1 (reference_pass_skips_rows_below_cutoffs sample_config sample_ref_data ∅)).
  - exists "Q2", "". reflexivity.
  - left. reflexivity.
Defined.

Lemma background_row_below finalize config cur reads row :
  row_below_cutoffs config row ->
  background_row finalize config (mkBgState (Some cur) reads) row
  = (mkBgState (Some cur) reads, None).
Proof.
  intros Hbelow. unfold background_row. simpl. destruct cur as [q hl].
  destruct Hbelow as [-> | Hlen]; [done|]. rewrite Hlen. by destruct (Qltb _ _).
Qed.

Lemma background_row_current finalize config st row :
  is_Some (bg_current (background_row finalize config st row).1).
Proof.
  unfold background_row.
  destruct (match bg_current st with
            | Some cur => cur
            | None => (row_query row, new_hit_list (row_query row))
            end) as [q hl].
  destruct (Qltb _ _); [by eexists|]. destruct (_ <? _)%Z; [by eexists|].
  destruct (negb _); [|by eexists].
  destruct (finalize q hl (bg_reads st)) as [reads' [e|]]; by eexists.
Qed.

Lemma background_rows_skip finalize config cur reads rows1 row rows2 :
  row_below_cutoffs config row ->
  background_rows finalize config (mkBgState (Some cur) reads) (rows1 ++ row :: rows2)
  = background_rows finalize config (mkBgState (Some cur) reads) (rows1 ++ rows2).
Proof.
  intros Hbelow. revert cur reads.
  induction rows1 as [|r rows1 IH]; intros cur reads; simpl.
  - by rewrite background_row_below.
  - pose proof (background_row_current finalize config (mkBgState (Some cur) reads) r)
      as [cur' Hcur].
    destruct (background_row finalize config _ r) as [[c' reads'] [e|]]; [done|].
    simpl in Hcur. subst c'. apply IH.
Qed.

(** X7. The background pass does not see a row below the identity or length
    cutoff, unless it is the first row of the file: after at least one row,
    the pass on the file with the row is the pass on the file without it.
    This holds for both versions of the pass. *)
Theorem background_pass_skips_rows_below_cutoffs finalize config reads rows1 row rows2 :
  rows1 <> [] ->
  row_below_cutoffs config row ->
  background_pass finalize config reads (rows1 ++ row :: rows2)
  = background_pass finalize config reads (rows1 ++ rows2).
Proof.
  intros Hne Hbelow. unfold background_pass.
  destruct rows1 as [|r rows1]; [done|]. simpl.
  pose proof (background_row_current finalize config (mkBgState None reads) r)
    as [cur Hcur].
  destruct (background_row finalize config _ r) as [[c reads'] [e|]]; [done|].
  simpl in Hcur. subst c. by rewrite background_rows_skip.
Qed.

Lemma background_pass_skips_rows_below_cutoffs_witness :
  background_pass
    (background_group sample_config sample_ref_data sample_lca 0 None) sample_config
    {["P1" := sample_read (sample_hit "S1" 50 ["F1"])]}
    ([sample_row "P1|1|100" "S1" 50] ++ mkRow "P2|1|9" "S2" 10 100 1 100 1 100 0 40 :: [])
  = background_pass
      (background_group sample_config sample_ref_data sample_lca 0 None) sample_config
      {["P1" := sample_read (sample_hit "S1" 50 ["F1"])]}
      ([sample_row "P1|1|100" "S1" 50] ++ []).
Proof.
  apply background_pass_skips_rows_below_cutoffs.
  - discriminate.
  - left. reflexivity.
Defined.

Lemma background_rows_all_below finalize config cur reads rows :
  Forall (row_below_cutoffs config) rows ->
  background_rows finalize config (mkBgState (Some cur) reads) rows
  = (mkBgState (Some cur) reads, None).
Proof.
  induction 1 as [|row rows Hrow _ IH]; simpl; [done|].
  by rewrite background_row_below.
Qed.

Lemma background_pass_all_below finalize config reads row rows :
  Forall (row_below_cutoffs config) (row :: rows) ->
  background_pass finalize config reads (row :: rows)
  = finalize (row_query row) (new_hit_list (row_query row)) reads.
Proof.
  intros Hall. apply Forall_cons in Hall as [Hrow Hall].
  unfold background_pass. simpl.
  assert (background_row finalize config (mkBgState None reads) row
          = (mkBgState (Some (row_query row, new_hit_list (row_query row))) reads, None))
    as ->.
  { unfold background_row. simpl.
    destruct Hrow as [-> | Hlen]; [done|]. rewrite Hlen. by destruct (Qltb _ _). }
  by rewrite background_rows_all_below.
Qed.

(** X8. A background file that has rows, all of them below the identity or
    length cutoff, is processed as one group with no hit, named by the query
    id of the first row: the first row names the query in flight before the
    cutoffs are looked at. This holds for both versions of the pass. *)
Theorem background_pass_rows_all_below finalize config reads row rows :
  Forall (row_below_cutoffs config) (row :: rows) ->
  background_pass finalize config reads (row :: rows)
  = finalize (row_query row) (new_hit_list (row_query row)) reads.
Proof. apply background_pass_all_below. Qed.

Lemma background_pass_rows_all_below_witness :
  background_pass
    (background_group sample_config sample_ref_data sample_lca 0 None) sample_config
    {["P1" := sample_read (sample_hit "S1" 50 ["F1"])]}
    [mkRow "P1|1|100" "S2" 10 100 1 100 1 100 0 40]
  = background_group sample_config sample_ref_data sample_lca 0 None
      "P1|1|100" (new_hit_list "P1|1|100")
      {["P1" := sample_read (sample_hit "S1" 50 ["F1"])]}.
Proof.
  apply (background_pass_rows_all_below
           (background_group sample_config sample_ref_data sample_lca 0 None)
           sample_config {["P1" := sample_read (sample_hit "S1" 50 ["F1"])]}
           (mkRow "P1|1|100" "S2" 10 100 1 100 1 100 0 40) []).
  constructor; [left; reflexivity|constructor].
Defined.

Lemma compare_loop_no_new_hits ref_data lca hs he c avg cov old read :
  Exists (on_interval hs he) old ->
  compare_loop ref_data lca hs he c avg cov old read []
  = (set_status "nofunction" read, [], None).
Proof.
  induction old as [|h old IH]; intros Hex; [by apply Exists_nil in Hex|].
  simpl. destruct ((q_start h =? hs)%Z && (q_end h =? he)%Z) eqn:E; [done|].
  apply Exists_cons in Hex as [Hh|Hex]; [|by apply IH].
  apply on_interval_test in Hh. congruence.
Qed.

(** X9. In the pass of the pipeline, a background file that has rows, all of
    them below a cutoff, marks the protein named by the first row as
    ["nofunction"] when the protein has a hit on the interval of that row,
    and changes nothing else. *)
Theorem parse_background_output_rows_all_below config ref_data lca coverage_data
    reads row rows t2 t1 hit_start hit_end read :
  Forall (row_below_cutoffs config) (row :: rows) ->
  from_end 2 (split_char "|" (row_query row)) = Some t2 ->
  py_int t2 = Some hit_start ->
  from_end 1 (split_char "|" (row_query row)) = Some t1 ->
  py_int t1 = Some hit_end ->
  reads !! base_id (row_query row) = Some read ->
  Exists (on_interval hit_start hit_end) (hits (hit_list read)) ->
  parse_background_output config ref_data lca coverage_data reads (row :: rows)
  = (<[base_id (row_query row) := set_status "nofunction" read]> reads, None).
Proof.
  intros Hall H2 Hs H1 He Hread Hex. unfold parse_background_output.
  destruct (get_average_coverage_ok (map_to_list coverage_data).*2) as [avg ->].
  rewrite background_pass_all_below by done.
  unfold background_group. rewrite H2, Hs, H1, He, Hread.
  unfold compare_hits_lca. simpl. by rewrite compare_loop_no_new_hits.
Qed.

Lemma parse_background_output_rows_all_below_witness :
  parse_background_output sample_config sample_ref_data sample_lca ∅
    {["P1" := sample_read (sample_hit "S1" 50 ["F1"])]}
    [mkRow "P1|1|100" "S2" 10 100 1 100 1 100 0 40]
  = (<[base_id "P1|1|100" :=
         set_status "nofunction" (sample_read (sample_hit "S1" 50 ["F1"]))]>
       {["P1" := sample_read (sample_hit "S1" 50 ["F1"])]}, None).
Proof.
  apply (parse_background_output_rows_all_below sample_config sample_ref_data
           sample_lca ∅ {["P1" := sample_read (sample_hit "S1" 50 ["F1"])]}
           (mkRow "P1|1|100" "S2" 10 100 1 100 1 100 0 40) [] "1" "100" 1 100
           (sample_read (sample_hit "S1" 50 ["F1"]))).
  - constructor; [left; reflexivity|constructor].
  - reflexivity.
  - reflexivity.
  - reflexivity.
  - reflexivity.
  - reflexivity.
  - apply Exists_cons_hd. split; reflexivity.
Defined.

Lemma same_reads_refl reads : same_reads reads reads.
Proof. split; [done|]. intros k r Hk. by exists r. Qed.

Lemma same_reads_trans reads1 reads2 reads3 :
  same_reads reads1 reads2 -> same_reads reads2 reads3 -> same_reads reads1 reads3.
Proof.
  intros [Hd1 H1] [Hd2 H2]. split; [congruence|].
  intros k r3 Hk. destruct (H2 k r3 Hk) as (r2 & Hk2 & Hi & Hl).
  destruct (H1 k r2 Hk2) as (r1 & Hk1 & Hi' & Hl').
  exists r1. repeat split; congruence.
Qed.

Lemma same_reads_insert reads k r r' :
  reads !! k = Some r -> read_id r' = read_id r ->
  read_id_line r' = read_id_line r ->
  same_reads reads (<[k := r']> reads).
Proof.
  intros Hk Hi Hl. split.
  - apply dom_insert_lookup_L. by eexists.
  - intros j x Hj. destruct (decide (j = k)) as [->|Hne].
    + rewrite lookup_insert_eq in Hj. injection Hj as <-. by exists r.
    + rewrite lookup_insert_ne in Hj by done. by exists x.
Qed.

Lemma background_group_same_reads config ref_data lca avg cov q hl reads :
  same_reads reads (background_group config ref_data lca avg cov q hl reads).1.
Proof.
  unfold background_group.
  destruct (from_end 2 _) as [t2|]; [|apply same_reads_refl].
  destruct (py_int t2) as [hs|]; [|apply same_reads_refl].
  destruct (from_end 1 _) as [t1|]; [|apply same_reads_refl].
  destruct (py_int t1) as [he|]; [|apply same_reads_refl].
  destruct (reads !! base_id q) as [read|] eqn:Hread; [|apply same_reads_refl].
  pose proof (compare_hits_lca_inv read hs he (annotate_hits ref_data hl)
                (biscore_range_cutoff config) avg lca ref_data cov) as H.
  destruct (compare_hits_lca _ _ _ _ _ _ _ _ _) as [[read' store'] e].
  destruct H as (Hi & Hl & _). simpl in *. by eapply same_reads_insert.
Qed.

Lemma background_rows_same_reads finalize config st rows :
  (forall q hl reads, same_reads reads (finalize q hl reads).1) ->
  same_reads (bg_reads st) (bg_reads (background_rows finalize config st rows).1).
Proof.
  intros Hf. revert st. induction rows as [|row rows IH]; intros st; simpl.
  - apply same_reads_refl.
  - assert (same_reads (bg_reads st)
              (bg_reads (background_row finalize config st row).1)) as Hrow.
    { unfold background_row.
      destruct (match bg_current st with
                | Some cur => cur
                | None => (row_query row, new_hit_list (row_query row))
                end) as [q hl].
      destruct (Qltb _ _); [apply same_reads_refl|].
      destruct (_ <? _)%Z; [apply same_reads_refl|].
      destruct (negb _); [|apply same_reads_refl].
      specialize (Hf q hl (bg_reads st)).
      destruct (finalize q hl (bg_reads st)) as [reads' [e|]]; exact Hf. }
    destruct (background_row finalize config st row) as [st' [e|]]; [done|].
    eapply same_reads_trans; [exact Hrow|apply IH].
Qed.

(** X10. The background pass of the pipeline neither adds nor removes a
    protein of the working set, and never renames one: whether the pass
    returns or raises, the working set it leaves has the keys it had, and
    under each key a read with the id and the id line of the read that was
    there. *)
Theorem parse_background_output_same_reads config ref_data lca coverage_data reads rows :
  let reads' :=
    (parse_background_output config ref_data lca coverage_data reads rows).1 in
  dom reads' = dom reads /\
  forall k r', reads' !! k = Some r' ->
    exists r, reads !! k = Some r /\ read_id r' = read_id r /\
              read_id_line r' = read_id_line r.
Proof.
  change (same_reads reads
            (parse_background_output config ref_data lca coverage_data reads rows).1).
  unfold parse_background_output.
  destruct (get_average_coverage _) as [avg|e]; [|apply same_reads_refl].
  unfold background_pass.
  pose proof (background_rows_same_reads
                (background_group config ref_data lca avg (Some coverage_data)) config
                (mkBgState None reads) rows
                (background_group_same_reads config ref_data lca avg (Some coverage_data)))
    as Hrows.
  destruct (background_rows _ _ _ rows) as [st [e|]]; [exact Hrows|].
  eapply same_reads_trans; [exact Hrows|].
  unfold background_eof. destruct (bg_current st) as [[q hl]|]; [|apply same_reads_refl].
  apply background_group_same_reads.
Qed.

Lemma parse_background_output_same_reads_witness :
  exists r',
    (parse_background_output sample_config sample_ref_data sample_lca ∅
       {["P1" := sample_read (sample_hit "S1" 50 ["F1"])]}
       [sample_row "P1|1|100" "S1" 50]).1 !! "P1" = Some r' /\
    read_id r' = "P1".
Proof.
  pose proof (parse_background_output_same_reads sample_config sample_ref_data
                sample_lca ∅ {["P1" := sample_read (sample_hit "S1" 50 ["F1"])]}
                [sample_row "P1|1|100" "S1" 50]) as [_ H].
  assert (is_Some ((parse_background_output sample_config sample_ref_data sample_lca ∅
                      {["P1" := sample_read (sample_hit "S1" 50 ["F1"])]}
                      [sample_row "P1|1|100" "S1" 50]).1 !! "P1")) as [r' Hr'].
  { vm_compute. eexists. reflexivity. }
  destruct (H "P1" r' Hr') as (r & Hr & Hi & _).
  exists r'. split; [exact Hr'|]. rewrite Hi.
  vm_compute in Hr. injection Hr as <-. reflexivity.
Defined.

Lemma row_survives_id config k k' row :
  row_survives config k row -> row_survives config k' row -> k = k'.
Proof. intros [[e He] _] [[e' He'] _]. congruence. Qed.

Lemma hits_number_filter_list cutoff hl :
  hits_number (filter_list cutoff hl) <> 0%nat <-> hits hl <> [].
Proof.
  rewrite filter_list_hits_number. unfold hits_number.
  destruct (hits hl); simpl; split; intros H; congruence.
Qed.

Lemma reference_group_interior_lookup config ref_data cur hl reads k r :
  reference_group_interior config ref_data cur hl reads !! k = Some r ->
  reads !! k = Some r \/
  (k = cur /\ hits hl <> [] /\ read_id r = cur /\ status r = "unprocessed").
Proof.
  unfold reference_group_interior. destruct (decide _) as [Hn|Hn]; [|by left].
  apply (proj1 (hits_number_filter_list _ _)) in Hn. intros Hk.
  destruct (decide (k = cur)) as [->|Hne].
  - rewrite lookup_insert_eq in Hk. injection Hk as <-. right. done.
  - rewrite lookup_insert_ne in Hk by done. by left.
Qed.

Lemma reference_group_interior_dom config ref_data cur hl reads :
  dom reads ⊆ dom (reference_group_interior config ref_data cur hl reads) /\
  (hits hl <> [] -> cur ∈ dom (reference_group_interior config ref_data cur hl reads)).
Proof.
  unfold reference_group_interior. destruct (decide _) as [Hn|Hn].
  - rewrite dom_insert_L. split; [set_solver|]. intros _. set_solver.
  - split; [done|]. intros Hne.
    apply (proj2 (hits_number_filter_list (overlap_cutoff config) hl)) in Hne. done.
Qed.

Lemma reference_row_inv config ref_data reads0 P st row st' :
  reference_inv config reads0 P st ->
  reference_row config ref_data st row = (st', None) ->
  reference_inv config reads0 (P ++ [row]) st'.
Proof.
  intros (I1 & I2 & I3 & I4 & I5). unfold reference_row.
  destruct (parse_fastq_seqid (row_query row)) as [[rid e]|e] eqn:Hp; [|done].
  simpl.
  assert (forall k, row_survives config k row -> k = rid) as Hid.
  { intros k [[e' He'] _]. congruence. }
  assert (forall k, Exists (row_survives config k) P ->
                    Exists (row_survives config k) (P ++ [row])) as Hmono.
  { intros k Hk. apply Exists_app. by left. }
  assert (forall st0 : RefState,
             st0 = st ->
             (forall k, ~ row_survives config k row) ->
             reference_inv config reads0 (P ++ [row]) st0) as Hskip.
  { intros st0 -> Hno. repeat split; auto.
    - intros k r Hk. destruct (I4 k r Hk) as [?|(?&?&?)]; auto.
    - intros k Hk. apply Exists_app in Hk as [Hk|Hk]; [auto|].
      apply Exists_cons in Hk as [Hk|Hk]; [by apply Hno in Hk|].
      by apply Exists_nil in Hk. }
  destruct (Qltb (row_identity row) (identity_cutoff config)) eqn:Hi.
  { intros [= <-]. apply Hskip; [done|]. intros k (_ & Hc & _). congruence. }
  destruct (row_length row <? length_cutoff config)%Z eqn:Hl.
  { intros [= <-]. apply Hskip; [done|]. intros k (_ & _ & Hc). congruence. }
  assert (row_survives config rid row) as Hrow.
  { split; [by exists e|done]. }
  assert (Exists (row_survives config rid) (P ++ [row])) as Hex.
  { apply Exists_app. right. by apply Exists_cons_hd. }
  destruct (negb (rid =? ref_current st)%string) eqn:Hcur; intros [= <-]; simpl.
  - pose proof (reference_group_interior_dom config ref_data (ref_current st)
                  (ref_hits st) (ref_reads st)) as [Hd1 Hd2].
    repeat split.
    + set_solver.
    + done.
    + intros k r Hk.
      apply reference_group_interior_lookup in Hk
        as [Hk|(-> & Hne & Hrid & Hst)].
      * destruct (I4 k r Hk) as [?|(?&?&?)]; auto.
      * right. auto.
    + intros k Hk. apply Exists_app in Hk as [Hk|Hk].
      * destruct (I5 k Hk) as [Hk'|[-> Hne]]; left; [set_solver|auto].
      * apply Exists_cons in Hk as [Hk|Hk]; [|by apply Exists_nil in Hk].
        right. split; [by apply Hid|]. by destruct (hits _).
  - apply negb_false_iff, String.eqb_eq in Hcur. subst rid.
    repeat split; auto.
    + intros k r Hk. destruct (I4 k r Hk) as [?|(?&?&?)]; auto.
    + intros k Hk. apply Exists_app in Hk as [Hk|Hk].
      * destruct (I5 k Hk) as [Hk'|[-> Hne]]; [by left|].
        right. split; [done|]. simpl. by destruct (hits (ref_hits st)).
      * apply Exists_cons in Hk as [Hk|Hk]; [|by apply Exists_nil in Hk].
        right. split; [by apply Hid|]. simpl. by destruct (hits (ref_hits st)).
Qed.

Lemma reference_rows_inv config ref_data reads0 rows P st st' oe :
  reference_inv config reads0 P st ->
  reference_rows config ref_data st rows = (st', oe) ->
  exists P' suffix,
    P ++ rows = P' ++ suffix /\ (oe = None -> suffix = []) /\
    reference_inv config reads0 P' st'.
Proof.
  revert P st. induction rows as [|row rows IH]; intros P st Hinv; simpl.
  - intros [= <- <-]. exists P, []. done.
  - destruct (reference_row config ref_data st row) as [st1 [e|]] eqn:Hrow.
    + intros [= <- <-]. exists P, (row :: rows). split; [done|]. split; [done|].
      unfold reference_row in Hrow.
      destruct (parse_fastq_seqid _) as [[rid x]|e']; [|by injection Hrow as <- _].
      simpl in Hrow. destruct (Qltb _ _); [done|]. destruct (_ <? _)%Z; [done|].
      by destruct (negb _).
    + intros Hrows.
      destruct (IH (P ++ [row]) st1 (reference_row_inv _ _ _ _ _ _ _ Hinv Hrow) Hrows)
        as (P' & suffix & Heq & Hnone & Hinv').
      exists P', suffix. split; [|done]. rewrite <- Heq, <- app_assoc. done.
Qed.

(** X11. What the reference pass does to the working set. Whether the pass
    returns or raises, every read it leaves was there before or is a new
    unprocessed read, stored under its own id, of a query that has a row
    passing the identity and length cutoffs, and no key is removed; when the
    pass returns, every query that has such a row is in the working set.
    ([DiamondHitList.filter_list] is not among the sources and is modelled
    from the spec, as keeping at least the best hit of a list that has
    one.) *)
Theorem reference_pass_working_set config ref_data reads rows :
  let '(reads', e) := parse_reference_output config ref_data reads rows in
  (forall k r, reads' !! k = Some r ->
     reads !! k = Some r \/
     (read_id r = k /\ status r = "unprocessed" /\
      Exists (row_survives config k) rows)) /\
  dom reads ⊆ dom reads' /\
  (e = None -> forall k, Exists (row_survives config k) rows -> k ∈ dom reads').
Proof.
  unfold parse_reference_output.
  destruct (reference_rows config ref_data _ rows) as [st oe] eqn:Hrows.
  assert (reference_inv config reads [] (mkRefState "" (new_hit_list "") reads)) as Hinit.
  { repeat split; simpl; try done.
    - intros k r Hk. by left.
    - intros k Hk. by apply Exists_nil in Hk. }
  destruct (reference_rows_inv _ _ _ _ _ _ _ _ Hinit Hrows)
    as (P' & suffix & Heq & Hnone & I1 & I2 & I3 & I4 & I5).
  simpl in Heq. subst rows.
  assert (forall k, Exists (row_survives config k) P' ->
                    Exists (row_survives config k) (P' ++ suffix)) as Hmono.
  { intros k Hk. apply Exists_app. by left. }
  destruct oe as [e|].
  - repeat split; [|done|done].
    intros k r Hk. destruct (I4 k r Hk) as [?|(?&?&?)]; auto.
  - rewrite (Hnone eq_refl) in *. rewrite app_nil_r in *.
    unfold reference_group_eof. destruct (decide _) as [Hn|Hn].
    + assert (hits (ref_hits st) <> []) as Hne.
      { unfold hits_number in Hn. by destruct (hits (ref_hits st)). }
      repeat split.
      * intros k r Hk. destruct (decide (k = ref_current st)) as [->|Hk'].
        -- rewrite lookup_insert_eq in Hk. injection Hk as <-. right. auto.
        -- rewrite lookup_insert_ne in Hk by done.
           destruct (I4 k r Hk) as [?|(?&?&?)]; auto.
      * rewrite dom_insert_L. set_solver.
      * intros _ k Hk. rewrite dom_insert_L.
        destruct (I5 k Hk) as [?|[-> _]]; set_solver.
    + repeat split; [|done|].
      * intros k r Hk. destruct (I4 k r Hk) as [?|(?&?&?)]; auto.
      * intros _ k Hk. destruct (I5 k Hk) as [?|[_ Hne]]; [done|].
        exfalso. apply Hn. unfold hits_number. by destruct (hits (ref_hits st)).
Qed.

Lemma reference_pass_working_set_witness :
  "Q1" ∈ dom (parse_reference_output sample_config sample_ref_data ∅
                [sample_row "Q1" "S1" 50; sample_row "Q2" "S2" 40]).1.
Proof.
  pose proof (reference_pass_working_set sample_config sample_ref_data ∅
                [sample_row "Q1" "S1" 50; sample_row "Q2" "S2" 40]) as H.
  assert ((parse_reference_output sample_config sample_ref_data ∅
             [sample_row "Q1" "S1" 50; sample_row "Q2" "S2" 40]).2 = None) as He.
  { reflexivity. }
  destruct (parse_reference_output _ _ _ _) as [reads' e].
  destruct H as (_ & _ & H). simpl in *. apply (H He).
  apply Exists_cons_hd. split; [exists ""; reflexivity|]. split; reflexivity.
Defined.

(* --------------------------------------------------------------------- *)
(** ** Further properties of the taxonomy queries *)
(* --------------------------------------------------------------------- *)

Lemma tax_safe_ret {A} (a : A) : tax_safe (tax_ret a).
Proof. intros t. by left. Qed.

Lemma tax_safe_raise {A} e : tax_safe (@tax_raise A e).
Proof. intros t. by left. Qed.

Lemma tax_safe_bind {A B} (m : Tax A) (k : A -> Tax B) :
  tax_safe m -> (forall a, tax_safe (k a)) -> tax_safe (tax_bind m k).
Proof.
  intros Hm Hk t. unfold tax_bind.
  destruct (Hm t) as [H|H]; destruct (m t) as [[a|e] t1]; simpl in *.
  - subst. apply Hk.
  - by left.
  - discriminate.
  - injection H as ->. by right.
Qed.

Lemma tax_safe_nodes_in k : tax_safe (nodes_in k).
Proof. intros t. by left. Qed.

Lemma tax_safe_names_in k : tax_safe (names_in k).
Proof. intros t. by left. Qed.

Lemma tax_safe_nodes_get k key : tax_safe (nodes_get k key).
Proof.
  intros t. unfold nodes_get, tax_bind, nodes_item, dict_get.
  destruct (nodes t !! k) as [d|].
  - left. by destruct (d !! key).
  - right. by rewrite lookup_empty.
Qed.

Lemma tax_safe_names_get k key : tax_safe (names_get k key).
Proof.
  intros t. unfold names_get, tax_bind, names_item, dict_get.
  destruct (names t !! k) as [d|].
  - left. by destruct (d !! key).
  - right. by rewrite lookup_empty.
Qed.

Lemma tax_safe_set_pop s : tax_safe (set_pop s).
Proof. destruct s; [apply tax_safe_raise|apply tax_safe_ret]. Qed.

Ltac tax_safe_step :=
  first
    [ assumption
    | apply tax_safe_ret
    | apply tax_safe_raise
    | apply tax_safe_nodes_in
    | apply tax_safe_names_in
    | apply tax_safe_nodes_get
    | apply tax_safe_names_get
    | apply tax_safe_set_pop
    | apply tax_safe_bind; [|intros ?]
    | match goal with
      | IH : forall _, tax_safe _ |- _ => apply IH
      | IH : forall _ _, tax_safe _ |- _ => apply IH
      | IH : forall _ _ _, tax_safe _ |- _ => apply IH
      | |- tax_safe (if ?b then _ else _) => destruct b
      | |- tax_safe (match ?x with _ => _ end) => destruct x
      end ].

Lemma tax_safe_lineage_loop fuel parent_id lineage depth :
  tax_safe (lineage_loop fuel parent_id lineage depth).
Proof.
  revert parent_id lineage depth.
  induction fuel as [|fuel IH]; intros; simpl; repeat tax_safe_step.
Qed.

Lemma tax_safe_lineages_loop fuel ids lineages min_depth :
  tax_safe (lineages_loop fuel ids lineages min_depth).
Proof.
  revert lineages min_depth.
  induction ids as [|id ids IH]; intros; simpl;
    repeat first [apply tax_safe_lineage_loop | tax_safe_step].
Qed.

Lemma tax_safe_level_ids lineages i ids id_set :
  tax_safe (level_ids lineages i ids id_set).
Proof.
  revert id_set. induction ids as [|id ids IH]; intros; simpl; repeat tax_safe_step.
Qed.

Lemma tax_safe_levels_loop lineages ids levels upper :
  tax_safe (levels_loop lineages ids levels upper).
Proof.
  revert upper. induction levels as [|i levels IH]; intros; simpl;
    repeat first [apply tax_safe_level_ids | tax_safe_step].
Qed.

Lemma tax_safe_get_lca fuel ids : tax_safe (get_lca fuel ids).
Proof.
  unfold get_lca.
  assert (tax_safe (let* r := lineages_loop fuel ids ∅ 1000 in
                    let '(taxonomic_lineages, min_depth) := r in
                    levels_loop taxonomic_lineages ids (seq 0 (S min_depth))
                      [UNKNOWN_TAXONOMY_ID])) as Hgen.
  { apply tax_safe_bind; [apply tax_safe_lineages_loop|].
    intros [lineages min_depth]. apply tax_safe_levels_loop. }
  destruct ids as [|id [|id' ids]]; [exact Hgen| |exact Hgen].
  destruct (String.eqb id ""); apply tax_safe_ret.
Qed.

Lemma tax_safe_levels_climb fuel parent_id levels :
  tax_safe (levels_climb fuel parent_id levels).
Proof.
  revert parent_id levels.
  induction fuel as [|fuel IH]; intros; simpl; repeat tax_safe_step.
Qed.

Lemma tax_safe_levels_loop2 fuel ids levels :
  tax_safe (levels_loop2 fuel ids levels).
Proof.
  revert levels. induction ids as [|id ids IH]; intros; simpl;
    repeat first [apply tax_safe_levels_climb | tax_safe_step].
Qed.

Lemma tax_safe_ranked_ancestor RANKS fuel ret_val :
  tax_safe (ranked_ancestor RANKS fuel ret_val).
Proof.
  revert ret_val. induction fuel as [|fuel IH]; intros; simpl; repeat tax_safe_step.
Qed.

Lemma tax_safe_get_lca2 RANKS fuel ids : tax_safe (get_lca2 RANKS fuel ids).
Proof.
  unfold get_lca2.
  assert (tax_safe (let* taxonomic_levels := levels_loop2 fuel ids ∅ in
                    if (size taxonomic_levels =? 0)%nat then tax_ret UNKNOWN_TAXONOMY_ID
                    else
                      let* ret_val :=
                        set_pop (last_good (drop 1 RANKS) taxonomic_levels
                                   [ROOT_TAXONOMY_ID]) in
                      let* lca_rank := nodes_get ret_val "rank" in
                      ranked_ancestor RANKS fuel ret_val)) as Hgen.
  { repeat first [apply tax_safe_levels_loop2 | apply tax_safe_ranked_ancestor
                 | tax_safe_step]. }
  destruct ids as [|id [|id' ids]]; [exact Hgen| |exact Hgen].
  destruct (String.eqb id ""); apply tax_safe_ret.
Qed.

Lemma tax_safe_upper_level_loop RANKS fuel current_id :
  tax_safe (upper_level_loop RANKS fuel current_id).
Proof.
  revert current_id. induction fuel as [|fuel IH]; intros; simpl; repeat tax_safe_step.
Qed.

Lemma tax_safe_lineage_names_loop RANKS fuel parent_id lineage :
  tax_safe (lineage_names_loop RANKS fuel parent_id lineage).
Proof.
  revert parent_id lineage.
  induction fuel as [|fuel IH]; intros; simpl; repeat tax_safe_step.
Qed.

(** X12. On any tables, closed or not, a read operation changes the tables
    only on a call that raises [KeyError]: each of [get_lca], [get_lca2],
    [get_upper_level_taxon], [get_taxonomy_rank], [get_lineage_string] and
    [get_taxonomy_lineage], for every argument, leaves the tables as they
    were or raises [KeyError]. In particular a call that returns has changed
    nothing. *)
Theorem queries_change_tables_only_on_KeyError (RANKS : list string) (fuel : nat)
    (ids : list string) (taxonomy_id : string) :
  tax_safe (get_lca fuel ids) /\
  tax_safe (get_lca2 RANKS fuel ids) /\
  tax_safe (get_upper_level_taxon RANKS fuel taxonomy_id) /\
  tax_safe (get_taxonomy_rank taxonomy_id) /\
  tax_safe (get_lineage_string RANKS fuel taxonomy_id) /\
  tax_safe (get_taxonomy_lineage RANKS fuel taxonomy_id).
Proof.
  split; [apply tax_safe_get_lca|].
  split; [apply tax_safe_get_lca2|].
  split.
  { unfold get_upper_level_taxon.
    repeat first [apply tax_safe_upper_level_loop | tax_safe_step]. }
  split.
  { unfold get_taxonomy_rank. repeat tax_safe_step. }
  split.
  - unfold get_lineage_string.
    repeat first [apply tax_safe_lineage_names_loop | tax_safe_step].
  - unfold get_taxonomy_lineage.
    repeat first [apply tax_safe_lineage_names_loop | tax_safe_step].
Qed.

Lemma tax_safe_ok {A} (m : Tax A) t a t' :
  tax_safe m -> m t = (Ok a, t') -> t' = t.
Proof. intros Hm H. destruct (Hm t) as [H'|H']; rewrite H in H'; simpl in H'; done. Qed.

Lemma tax_bind_ext {A B} (m : Tax A) (k1 k2 : A -> Tax B) t :
  tax_safe m -> (forall a, k1 a t = k2 a t) ->
  tax_bind m k1 t = tax_bind m k2 t.
Proof.
  intros Hm H. unfold tax_bind. destruct (m t) as [[a|e] t1] eqn:E; [|done].
  apply (tax_safe_ok _ _ _ _ Hm) in E. subst. apply H.
Qed.

Lemma nodes_in_false t k : k ∉ dom (nodes t) -> nodes_in k t = (Ok false, t).
Proof.
  intros Hk. unfold nodes_in. rewrite bool_decide_eq_false_2; [done|].
  intros Hs. by apply elem_of_dom in Hs.
Qed.

Lemma lineages_loop_present t fuel ids lineages min_depth :
  lineages_loop fuel ids lineages min_depth t
  = lineages_loop fuel (present_ids t ids) lineages min_depth t.
Proof.
  revert lineages min_depth. unfold present_ids.
  induction ids as [|id ids IH]; intros; [done|].
  rewrite filter_cons. destruct (decide (id ∈ dom (nodes t))) as [Hin|Hout].
  - simpl. apply tax_bind_ext; [apply tax_safe_nodes_in|]. intros [|]; [|apply IH].
    apply tax_bind_ext; [apply tax_safe_nodes_get|]. intros p.
    apply tax_bind_ext; [apply tax_safe_lineage_loop|]. intros [l d]. apply IH.
  - simpl. unfold tax_bind at 1. rewrite nodes_in_false by done. apply IH.
Qed.

Lemma level_ids_present t lineages i ids id_set :
  level_ids lineages i ids id_set t = level_ids lineages i (present_ids t ids) id_set t.
Proof.
  revert id_set. unfold present_ids.
  induction ids as [|id ids IH]; intros; [done|].
  rewrite filter_cons. destruct (decide (id ∈ dom (nodes t))) as [Hin|Hout].
  - simpl. apply tax_bind_ext; [apply tax_safe_nodes_in|]. intros [|]; [|apply IH].
    destruct (lineages !! id) as [l|]; [|done]. destruct (l !! i); [apply IH|done].
  - simpl. unfold tax_bind at 1. rewrite nodes_in_false by done. apply IH.
Qed.

Lemma levels_loop_present t lineages ids levels upper :
  levels_loop lineages ids levels upper t
  = levels_loop lineages (present_ids t ids) levels upper t.
Proof.
  revert upper. induction levels as [|i levels IH]; intros; [done|].
  simpl. unfold tax_bind. rewrite <- level_ids_present.
  destruct (level_ids lineages i ids [] t) as [[s|e] t1] eqn:E; [|done].
  apply (tax_safe_ok _ _ _ _ (tax_safe_level_ids _ _ _ _)) in E. subst.
  destruct (1 <? length s)%nat; [done|apply IH].
Qed.

Lemma get_lca_general fuel ids :
  length ids <> 1%nat ->
  get_lca fuel ids
  = (let* r := lineages_loop fuel ids ∅ 1000 in
     let '(taxonomic_lineages, min_depth) := r in
     levels_loop taxonomic_lineages ids (seq 0 (S min_depth)) [UNKNOWN_TAXONOMY_ID]).
Proof. destruct ids as [|id [|id' ids]]; done. Qed.

Lemma get_lca_present t fuel ids :
  length ids <> 1%nat -> length (present_ids t ids) <> 1%nat ->
  get_lca fuel ids t = get_lca fuel (present_ids t ids) t.
Proof.
  intros H1 H2. rewrite !get_lca_general by done.
  unfold tax_bind. rewrite <- lineages_loop_present.
  destruct (lineages_loop fuel ids ∅ 1000 t) as [[[lineages md]|e] t1] eqn:E; [|done].
  apply (tax_safe_ok _ _ _ _ (tax_safe_lineages_loop _ _ _ _)) in E. subst.
  apply levels_loop_present.
Qed.

(** X13. [get_lca] does not see the ids that are not in [nodes]: on a list
    that is not a singleton, and whose ids known to [nodes] are not a single
    one, the call gives what it gives on the known ids alone (the same value
    or exception, and the same tables). *)
Theorem get_lca_skips_absent_ids t fuel ids :
  length ids <> 1%nat -> length (present_ids t ids) <> 1%nat ->
  get_lca fuel ids t = get_lca fuel (present_ids t ids) t.
Proof. apply get_lca_present. Qed.

Lemma get_lca_skips_absent_ids_witness :
  get_lca 10 ["C"; "nowhere"; "E"] sample_tree
  = get_lca 10 (present_ids sample_tree ["C"; "nowhere"; "E"]) sample_tree.
Proof.
  apply (get_lca_skips_absent_ids sample_tree 10 ["C"; "nowhere"; "E"]).
  - simpl. lia.
  - vm_compute. lia.
Defined.

Lemma levels_loop_no_ids t lineages levels upper :
  levels <> [] \/ upper = [] ->
  levels_loop lineages [] levels upper t = (Ok UNKNOWN_TAXONOMY_ID, t).
Proof.
  revert upper. induction levels as [|i levels IH]; intros upper H.
  - destruct H as [H| ->]; done.
  - simpl. unfold tax_bind. simpl. apply IH. by right.
Qed.

Lemma levels_loop2_absent t fuel ids levels :
  Forall (fun id => id ∉ dom (nodes t)) ids ->
  levels_loop2 fuel ids levels t = (Ok levels, t).
Proof.
  induction 1 as [|id ids Hid _ IH]; [done|].
  simpl. destruct (String.eqb id ""); [done|].
  unfold tax_bind. by rewrite nodes_in_false.
Qed.

(** X14. On a list of ids none of which is in [nodes] (the empty list, or two
    or more ids), [get_lca] and [get_lca2] return the unknown id ['0'] and
    leave the tables as they are. *)
Theorem lca_of_absent_ids_is_unknown t RANKS fuel ids :
  length ids <> 1%nat ->
  Forall (fun id => id ∉ dom (nodes t)) ids ->
  get_lca fuel ids t = (Ok UNKNOWN_TAXONOMY_ID, t) /\
  get_lca2 RANKS fuel ids t = (Ok UNKNOWN_TAXONOMY_ID, t).
Proof.
  intros Hlen Hall.
  assert (present_ids t ids = []) as Hnone.
  { clear Hlen. unfold present_ids. induction Hall as [|id ids Hid _ IH]; [done|].
    rewrite filter_cons. by destruct (decide _). }
  split.
  - rewrite get_lca_present by (rewrite ?Hnone; done). rewrite Hnone.
    unfold get_lca, tax_bind. simpl lineages_loop. cbv beta iota.
    unfold tax_ret at 1. cbv beta iota.
    apply levels_loop_no_ids. by left.
  - unfold get_lca2.
    assert ((let* taxonomic_levels := levels_loop2 fuel ids ∅ in
             if (size taxonomic_levels =? 0)%nat then tax_ret UNKNOWN_TAXONOMY_ID
             else
               let* ret_val :=
                 set_pop (last_good (drop 1 RANKS) taxonomic_levels
                            [ROOT_TAXONOMY_ID]) in
               let* lca_rank := nodes_get ret_val "rank" in
               ranked_ancestor RANKS fuel ret_val) t
            = (Ok UNKNOWN_TAXONOMY_ID, t)) as Hgen.
    { unfold tax_bind. rewrite levels_loop2_absent by done. done. }
    destruct ids as [|id [|id' ids]]; [exact Hgen|simpl in Hlen; lia|exact Hgen].
Qed.

Lemma lca_of_absent_ids_is_unknown_witness :
  get_lca 10 ["nowhere"; "nobody"] sample_tree = (Ok UNKNOWN_TAXONOMY_ID, sample_tree) /\
  get_lca2 sample_ranks 10 ["nowhere"; "nobody"] sample_tree
  = (Ok UNKNOWN_TAXONOMY_ID, sample_tree).
Proof.
  apply (lca_of_absent_ids_is_unknown sample_tree sample_ranks 10 ["nowhere"; "nobody"]).
  - simpl. lia.
  - apply Forall_cons_2; [|apply Forall_cons_2; [|apply Forall_nil_2]];
      apply not_elem_of_dom; reflexivity.
Defined.

(* --------------------------------------------------------------------- *)
(** ** Further properties of load_taxdata *)
(* --------------------------------------------------------------------- *)

Lemma tax_bind_inv {A B} (m : Tax A) (k : A -> Tax B) t b t' :
  tax_bind m k t = (Ok b, t') ->
  exists a t1, m t = (Ok a, t1) /\ k a t1 = (Ok b, t').
Proof.
  unfold tax_bind. destruct (m t) as [[a|e] t1]; [|done]. intros H. by exists a, t1.
Qed.

Lemma nodes_get_ok t k key v t' :
  nodes_get k key t = (Ok v, t') ->
  t' = t /\ exists d, nodes t !! k = Some d /\ d !! key = Some v.
Proof.
  unfold nodes_get, tax_bind, nodes_item, dict_get.
  destruct (nodes t !! k) as [d|].
  - destruct (d !! key) as [x|] eqn:E; [|done]. intros [= <- <-]. split; [done|].
    by exists d.
  - by rewrite lookup_empty.
Qed.

Lemma names_get_ok t k key v t' :
  names_get k key t = (Ok v, t') ->
  t' = t /\ exists d, names t !! k = Some d /\ d !! key = Some v.
Proof.
  unfold names_get, tax_bind, names_item, dict_get.
  destruct (names t !! k) as [d|].
  - destruct (d !! key) as [x|] eqn:E; [|done]. intros [= <- <-]. split; [done|].
    by exists d.
  - by rewrite lookup_empty.
Qed.

Ltac set_union_tac :=
  apply set_eq; intros ?; rewrite ?elem_of_union, ?elem_of_empty; tauto.

Lemma load_names_spec rows t :
  exists t', load_names rows t = (Ok tt, t') /\ nodes t' = nodes t /\
    dom (names t') = dom (names t) ∪ list_to_set (scientific_ids rows) /\
    (names t' = ∅ <->
     names t = ∅ /\ Forall (fun r => nr_class r <> scientific_name) rows).
Proof.
  revert t. unfold scientific_ids.
  induction rows as [|r rows IH]; intros t.
  - exists t. simpl. split; [done|]. split; [done|]. split; [set_union_tac|].
    split; [intros H; split; [done|constructor]|by intros [H _]].
  - simpl. unfold tax_bind. rewrite filter_cons.
    destruct (String.eqb_spec (nr_class r) scientific_name) as [Hsci|Hsci].
    + destruct (IH (names_set (nr_id r) "name" (nr_name r) t).2)
        as (t' & Hl & Hn & Hd & He).
      exists t'. simpl in *. rewrite decide_True by done.
      split; [done|]. split; [done|]. split; [|split].
      * rewrite Hd, dom_insert_L, fmap_cons. simpl. set_union_tac.
      * intros H. apply He in H as [H _]. by apply insert_non_empty in H.
      * intros [_ H]. apply Forall_cons in H as [H _]. done.
    + destruct (IH t) as (t' & Hl & Hn & Hd & He).
      exists t'. simpl. rewrite decide_False by done.
      split; [done|]. split; [done|]. split; [done|]. split.
      * intros H. apply He in H as [H1 H2]. split; [done|]. by apply Forall_cons.
      * intros [H1 H2]. apply He. apply Forall_cons in H2 as [_ H2]. done.
Qed.

Lemma parents_in_nodes_set S t k key v :
  parents_in S t -> (key = "parent" -> v ∈ S) ->
  parents_in S (nodes_set k key v t).2.
Proof.
  intros H Hv. unfold parents_in. simpl. apply map_Forall_insert_2; [|done].
  destruct (decide (key = "parent")) as [->|Hne].
  - rewrite lookup_insert_eq. auto.
  - rewrite lookup_insert_ne by done.
    destruct (nodes t !! k) as [d|] eqn:E; simpl; [apply (H k d E)|].
    by rewrite lookup_empty.
Qed.

Lemma load_nodes_spec S rows t :
  parents_in S t -> Forall (fun r => nd_parent r ∈ S) rows ->
  exists t', load_nodes rows t = (Ok tt, t') /\ names t' = names t /\
    dom (nodes t') = dom (nodes t) ∪ list_to_set (node_ids rows) /\
    parents_in S t'.
Proof.
  intros Hp Hall. revert t Hp. unfold node_ids.
  induction Hall as [|r rows Hr _ IH]; intros t Hp.
  - exists t. simpl. split; [done|]. split; [done|]. split; [set_union_tac|done].
  - simpl. unfold tax_bind. simpl.
    destruct (IH (nodes_set (nd_id r) "rank" (nd_rank r)
                    (nodes_set (nd_id r) "parent" (nd_parent r) t).2).2)
      as (t' & Hl & Hn & Hd & Hp').
    { apply parents_in_nodes_set; [|done]. by apply parents_in_nodes_set. }
    exists t'. simpl in *. split; [done|]. split; [done|]. split; [|done].
    rewrite Hd, !dom_insert_L. simpl. set_union_tac.
Qed.

Lemma load_merged_inv S rows t t' :
  load_merged rows t = (Ok tt, t') -> load_inv S t -> load_inv S t'.
Proof.
  revert t. induction rows as [|r rows IH]; intros t; simpl.
  - by intros [= <-].
  - intros H Hinv. apply tax_bind_inv in H as (known & t1 & Hk & H).
    injection Hk as <- <-.
    apply tax_bind_inv in H as ([] & t2 & Hrow & Hrest).
    apply (IH _ Hrest). clear IH Hrest.
    destruct (bool_decide (is_Some (names t !! mg_new r))); [|by injection Hrow as <-].
    destruct Hinv as (Hd & Hs & Hp).
    apply tax_bind_inv in Hrow as (n & s1 & Hn & Hrow).
    apply names_get_ok in Hn as [-> _].
    apply tax_bind_inv in Hrow as ([] & s2 & Hs2 & Hrow).
    injection Hs2 as <-.
    apply tax_bind_inv in Hrow as (p & s3 & Hp3 & Hrow).
    apply nodes_get_ok in Hp3 as [-> (d & Hd3 & Hp3)]. simpl in Hd3.
    assert (p ∈ S) as HpS.
    { specialize (Hp _ _ Hd3). simpl in Hp. by rewrite Hp3 in Hp. }
    apply tax_bind_inv in Hrow as ([] & s4 & Hs4 & Hrow).
    injection Hs4 as <-.
    apply tax_bind_inv in Hrow as (k & s5 & Hk5 & Hrow).
    apply nodes_get_ok in Hk5 as [-> _].
    injection Hrow as <-.
    split; [|split].
    + simpl. rewrite !dom_insert_L, Hd. set_union_tac.
    + simpl. rewrite !dom_insert_L. intros x Hx. apply Hs in Hx.
      rewrite !elem_of_union. tauto.
    + apply (parents_in_nodes_set S
               (nodes_set (mg_old r) "parent" p
                  (names_set (mg_old r) "name" n t).2).2 (mg_old r) "rank" k); [|done].
      apply (parents_in_nodes_set S (names_set (mg_old r) "name" n t).2
               (mg_old r) "parent" p); [|done].
      exact Hp.
Qed.

Lemma tax_raises_only_ret {A} e0 (a : A) : tax_raises_only e0 (tax_ret a).
Proof. intros t e. done. Qed.

Lemma tax_raises_only_bind {A B} e0 (m : Tax A) (k : A -> Tax B) :
  tax_raises_only e0 m -> (forall a, tax_raises_only e0 (k a)) ->
  tax_raises_only e0 (tax_bind m k).
Proof.
  intros Hm Hk t e. unfold tax_bind.
  specialize (Hm t). destruct (m t) as [[a|e'] t1]; simpl in *.
  - apply Hk.
  - intros [= <-]. by apply Hm.
Qed.

Lemma tax_raises_only_nodes_get k key : tax_raises_only KeyError (nodes_get k key).
Proof.
  intros t e. unfold nodes_get, tax_bind, nodes_item, dict_get.
  destruct (nodes t !! k) as [d|]; simpl.
  - destruct (d !! key); simpl; [done|]. by intros [= <-].
  - rewrite lookup_empty. simpl. by intros [= <-].
Qed.

Lemma tax_raises_only_names_get k key : tax_raises_only KeyError (names_get k key).
Proof.
  intros t e. unfold names_get, tax_bind, names_item, dict_get.
  destruct (names t !! k) as [d|]; simpl.
  - destruct (d !! key); simpl; [done|]. by intros [= <-].
  - rewrite lookup_empty. simpl. by intros [= <-].
Qed.

Lemma tax_raises_only_load_nodes rows : tax_raises_only KeyError (load_nodes rows).
Proof.
  induction rows as [|r rows IH]; simpl; [apply tax_raises_only_ret|].
  apply tax_raises_only_bind; [by intros t e|]. intros _.
  apply tax_raises_only_bind; [by intros t e|]. intros _. exact IH.
Qed.

Lemma tax_raises_only_load_merged rows : tax_raises_only KeyError (load_merged rows).
Proof.
  induction rows as [|r rows IH]; simpl; [apply tax_raises_only_ret|].
  apply tax_raises_only_bind; [by intros t e|]. intros known.
  apply tax_raises_only_bind; [|intros _; exact IH].
  destruct known; [|apply tax_raises_only_ret].
  apply tax_raises_only_bind; [apply tax_raises_only_names_get|]. intros n.
  apply tax_raises_only_bind; [by intros t e|]. intros _.
  apply tax_raises_only_bind; [apply tax_raises_only_nodes_get|]. intros p.
  apply tax_raises_only_bind; [by intros t e|]. intros _.
  apply tax_raises_only_bind; [apply tax_raises_only_nodes_get|]. intros k.
  by intros t e.
Qed.

(** X15. [load_taxdata] fails with 'Taxonomy names load failed' exactly when
    the names file has no line of scientific name; whatever the nodes file
    and the merged file hold, no other step of the load raises that
    exception. *)
Theorem load_taxdata_fails_without_scientific_names name_rows node_rows merged_rows :
  (load_taxdata name_rows node_rows merged_rows).1 = Raise LoadFailed
  <-> Forall (fun r => nr_class r <> scientific_name) name_rows.
Proof.
  unfold load_taxdata.
  destruct (load_names_spec name_rows (mkTaxonomyData ∅ ∅)) as (t1 & Hl & _ & _ & He).
  unfold tax_bind at 1. rewrite Hl. unfold tax_bind at 1.
  destruct (bool_decide_reflect (names t1 = ∅)) as [Hempty|Hfull].
  - split; [|done]. intros _. by apply He in Hempty as [_ H].
  - split.
    + intros H. exfalso.
      assert (LoadFailed = KeyError); [|done].
      revert H. apply tax_raises_only_bind; [apply tax_raises_only_load_nodes|].
      intros _. apply tax_raises_only_bind; [apply tax_raises_only_load_merged|].
      intros _. apply tax_raises_only_bind; [by intros t e|]. intros _.
      apply tax_raises_only_bind; [by intros t e|]. intros _.
      apply tax_raises_only_bind; [by intros t e|]. intros _.
      by intros t e.
    + intros H. exfalso. apply Hfull, He. done.
Qed.

Lemma load_taxdata_tail t3 t :
  (let* _ := names_set UNKNOWN_TAXONOMY_ID "name" "Unknown" in
   let* _ := nodes_set UNKNOWN_TAXONOMY_ID "parent" ROOT_TAXONOMY_ID in
   let* _ := nodes_set UNKNOWN_TAXONOMY_ID "rank" "norank" in
   nodes_set ROOT_TAXONOMY_ID "rank" "norank") t3 = (Ok tt, t) ->
  t = (nodes_set ROOT_TAXONOMY_ID "rank" "norank"
         (nodes_set UNKNOWN_TAXONOMY_ID "rank" "norank"
            (nodes_set UNKNOWN_TAXONOMY_ID "parent" ROOT_TAXONOMY_ID
               (names_set UNKNOWN_TAXONOMY_ID "name" "Unknown" t3).2).2).2).2.
Proof. unfold tax_bind. simpl. by intros [= <-]. Qed.

Lemma load_taxdata_inv name_rows node_rows merged_rows t :
  load_taxdata name_rows node_rows merged_rows = (Ok tt, t) ->
  exists t1 t2 t3,
    load_names name_rows (mkTaxonomyData ∅ ∅) = (Ok tt, t1) /\
    load_nodes node_rows t1 = (Ok tt, t2) /\
    load_merged merged_rows t2 = (Ok tt, t3) /\
    t = (nodes_set ROOT_TAXONOMY_ID "rank" "norank"
           (nodes_set UNKNOWN_TAXONOMY_ID "rank" "norank"
              (nodes_set UNKNOWN_TAXONOMY_ID "parent" ROOT_TAXONOMY_ID
                 (names_set UNKNOWN_TAXONOMY_ID "name" "Unknown" t3).2).2).2).2.
Proof.
  unfold load_taxdata. intros H.
  apply tax_bind_inv in H as ([] & t1 & H1 & H).
  apply tax_bind_inv in H as (empty & t1' & He & H). injection He as <- <-.
  destruct (bool_decide (names t1 = ∅)); [done|].
  apply tax_bind_inv in H as ([] & t2 & H2 & H).
  apply tax_bind_inv in H as ([] & t3 & H3 & H).
  apply load_taxdata_tail in H. by exists t1, t2, t3.
Qed.

Lemma nodes_set_lookup k key v t :
  nodes (nodes_set k key v t).2 !! k = Some (<[key := v]> (default ∅ (nodes t !! k))).
Proof. unfold nodes_set. cbn [snd nodes]. apply lookup_insert_eq. Qed.

Lemma nodes_set_lookup_ne k k' key v t :
  k <> k' -> nodes (nodes_set k key v t).2 !! k' = nodes t !! k'.
Proof. intros H. unfold nodes_set. cbn [snd nodes]. by apply lookup_insert_ne. Qed.

Lemma nodes_set_names k key v t : names (nodes_set k key v t).2 = names t.
Proof. done. Qed.

Lemma names_set_lookup k key v t :
  names (names_set k key v t).2 !! k = Some (<[key := v]> (default ∅ (names t !! k))).
Proof. unfold names_set. cbn [snd names]. apply lookup_insert_eq. Qed.

(** X16. When [load_taxdata] returns, the reserved entries are the injected
    ones, whatever the files hold for the ids ['0'] and ['1']: the unknown
    id ['0'] has the name 'Unknown', the parent ['1'] and the rank 'norank',
    and the root ['1'] has the rank 'norank'. *)
Theorem load_taxdata_reserved_entries name_rows node_rows merged_rows t :
  load_taxdata name_rows node_rows merged_rows = (Ok tt, t) ->
  (names t !! UNKNOWN_TAXONOMY_ID ≫= (fun d => d !! "name")) = Some "Unknown" /\
  parent_of t UNKNOWN_TAXONOMY_ID = Some ROOT_TAXONOMY_ID /\
  rank_of t UNKNOWN_TAXONOMY_ID = Some "norank" /\
  rank_of t ROOT_TAXONOMY_ID = Some "norank".
Proof.
  intros H. apply load_taxdata_inv in H as (t1 & t2 & t3 & _ & _ & _ & ->).
  assert (ROOT_TAXONOMY_ID <> UNKNOWN_TAXONOMY_ID) as Hne by done.
  assert ("rank" <> "parent") as Hkey by done.
  unfold parent_of, rank_of.
  rewrite !nodes_set_names, names_set_lookup.
  rewrite nodes_set_lookup.
  rewrite (nodes_set_lookup_ne _ _ _ _ _ Hne).
  rewrite !nodes_set_lookup.
  cbn [mbind option_bind default]. unfold id.
  split; [apply lookup_insert_eq|]. split; [|split; apply lookup_insert_eq].
  rewrite (lookup_insert_ne _ _ _ _ Hkey). apply lookup_insert_eq.
Qed.

Lemma load_taxdata_reserved_entries_witness :
  (names sample_tree !! UNKNOWN_TAXONOMY_ID ≫= (fun d => d !! "name")) = Some "Unknown" /\
  parent_of sample_tree UNKNOWN_TAXONOMY_ID = Some ROOT_TAXONOMY_ID /\
  rank_of sample_tree UNKNOWN_TAXONOMY_ID = Some "norank" /\
  rank_of sample_tree ROOT_TAXONOMY_ID = Some "norank".
Proof.
  apply (load_taxdata_reserved_entries
           [sample_name "1"; sample_name "A"; sample_name "B"; sample_name "C";
            sample_name "D"; sample_name "E"; sample_name "X"; sample_name "Y"]
           [mkNodeRow "1" "1" "no rank"; mkNodeRow "A" "1" "phylum";
            mkNodeRow "B" "A" "class"; mkNodeRow "C" "B" "species";
            mkNodeRow "D" "A" "class"; mkNodeRow "E" "D" "species";
            mkNodeRow "X" "1" "phylum"; mkNodeRow "Y" "X" "genus"] [] sample_tree).
  vm_compute. reflexivity.
Defined.

(** X17. A load of consistent files gives closed tables. When [load_taxdata]
    returns, if the ids of the nodes file are the ids that have a line of
    scientific name, the root ['1'] is one of them, and the parent of every
    line of the nodes file is one of them, then the tables are closed: names
    and nodes have the same ids, the root and the unknown id among them, and
    every recorded parent is an id of nodes, whatever the merged file
    holds. *)
Theorem load_taxdata_closed name_rows node_rows merged_rows t :
  load_taxdata name_rows node_rows merged_rows = (Ok tt, t) ->
  (forall id, id ∈ scientific_ids name_rows <-> id ∈ node_ids node_rows) ->
  ROOT_TAXONOMY_ID ∈ node_ids node_rows ->
  Forall (fun r => nd_parent r ∈ node_ids node_rows) node_rows ->
  tax_closed t.
Proof.
  intros H Hids Hroot Hparents.
  apply load_taxdata_inv in H as (t1 & t2 & t3 & H1 & H2 & H3 & ->).
  set (S := list_to_set (node_ids node_rows) : gset string).
  destruct (load_names_spec name_rows (mkTaxonomyData ∅ ∅))
    as (t1' & H1' & Hn1 & Hd1 & _).
  rewrite H1 in H1'. injection H1' as <-. simpl in Hn1, Hd1.
  assert (parents_in S t1) as Hp1.
  { unfold parents_in. rewrite Hn1. apply map_Forall_empty. }
  assert (Forall (fun r => nd_parent r ∈ S) node_rows) as HpS.
  { eapply Forall_impl; [exact Hparents|]. intros r Hr.
    by apply elem_of_list_to_set. }
  destruct (load_nodes_spec S node_rows t1 Hp1 HpS) as (t2' & H2' & Hn2 & Hd2 & Hp2).
  rewrite H2 in H2'. injection H2' as <-.
  assert (dom (nodes t2) = S) as HdS.
  { rewrite Hd2, Hn1, dom_empty_L. fold S. set_union_tac. }
  assert (load_inv S t2) as Hinv.
  { split; [|split; [by rewrite HdS|done]].
    rewrite Hn2, Hd1, HdS, dom_empty_L. apply set_eq. intros x.
    rewrite elem_of_union, elem_of_empty. unfold S.
    rewrite !elem_of_list_to_set, Hids. tauto. }
  apply (load_merged_inv S _ _ _ H3) in Hinv as (Hd3 & Hs3 & Hp3).
  assert (ROOT_TAXONOMY_ID ∈ S) as HrS by by apply elem_of_list_to_set.
  pose proof (Hs3 _ HrS) as Hr3.
  assert (parents_in S
            (nodes_set ROOT_TAXONOMY_ID "rank" "norank"
               (nodes_set UNKNOWN_TAXONOMY_ID "rank" "norank"
                  (nodes_set UNKNOWN_TAXONOMY_ID "parent" ROOT_TAXONOMY_ID
                     (names_set UNKNOWN_TAXONOMY_ID "name" "Unknown" t3).2).2).2).2)
    as Hp.
  { apply parents_in_nodes_set; [|done]. apply parents_in_nodes_set; [|done].
    apply parents_in_nodes_set; [|done]. exact Hp3. }
  assert (dom (nodes
            (nodes_set ROOT_TAXONOMY_ID "rank" "norank"
               (nodes_set UNKNOWN_TAXONOMY_ID "rank" "norank"
                  (nodes_set UNKNOWN_TAXONOMY_ID "parent" ROOT_TAXONOMY_ID
                     (names_set UNKNOWN_TAXONOMY_ID "name" "Unknown" t3).2).2).2).2)
          = {[UNKNOWN_TAXONOMY_ID]} ∪ dom (nodes t3)) as Hdn.
  { unfold nodes_set, names_set. cbn [snd nodes names]. rewrite !dom_insert_L.
    apply set_eq. intros x. rewrite !elem_of_union, !elem_of_singleton.
    split; [|tauto]. intros [->|[?|[?|?]]]; auto. }
  split; [|split; [|split]].
  - rewrite Hdn. unfold nodes_set, names_set. cbn [snd nodes names].
    rewrite dom_insert_L, Hd3. done.
  - rewrite Hdn. apply elem_of_union. left. by apply elem_of_singleton.
  - rewrite Hdn. apply elem_of_union. by right.
  - eapply map_Forall_impl; [exact Hp|]. intros k d Hd. simpl in Hd.
    destruct (d !! "parent") as [p|]; [|done].
    rewrite Hdn. apply elem_of_union. right. by apply Hs3.
Qed.

Lemma load_taxdata_closed_witness : tax_closed sample_tree.
Proof.
  apply (load_taxdata_closed
           [sample_name "1"; sample_name "A"; sample_name "B"; sample_name "C";
            sample_name "D"; sample_name "E"; sample_name "X"; sample_name "Y"]
           [mkNodeRow "1" "1" "no rank"; mkNodeRow "A" "1" "phylum";
            mkNodeRow "B" "A" "class"; mkNodeRow "C" "B" "species";
            mkNodeRow "D" "A" "class"; mkNodeRow "E" "D" "species";
            mkNodeRow "X" "1" "phylum"; mkNodeRow "Y" "X" "genus"] [] sample_tree).
  - vm_compute. reflexivity.
  - intros id. vm_compute. tauto.
  - apply (bool_decide_unpack _). vm_compute. exact I.
  - apply (bool_decide_unpack _). vm_compute. exact I.
Defined.

(* --------------------------------------------------------------------- *)
(** ** What the ranked queries return *)
(* --------------------------------------------------------------------- *)

Lemma nodes_get_rank t k v t' :
  nodes_get k "rank" t = (Ok v, t') -> t' = t /\ rank_of t k = Some v.
Proof.
  intros H. apply nodes_get_ok in H as [-> (d & Hd & Hv)]. split; [done|].
  unfold rank_of. by rewrite Hd.
Qed.

Lemma nodes_get_parent_ok t k v t' :
  nodes_get k "parent" t = (Ok v, t') -> t' = t /\ parent_of t k = Some v.
Proof.
  intros H. apply nodes_get_ok in H as [-> (d & Hd & Hv)]. split; [done|].
  unfold parent_of. by rewrite Hd.
Qed.

Lemma nth_parent_snoc t n k u p :
  nth_parent t n k = Some u -> parent_of t u = Some p ->
  nth_parent t (S n) k = Some p.
Proof.
  revert k. induction n as [|n IH]; intros k; simpl.
  - intros [= ->] ->. done.
  - destruct (parent_of t k) as [q|]; simpl; [|done]. apply IH.
Qed.

Lemma ranked_ancestor_ok t RANKS fuel u0 u t' :
  ranked_ancestor RANKS fuel u0 t = (Ok u, t') ->
  t' = t /\ (exists n, nth_parent t n u0 = Some u) /\
  (u = ROOT_TAXONOMY_ID \/ exists r, rank_of t u = Some r /\ r ∈ RANKS).
Proof.
  revert u0. induction fuel as [|fuel IH]; intros u0; simpl; [done|].
  destruct (String.eqb_spec u0 ROOT_TAXONOMY_ID) as [->|Hne].
  - intros [= <- <-]. split; [done|]. split; [by exists 0%nat|by left].
  - intros H. apply tax_bind_inv in H as (rank & t1 & Hr & H).
    apply nodes_get_rank in Hr as [-> Hr].
    destruct (bool_decide_reflect (rank ∈ RANKS)) as [Hin|Hout].
    + injection H as <- <-. split; [done|]. split; [by exists 0%nat|].
      right. by exists rank.
    + apply tax_bind_inv in H as (p & t1 & Hp & H).
      apply nodes_get_parent_ok in Hp as [-> Hp].
      apply tax_bind_inv in H as (r' & t1 & Hr' & H).
      apply nodes_get_rank in Hr' as [-> _].
      apply IH in H as (-> & [n Hn] & Hu). split; [done|]. split; [|done].
      exists (S n). simpl. by rewrite Hp.
Qed.

(** X18. What [get_lca2] returns on a list that is not a singleton: the
    unknown id ['0'], the root ['1'], or an id of [nodes] whose rank is one of
    [RANKS]; and the tables are then as they were. *)
Theorem get_lca2_returns_ranked_taxon t RANKS fuel ids u t' :
  length ids <> 1%nat ->
  get_lca2 RANKS fuel ids t = (Ok u, t') ->
  t' = t /\
  (u = UNKNOWN_TAXONOMY_ID \/ u = ROOT_TAXONOMY_ID \/
   exists r, rank_of t u = Some r /\ r ∈ RANKS).
Proof.
  intros Hlen H.
  assert ((let* taxonomic_levels := levels_loop2 fuel ids ∅ in
           if (size taxonomic_levels =? 0)%nat then tax_ret UNKNOWN_TAXONOMY_ID
           else
             let* ret_val :=
               set_pop (last_good (drop 1 RANKS) taxonomic_levels
                          [ROOT_TAXONOMY_ID]) in
             let* lca_rank := nodes_get ret_val "rank" in
             ranked_ancestor RANKS fuel ret_val) t = (Ok u, t')) as Hgen.
  { unfold get_lca2 in H. destruct ids as [|id [|id' ids]]; [done| |done].
    simpl in Hlen. lia. }
  clear H. apply tax_bind_inv in Hgen as (levels & t1 & Hl & H).
  apply (tax_safe_ok _ _ _ _ (tax_safe_levels_loop2 _ _ _)) in Hl. subst t1.
  destruct (size levels =? 0)%nat.
  { injection H as <- <-. split; [done|]. by left. }
  apply tax_bind_inv in H as (u0 & t1 & Hpop & H).
  apply (tax_safe_ok _ _ _ _ (tax_safe_set_pop _)) in Hpop. subst t1.
  apply tax_bind_inv in H as (r0 & t1 & Hr & H).
  apply nodes_get_rank in Hr as [-> _].
  apply ranked_ancestor_ok in H as (-> & _ & Hu). split; [done|]. by right.
Qed.

Lemma get_lca2_returns_ranked_taxon_witness :
  sample_tree = sample_tree /\
  ("1" = UNKNOWN_TAXONOMY_ID \/ "1" = ROOT_TAXONOMY_ID \/
   exists r, rank_of sample_tree "1" = Some r /\ r ∈ sample_ranks).
Proof.
  apply (get_lca2_returns_ranked_taxon sample_tree sample_ranks 10 ["C"; "E"]
           "1" sample_tree).
  - simpl. lia.
  - vm_compute. reflexivity.
Defined.

Lemma upper_level_loop_ok t RANKS fuel current u r t' :
  upper_level_loop RANKS fuel current t = (Ok (u, r), t') ->
  t' = t /\ rank_of t u = Some r /\
  (u = ROOT_TAXONOMY_ID \/ r ∈ RANKS) /\
  exists n, nth_parent t n current = Some u.
Proof.
  revert current. induction fuel as [|fuel IH]; intros current; simpl; [done|].
  destruct (String.eqb_spec current "1") as [->|Hne].
  - intros H. apply tax_bind_inv in H as (r0 & t1 & Hr & H).
    apply nodes_get_rank in Hr as [-> Hr]. injection H as <- <- <-.
    split; [done|]. split; [done|]. split; [by left|by exists 0%nat].
  - intros H. apply tax_bind_inv in H as (p & t1 & Hp & H).
    apply nodes_get_parent_ok in Hp as [-> Hp].
    apply tax_bind_inv in H as (r0 & t1 & Hr & H).
    apply nodes_get_rank in Hr as [-> Hr].
    destruct (bool_decide_reflect (r0 ∈ RANKS)) as [Hin|Hout].
    + injection H as <- <- <-. split; [done|]. split; [done|]. split; [by right|].
      exists 1%nat. simpl. by rewrite Hp.
    + apply IH in H as (-> & Hrank & Hu & [n Hn]).
      split; [done|]. split; [done|]. split; [done|].
      exists (S n). simpl. by rewrite Hp.
Qed.

(** X19. What [get_upper_level_taxon] returns: a taxon with the rank recorded
    for it in [nodes], which is the unknown id ['0'], the root ['1'], or has a
    rank of [RANKS]; for a taxon known to [names] other than the root it is a
    proper ancestor of the taxon (reached by one or more parent links); and
    the tables are then as they were. *)
Theorem get_upper_level_taxon_returns_ranked_ancestor t RANKS fuel taxonomy_id u r t' :
  get_upper_level_taxon RANKS fuel taxonomy_id t = (Ok (u, r), t') ->
  t' = t /\ rank_of t u = Some r /\
  (u = UNKNOWN_TAXONOMY_ID \/ u = ROOT_TAXONOMY_ID \/ r ∈ RANKS) /\
  (taxonomy_id ∈ dom (names t) -> taxonomy_id <> ROOT_TAXONOMY_ID ->
   exists n, nth_parent t (S n) taxonomy_id = Some u).
Proof.
  unfold get_upper_level_taxon. intros H.
  apply tax_bind_inv in H as (known & t1 & Hk & H). injection Hk as <- <-.
  destruct (bool_decide_reflect (is_Some (names t !! taxonomy_id))) as [Hin|Hout];
    simpl in H.
  2:{ apply tax_bind_inv in H as (r0 & t1 & Hr & H).
      apply nodes_get_rank in Hr as [-> Hr]. injection H as <- <- <-.
      split; [done|]. split; [done|]. split; [by left|].
      intros Hd. by apply elem_of_dom in Hd. }
  apply tax_bind_inv in H as (p & t1 & Hp & H).
  apply nodes_get_parent_ok in Hp as [-> Hp].
  apply tax_bind_inv in H as (r0 & t1 & Hr & H).
  apply nodes_get_rank in Hr as [-> Hr].
  destruct (String.eqb_spec p UNKNOWN_TAXONOMY_ID) as [->|Hp0].
  { apply tax_bind_inv in H as (r1 & t1 & Hr1 & H).
    apply nodes_get_rank in Hr1 as [-> Hr1]. injection H as <- <- <-.
    split; [done|]. split; [done|]. split; [by left|].
    intros _ _. exists 0%nat. simpl. by rewrite Hp. }
  destruct (String.eqb_spec taxonomy_id ROOT_TAXONOMY_ID) as [->|Hid].
  { apply tax_bind_inv in H as (r1 & t1 & Hr1 & H).
    apply nodes_get_rank in Hr1 as [-> Hr1]. injection H as <- <- <-.
    split; [done|]. split; [done|]. split; [by right; left|]. done. }
  destruct (bool_decide_reflect (r0 ∈ RANKS)) as [Hr0|Hr0].
  { injection H as <- <- <-. split; [done|]. split; [done|].
    split; [by right; right|]. intros _ _. exists 0%nat. simpl. by rewrite Hp. }
  apply upper_level_loop_ok in H as (-> & Hrank & Hu & [n Hn]).
  split; [done|]. split; [done|]. split; [destruct Hu; auto|].
  intros _ _. exists n. simpl. by rewrite Hp.
Qed.

Lemma get_upper_level_taxon_returns_ranked_ancestor_witness :
  exists n, nth_parent sample_tree (S n) "C" = Some "B".
Proof.
  destruct (get_upper_level_taxon_returns_ranked_ancestor sample_tree sample_ranks 10
              "C" "B" "class" sample_tree) as (_ & _ & _ & H).
  - vm_compute. reflexivity.
  - apply H; [|done]. apply elem_of_dom. vm_compute. by eexists.
Defined.

Lemma sanitize_clean s : clean_string (sanitize s).
Proof.
  unfold clean_string. induction s as [|a s IH]; simpl; [constructor|].
  constructor; [|exact IH].
  destruct (Ascii.eqb_spec a " ") as [->|H1]; simpl; [done|].
  destruct (Ascii.eqb_spec a "(") as [->|H2]; simpl; [done|].
  destruct (Ascii.eqb_spec a ")") as [->|H3]; simpl; done.
Qed.

(** X20. The lineage string of a taxon has no space and no parenthesis:
    whatever the names recorded in the tables, a string returned by
    [get_lineage_string] or [get_taxonomy_lineage] holds none of the
    characters [' '], ['('] and [')']. *)
Theorem lineage_string_is_clean t RANKS fuel taxonomy_id s t' :
  get_lineage_string RANKS fuel taxonomy_id t = (Ok s, t') \/
  get_taxonomy_lineage RANKS fuel taxonomy_id t = (Ok s, t') ->
  clean_string s.
Proof.
  assert (get_lineage_string RANKS fuel taxonomy_id t = (Ok s, t') -> clean_string s)
    as Hone.
  { unfold get_lineage_string. intros H.
    apply tax_bind_inv in H as (present & t1 & Hp & H). injection Hp as <- <-.
    destruct (negb _).
    - injection H as <- <-. constructor.
    - apply tax_bind_inv in H as (n & t1 & _ & H).
      apply tax_bind_inv in H as (p & t2 & _ & H).
      apply tax_bind_inv in H as (l & t3 & _ & H).
      injection H as <- <-. apply sanitize_clean. }
  intros [H|H]; apply Hone; exact H.
Qed.

Lemma lineage_string_is_clean_witness :
  clean_string "taxon_B_taxon_C".
Proof.
  apply (lineage_string_is_clean sample_tree sample_ranks 10 "C"
           "taxon_B_taxon_C" sample_tree).
  left. vm_compute. reflexivity.
Defined.

(* --------------------------------------------------------------------- *)
(** ** Further properties of parse_fastq_seqid *)
(* --------------------------------------------------------------------- *)

Lemma has_space_false s :
  has_space s = false <-> " "%char ∉ list_ascii_of_string s.
Proof. unfold has_space. apply bool_decide_eq_false. Qed.

Lemma split_char_no_sep c s :
  Forall (fun t => c ∉ list_ascii_of_string t) (split_char c s).
Proof.
  induction s as [|a s IH]; simpl.
  - constructor; [|constructor]. simpl. apply not_elem_of_nil.
  - destruct (Ascii.eqb_spec a c) as [->|Hne].
    + constructor; [|exact IH]. simpl. apply not_elem_of_nil.
    + destruct (split_char c s) as [|t ts].
      * constructor; [|constructor]. simpl. intros H.
        apply elem_of_cons in H as [->|H]; [done|]. by apply not_elem_of_nil in H.
      * apply Forall_cons in IH as [Ht Hts]. constructor; [|exact Hts].
        simpl. intros H. apply elem_of_cons in H as [->|H]; done.
Qed.

Lemma substring_no_char c n m s :
  c ∉ list_ascii_of_string s -> c ∉ list_ascii_of_string (String.substring n m s).
Proof.
  revert n m. induction s as [|a s IH]; intros n m Hc.
  - destruct n, m; simpl; apply not_elem_of_nil.
  - simpl in Hc. apply not_elem_of_cons in Hc as [Hne Hc].
    destruct n as [|n]; [destruct m as [|m]|]; simpl.
    + apply not_elem_of_nil.
    + apply not_elem_of_cons. split; [done|]. by apply IH.
    + by apply IH.
Qed.

Lemma substring_length_le n m s : (String.length (String.substring n m s) <= m)%nat.
Proof.
  revert n m. induction s as [|a s IH]; intros n m.
  - destruct n, m; simpl; lia.
  - destruct n as [|n]; [destruct m as [|m]|]; simpl; [lia| |apply IH].
    specialize (IH 0%nat m). lia.
Qed.

Lemma first_char_length s e : first_char s = Some e -> String.length e = 1%nat.
Proof. destruct s; [done|]. by intros [= <-]. Qed.

(** X21. What [parse_fastq_seqid] returns, for every line: a read identifier
    that holds no space, and an end identifier of at most one character. *)
Theorem parse_fastq_seqid_result line rid e :
  parse_fastq_seqid line = Ok (rid, e) ->
  has_space rid = false /\ (String.length e <= 1)%nat.
Proof.
  unfold parse_fastq_seqid.
  set (l := if String.prefix "@" line then drop_first line else line).
  destruct (has_space l) eqn:Hsp.
  - pose proof (split_char_no_sep " " l) as Htok.
    destruct (split_char " " l) as [|t0 ts]; [done|].
    apply Forall_cons in Htok as [Ht0 _].
    assert (forall x, Ok (t0, "") = Ok (rid, x) -> has_space rid = false) as Hplain.
    { intros x [= <- _]. by apply has_space_false. }
    assert (Ok (drop_last2 t0, last_char t0) = Ok (rid, e) ->
            has_space rid = false /\ (String.length e <= 1)%nat) as Hsra.
    { intros [= <- <-]. split; [|apply substring_length_le].
      apply has_space_false. by apply substring_no_char. }
    destruct ts as [|t1 [|t2 [|t3 ts]]].
    + intros [= <- <-]. split; [by apply has_space_false|simpl; lia].
    + destruct (first_char t1) as [x|] eqn:Hx; [|done]. intros [= <- <-].
      split; [by apply has_space_false|]. apply first_char_length in Hx. lia.
    + destruct (endswith t0 ".1" || endswith t0 ".2"); [exact Hsra|].
      intros [= <- <-]. split; [by apply has_space_false|simpl; lia].
    + intros [= <- <-]. split; [by apply has_space_false|simpl; lia].
  - assert (Ok (drop_last2 l, last_char l) = Ok (rid, e) ->
            has_space rid = false /\ (String.length e <= 1)%nat) as Hend.
    { intros [= <- <-]. split; [|apply substring_length_le].
      apply has_space_false, substring_no_char. by apply has_space_false. }
    destruct (endswith l "/1" || endswith l "/2"); [exact Hend|].
    destruct (endswith l ".1" || endswith l ".2"); [exact Hend|].
    intros [= <- <-]. split; [done|simpl; lia].
Qed.

Lemma parse_fastq_seqid_result_witness :
  has_space "SRR1.7" = false /\ (String.length "1" <= 1)%nat.
Proof.
  apply (parse_fastq_seqid_result "@SRR1.7 1:N:0:ACGT" "SRR1.7" "1"). reflexivity.
Defined.

Lemma list_ascii_of_string_app a b :
  list_ascii_of_string (String.append a b)
  = list_ascii_of_string a ++ list_ascii_of_string b.
Proof.
  induction a as [|c a IH]; [done|]. change (String c a +:+ b) with (String c (a +:+ b)).
  simpl. by rewrite IH.
Qed.

Lemma has_space_app_false a b :
  has_space a = false -> has_space b = false ->
  has_space (String.append a b) = false.
Proof.
  rewrite !has_space_false, list_ascii_of_string_app. intros Ha Hb H.
  apply elem_of_app in H as [H|H]; done.
Qed.

Lemma string_app_cons x a b :
  String.append (String x a) b = String x (String.append a b).
Proof. done. Qed.

Lemma string_app_nil_r a : String.append a "" = a.
Proof. induction a as [|c a IH]; [done|]. by rewrite string_app_cons, IH. Qed.

Lemma string_app_assoc_r a b c :
  String.append (String.append a b) c = String.append a (String.append b c).
Proof. induction a as [|x a IH]; [done|]. by rewrite !string_app_cons, IH. Qed.

Lemma string_rev_app a b acc :
  String.rev_app (String.append a b) acc = String.rev_app b (String.rev_app a acc).
Proof.
  revert acc. induction a as [|x a IH]; intros acc; [done|].
  rewrite string_app_cons. simpl. apply IH.
Qed.

Lemma string_length_app a b :
  String.length (String.append a b) = (String.length a + String.length b)%nat.
Proof. induction a as [|x a IH]; [done|]. rewrite string_app_cons. simpl. by rewrite IH. Qed.

Lemma substring_app_left a b :
  String.substring 0 (String.length a) (String.append a b) = a.
Proof.
  induction a as [|x a IH]; [by destruct b|]. rewrite string_app_cons. simpl.
  by rewrite IH.
Qed.

Lemma substring_app_right a b n m :
  String.substring (String.length a + n) m (String.append a b) = String.substring n m b.
Proof. induction a as [|x a IH]; [done|]. rewrite string_app_cons. simpl. exact IH. Qed.

Lemma prefix_cons a s1 b s2 :
  String.prefix (String a s1) (String b s2)
  = if ascii_dec a b then String.prefix s1 s2 else false.
Proof. done. Qed.

Lemma prefix_nil s : String.prefix "" s = true.
Proof. by destruct s. Qed.

Lemma prefix_at_app a b :
  String.prefix "@" a = false -> String.prefix "@" b = false ->
  String.prefix "@" (String.append a b) = false.
Proof.
  destruct a as [|x a]; [done|]. intros H _. rewrite string_app_cons.
  rewrite prefix_cons in *. destruct (ascii_dec "@" x); [|done].
  by rewrite prefix_nil in H.
Qed.

Lemma parse_fastq_seqid_suffix b c1 c2 :
  has_space b = false -> String.prefix "@" b = false ->
  c1 <> " "%char -> c1 <> "@"%char -> c2 <> " "%char ->
  let line := String.append b (String c1 (String c2 "")) in
  drop_last2 line = b /\ last_char line = String c2 "" /\ has_space line = false /\
  String.prefix "@" line = false /\
  forall d1 d2, endswith line (String d1 (String d2 ""))
                = Ascii.eqb d2 c2 && Ascii.eqb d1 c1.
Proof.
  intros Hsp Hat H1 H1' H2 line. unfold line.
  split; [|split; [|split; [|split]]].
  - unfold drop_last2. rewrite string_length_app. simpl.
    replace (String.length b + 2 - 2)%nat with (String.length b) by lia.
    apply substring_app_left.
  - unfold last_char. rewrite string_length_app. simpl.
    replace (String.length b + 2 - 1)%nat with (String.length b + 1)%nat by lia.
    rewrite substring_app_right. done.
  - apply has_space_app_false; [done|]. apply has_space_false. simpl.
    intros H. apply elem_of_cons in H as [H|H]; [done|].
    apply elem_of_cons in H as [H|H]; [done|]. by apply not_elem_of_nil in H.
  - apply prefix_at_app; [done|]. rewrite prefix_cons.
    destruct (ascii_dec "@" c1) as [<-|?]; done.
  - intros d1 d2. unfold endswith, String.rev. rewrite string_rev_app.
    cbn [String.rev_app]. rewrite prefix_cons.
    destruct (ascii_dec d2 c2) as [->|Hd2].
    + rewrite Ascii.eqb_refl, prefix_cons. cbn [andb].
      destruct (ascii_dec d1 c1) as [->|Hd1].
      * by rewrite Ascii.eqb_refl, prefix_nil.
      * by apply Ascii.eqb_neq in Hd1 as ->.
    + by apply Ascii.eqb_neq in Hd2 as ->.
Qed.

(** X22. The two mates of a pair get the same read identifier: for a name
    [b] with no space that does not start with ['@'], the lines [b/1] and
    [b/2] (and [b.1] and [b.2]) are read as the read [b], with the end
    identifier ['1'] or ['2']. *)
Theorem parse_fastq_seqid_mates b :
  has_space b = false -> String.prefix "@" b = false ->
  parse_fastq_seqid (String.append b "/1") = Ok (b, "1") /\
  parse_fastq_seqid (String.append b "/2") = Ok (b, "2") /\
  parse_fastq_seqid (String.append b ".1") = Ok (b, "1") /\
  parse_fastq_seqid (String.append b ".2") = Ok (b, "2").
Proof.
  intros Hsp Hat.
  assert (forall c1 c2,
             c1 <> " "%char -> c1 <> "@"%char -> c2 <> " "%char ->
             (c1 = "/"%char \/ c1 = "."%char) -> (c2 = "1"%char \/ c2 = "2"%char) ->
             parse_fastq_seqid (String.append b (String c1 (String c2 "")))
             = Ok (b, String c2 "")) as Hgen.
  { intros c1 c2 H1 H1' H2 Hc1 Hc2.
    destruct (parse_fastq_seqid_suffix b c1 c2 Hsp Hat H1 H1' H2)
      as (Hdrop & Hlast & Hsp' & Hat' & Hend).
    unfold parse_fastq_seqid. rewrite Hat', Hsp', !Hend, Hdrop, Hlast.
    destruct Hc1 as [-> | ->], Hc2 as [-> | ->]; reflexivity. }
  split; [|split; [|split]]; apply Hgen; auto; discriminate.
Qed.

Lemma parse_fastq_seqid_mates_witness :
  parse_fastq_seqid (String.append "read7" "/1") = Ok ("read7", "1") /\
  parse_fastq_seqid (String.append "read7" "/2") = Ok ("read7", "2") /\
  parse_fastq_seqid (String.append "read7" ".1") = Ok ("read7", "1") /\
  parse_fastq_seqid (String.append "read7" ".2") = Ok ("read7", "2").
Proof. apply (parse_fastq_seqid_mates "read7"); reflexivity. Defined.

Lemma split_char_no_char c s :
  c ∉ list_ascii_of_string s -> split_char c s = [s].
Proof.
  induction s as [|a s IH]; simpl; [done|]. intros H.
  apply not_elem_of_cons in H as [Hne H].
  destruct (Ascii.eqb_spec a c) as [->|_]; [done|]. by rewrite IH.
Qed.

Lemma split_char_app c a b :
  c ∉ list_ascii_of_string a ->
  split_char c (String.append a (String c b)) = a :: split_char c b.
Proof.
  induction a as [|x a IH]; simpl; intros H.
  - by rewrite Ascii.eqb_refl.
  - apply not_elem_of_cons in H as [Hne H].
    destruct (Ascii.eqb_spec x c) as [->|_]; [done|]. by rewrite IH.
Qed.

(** X23. The line [t0 t1] of two tokens separated by one space (the Casava
    format) is read as the read [t0] with the first character of [t1] as end
    identifier; when [t1] is empty, that is, when the line ends with its only
    space, the call raises [IndexError]. *)
Theorem parse_fastq_seqid_two_tokens t0 t1 :
  has_space t0 = false -> has_space t1 = false -> String.prefix "@" t0 = false ->
  parse_fastq_seqid (String.append t0 (String " " t1))
  = match first_char t1 with
    | Some e => Ok (t0, e)
    | None => Raise IndexError
    end.
Proof.
  intros H0 H1 Hat. unfold parse_fastq_seqid.
  rewrite prefix_at_app by done.
  assert (has_space (String.append t0 (String " " t1)) = true) as ->.
  { unfold has_space. apply bool_decide_eq_true.
    rewrite list_ascii_of_string_app. apply elem_of_app. right. simpl. by left. }
  rewrite split_char_app by by apply has_space_false.
  rewrite split_char_no_char by by apply has_space_false.
  done.
Qed.

Lemma parse_fastq_seqid_two_tokens_witness :
  parse_fastq_seqid (String.append "read7" (String " " ""))
  = match first_char "" with
    | Some e => Ok ("read7", e)
    | None => Raise IndexError
    end.
Proof. apply (parse_fastq_seqid_two_tokens "read7" ""); reflexivity. Defined.

(* --------------------------------------------------------------------- *)
(** ** sanitize_file_name *)
(* --------------------------------------------------------------------- *)

Lemma replace_char_chars a b s :
  list_ascii_of_string (replace_char a b s)
  = (fun c => if Ascii.eqb c a then b else c) <$> list_ascii_of_string s.
Proof. induction s as [|c s IH]; simpl; [done|]. by rewrite IH. Qed.

Lemma remove_char_chars a s :
  list_ascii_of_string (remove_char a s)
  = filter (fun c => c <> a) (list_ascii_of_string s).
Proof.
  induction s as [|c s IH]; simpl; [done|]. rewrite filter_cons.
  destruct (Ascii.eqb_spec c a) as [->|Hne].
  - rewrite decide_False by (intros H; by apply H). exact IH.
  - rewrite decide_True by done. simpl. by rewrite IH.
Qed.

Lemma replace_char_id a b s :
  a ∉ list_ascii_of_string s -> replace_char a b s = s.
Proof.
  induction s as [|c s IH]; simpl; [done|]. intros H.
  apply not_elem_of_cons in H as [Hne H].
  destruct (Ascii.eqb_spec c a) as [->|_]; [done|]. by rewrite IH.
Qed.

Lemma remove_char_id a s :
  a ∉ list_ascii_of_string s -> remove_char a s = s.
Proof.
  induction s as [|c s IH]; simpl; [done|]. intros H.
  apply not_elem_of_cons in H as [Hne H].
  destruct (Ascii.eqb_spec c a) as [->|_]; [done|]. by rewrite IH.
Qed.

Lemma remove_char_length a s : (String.length (remove_char a s) <= String.length s)%nat.
Proof.
  induction s as [|c s IH]; simpl; [lia|]. destruct (Ascii.eqb c a); simpl; lia.
Qed.

Lemma replace_char_length a b s : String.length (replace_char a b s) = String.length s.
Proof. induction s as [|c s IH]; simpl; [done|]. by rewrite IH. Qed.

Lemma sanitize_file_name_chars filename :
  Forall safe_char (list_ascii_of_string (sanitize_file_name filename)).
Proof.
  unfold sanitize_file_name. rewrite !remove_char_chars, replace_char_chars.
  apply Forall_forall. intros c Hc.
  apply list_elem_of_filter in Hc as [Hdq Hc].
  apply list_elem_of_filter in Hc as [Hsq Hc].
  apply list_elem_of_fmap in Hc as (y & -> & _).
  split; [|done]. destruct (Ascii.eqb y " ") eqn:E; [done|].
  by apply Ascii.eqb_neq.
Qed.

Lemma sanitize_file_name_id filename :
  Forall safe_char (list_ascii_of_string filename) -> sanitize_file_name filename = filename.
Proof.
  intros H. unfold sanitize_file_name.
  assert (forall a, (forall c, safe_char c -> c <> a) ->
                    a ∉ list_ascii_of_string filename) as Hno.
  { intros a Ha Hin. eapply Forall_forall in H; [|exact Hin]. by apply Ha in H. }
  rewrite (replace_char_id " " "_" filename) by (apply Hno; intros c (?&?&?); done).
  rewrite (remove_char_id "'" filename) by (apply Hno; intros c (?&?&?); done).
  apply remove_char_id. apply Hno. intros c (?&?&?); done.
Qed.

(** X24. [sanitize_file_name] returns a name with no space, no single quote
    and no double quote, and at most as long as the name it was given; a name
    that holds none of the three characters is returned as it is, so that
    sanitizing twice is the same as sanitizing once. *)
Theorem sanitize_file_name_safe filename :
  Forall safe_char (list_ascii_of_string (sanitize_file_name filename)) /\
  (String.length (sanitize_file_name filename) <= String.length filename)%nat /\
  (Forall safe_char (list_ascii_of_string filename) ->
   sanitize_file_name filename = filename) /\
  sanitize_file_name (sanitize_file_name filename) = sanitize_file_name filename.
Proof.
  split; [apply sanitize_file_name_chars|]. split; [|split].
  - unfold sanitize_file_name.
    etrans; [apply remove_char_length|]. etrans; [apply remove_char_length|].
    by rewrite replace_char_length.
  - apply sanitize_file_name_id.
  - apply sanitize_file_name_id, sanitize_file_name_chars.
Qed.

Lemma sanitize_file_name_safe_witness :
  sanitize_file_name "E_coli.fa" = "E_coli.fa".
Proof.
  apply (proj1 (proj2 (proj2 (sanitize_file_name_safe "E_coli.fa")))).
  apply (bool_decide_unpack _). vm_compute. exact I.
Defined.

(* --------------------------------------------------------------------- *)
(** ** import_protein_fasta and import_fasta *)
(* --------------------------------------------------------------------- *)

Lemma header_not_empty l : String.prefix ">" l = true -> negb (String.eqb l "") = true.
Proof. by destruct l. Qed.

Lemma protein_fasta_line_header keys st l :
  String.prefix ">" l = true ->
  let st1 := protein_fasta_line keys st l in
  let known := bool_decide (protein_id_of l ∈ keys) in
  pf_read_count st1 = (S (pf_read_count st) + pf_pending st)%nat /\
  pf_pending st1 = (if known then 1%nat else 0%nat) /\
  length (pf_writes st1) = (length (pf_writes st) + pf_pending st)%nat /\
  (pf_base_count st <= pf_base_count st1)%nat /\
  pf_pending_ok keys st1 /\
  (pf_pending_ok keys st -> Forall (fun w : fasta_write => w.1.1 ∈ keys) (pf_writes st) ->
   Forall (fun w : fasta_write => w.1.1 ∈ keys) (pf_writes st1)).
Proof.
  intros Hh. pose proof (header_not_empty l Hh) as Hne.
  unfold protein_fasta_line, pf_pending, pf_pending_ok, protein_id_of. rewrite Hh.
  destruct (negb (String.eqb (pf_current_id st) "")) eqn:Hcur;
    destruct (bool_decide_reflect (before_sep " " (drop_first l) ∈ keys)) as [Hk|Hk];
    cbn [pf_read_count pf_current_id pf_seq_id pf_writes pf_base_count];
    rewrite ?Hne; cbn [String.eqb negb];
    (split; [lia|]); (split; [done|]); (split; [rewrite ?length_app; simpl; lia|]);
    (split; [lia|]); (split; [done|]); intros Hok Hw; try exact Hw.
  - apply Forall_app. split; [exact Hw|]. constructor; [|constructor].
    simpl. by apply Hok.
  - apply Forall_app. split; [exact Hw|]. constructor; [|constructor].
    simpl. by apply Hok.
Qed.

Lemma protein_fasta_line_other keys st l :
  String.prefix ">" l = false ->
  let st1 := protein_fasta_line keys st l in
  pf_read_count st1 = pf_read_count st /\
  pf_current_id st1 = pf_current_id st /\
  pf_seq_id st1 = pf_seq_id st /\
  pf_writes st1 = pf_writes st /\
  pf_base_count st1 = (pf_base_count st + String.length l)%nat.
Proof.
  intros Hh. unfold protein_fasta_line. rewrite Hh.
  by destruct (negb (String.eqb (pf_current_id st) "")).
Qed.

Lemma last_cons_default {A} (x : A) l : last (x :: l) = Some (default x (last l)).
Proof.
  revert x. induction l as [|y l IH]; intros x; [done|].
  change (last (x :: y :: l)) with (last (y :: l)). rewrite IH. simpl.
  by destruct (last l).
Qed.

Lemma protein_fasta_loop keys lines st :
  let st' := foldl (protein_fasta_line keys) st lines in
  (pf_read_count st' + pf_pending st'
   = pf_read_count st + pf_pending st + length (header_lines lines)
     + length (known_headers keys lines))%nat /\
  (length (pf_writes st') + pf_pending st'
   = length (pf_writes st) + pf_pending st + length (known_headers keys lines))%nat /\
  (pf_base_count st + total_bases lines <= pf_base_count st')%nat /\
  pf_pending st' = match last (header_lines lines) with
                   | Some h => if bool_decide (protein_id_of h ∈ keys) then 1%nat else 0%nat
                   | None => pf_pending st
                   end /\
  (pf_pending_ok keys st -> Forall (fun w : fasta_write => w.1.1 ∈ keys) (pf_writes st) ->
   pf_pending_ok keys st' /\
   Forall (fun w : fasta_write => w.1.1 ∈ keys) (pf_writes st')).
Proof.
  revert st. unfold known_headers, header_lines, total_bases.
  induction lines as [|l lines IH]; intros st.
  - simpl. split; [lia|]. split; [lia|]. split; [lia|]. split; [done|]. auto.
  - cbn [foldl]. specialize (IH (protein_fasta_line keys st l)).
    destruct IH as (I1 & I2 & I3 & I4 & I5).
    rewrite !(filter_cons _ l).
    destruct (String.prefix ">" l) eqn:Hh.
    + destruct (protein_fasta_line_header keys st l Hh) as (S1 & S2 & S3 & S4 & S5 & S6).
      rewrite decide_True by done. rewrite decide_False by done.
      rewrite (filter_cons _ l), last_cons_default.
      split; [|split; [|split; [|split]]].
      * rewrite I1, S1, S2. destruct (bool_decide_reflect (protein_id_of l ∈ keys)).
        -- rewrite decide_True by done. simpl. lia.
        -- rewrite decide_False by done. simpl. lia.
      * rewrite I2, S2, S3. destruct (bool_decide_reflect (protein_id_of l ∈ keys)).
        -- rewrite decide_True by done. simpl. lia.
        -- rewrite decide_False by done. simpl. lia.
      * lia.
      * rewrite I4, S2. by destruct (last _).
      * intros Hok Hw. apply I5; [done|]. by apply S6.
    + destruct (protein_fasta_line_other keys st l Hh) as (S1 & S2 & S3 & S4 & S5).
      rewrite decide_False by done. rewrite decide_True by done.
      assert (pf_pending (protein_fasta_line keys st l) = pf_pending st) as Hp.
      { unfold pf_pending. by rewrite S2. }
      split; [|split; [|split; [|split]]].
      * rewrite I1, S1, Hp. done.
      * rewrite I2, S4, Hp. done.
      * simpl. lia.
      * rewrite I4, Hp. done.
      * intros Hok Hw. apply I5.
        -- unfold pf_pending_ok. rewrite S2, S3. exact Hok.
        -- by rewrite S4.
Qed.

(** X25. What [import_protein_fasta] counts. The read count it returns is the
    number of header lines plus the number of header lines that name a
    protein of the working set, less one when the last header line names
    one: a protein of the working set is counted again when the next header
    is read. The base count is at least the number of characters of the
    sequence lines. One pair of assignments is made for each header line
    that names a protein of the working set, always to a key of the working
    set. *)
Theorem import_protein_fasta_counts keys lines :
  let '(read_count, base_count, writes) := import_protein_fasta keys lines in
  (read_count + (if last_header_known keys lines then 1 else 0)
   = length (header_lines lines) + length (known_headers keys lines))%nat /\
  (total_bases lines <= base_count)%nat /\
  length writes = length (known_headers keys lines) /\
  Forall (fun w : fasta_write => w.1.1 ∈ keys) writes.
Proof.
  unfold import_protein_fasta, last_header_known.
  destruct (protein_fasta_loop keys lines (mkProteinFastaState [] "" None 0 0 []))
    as (I1 & I2 & I3 & I4 & I5).
  destruct I5 as [Hok Hw]; [by intros H|constructor|].
  set (st := foldl (protein_fasta_line keys) _ lines) in *.
  change (pf_pending (mkProteinFastaState [] "" None 0 0 [])) with 0%nat in *.
  simpl in I1, I2, I3.
  assert ((if match last (header_lines lines) with
              | Some h => bool_decide (protein_id_of h ∈ keys)
              | None => false
              end then 1 else 0)%nat = pf_pending st) as ->.
  { rewrite I4. by destruct (last _). }
  split; [lia|]. split; [lia|].
  unfold pf_pending, pf_pending_ok in *.
  destruct (negb (String.eqb (pf_current_id st) "")); [|split; [lia|done]].
  destruct (Hok eq_refl) as [-> Hin]. rewrite length_app. simpl.
  split; [lia|]. apply Forall_app. split; [done|]. by constructor.
Qed.

Lemma fasta_line_header keys st l :
  String.prefix ">" l = true ->
  let st1 := fasta_line keys st l in
  let known := bool_decide (drop_first l ∈ keys) in
  fa_read_count st1 = S (fa_read_count st) /\
  fa_base_count st1 = fa_base_count st /\
  fa_pending st1 = (if known then 1%nat else 0%nat) /\
  fa_pending_ok keys st1 /\
  (fa_pending_ok keys st ->
   length (fa_writes st1) = (length (fa_writes st) + fa_pending st)%nat /\
   (Forall (fun w : fasta_write => w.1.1 ∈ keys) (fa_writes st) ->
    Forall (fun w : fasta_write => w.1.1 ∈ keys) (fa_writes st1))).
Proof.
  intros Hh. pose proof (header_not_empty l Hh) as Hne.
  unfold fasta_line, fa_pending, fa_pending_ok. rewrite Hh.
  destruct (bool_decide_reflect (drop_first l ∈ keys)) as [Hk|Hk];
    cbn [fa_read_count fa_current_id fa_seq_id fa_writes fa_base_count truthy];
    rewrite ?Hne; (split; [done|]); (split; [done|]); (split; [done|]).
  - split; [by intros c [= <-]|]. intros Hok.
    destruct (fa_current_id st) as [c|]; [|split; [simpl; lia|done]].
    destruct (Hok c eq_refl) as (Hc & _ & Hin).
    cbn [truthy]. rewrite (header_not_empty c Hc). rewrite length_app. simpl.
    split; [lia|]. intros Hw. apply Forall_app. split; [done|]. by constructor.
  - split; [by intros c|]. intros Hok.
    destruct (fa_current_id st) as [c|]; [|split; [simpl; lia|done]].
    destruct (Hok c eq_refl) as (Hc & _ & Hin).
    cbn [truthy]. rewrite (header_not_empty c Hc). rewrite length_app. simpl.
    split; [lia|]. intros Hw. apply Forall_app. split; [done|]. by constructor.
Qed.

Lemma fasta_line_other keys st l :
  String.prefix ">" l = false ->
  let st1 := fasta_line keys st l in
  fa_read_count st1 = fa_read_count st /\
  fa_current_id st1 = fa_current_id st /\
  fa_seq_id st1 = fa_seq_id st /\
  fa_writes st1 = fa_writes st /\
  fa_base_count st1 = (fa_base_count st + String.length l)%nat.
Proof.
  intros Hh. unfold fasta_line. rewrite Hh. by destruct (fa_current_id st).
Qed.

Lemma fasta_loop keys lines st :
  fa_pending_ok keys st ->
  let st' := foldl (fasta_line keys) st lines in
  fa_read_count st' = (fa_read_count st + length (header_lines lines))%nat /\
  fa_base_count st' = (fa_base_count st + total_bases lines)%nat /\
  (length (fa_writes st') + fa_pending st'
   = length (fa_writes st) + fa_pending st
     + length (filter (fun l => drop_first l ∈ keys) (header_lines lines)))%nat /\
  fa_pending_ok keys st' /\
  (Forall (fun w : fasta_write => w.1.1 ∈ keys) (fa_writes st) ->
   Forall (fun w : fasta_write => w.1.1 ∈ keys) (fa_writes st')).
Proof.
  revert st. unfold header_lines, total_bases.
  induction lines as [|l lines IH]; intros st Hok.
  - simpl. split; [lia|]. split; [lia|]. split; [lia|]. split; [done|]. auto.
  - cbn [foldl]. rewrite !(filter_cons _ l).
    destruct (String.prefix ">" l) eqn:Hh.
    + destruct (fasta_line_header keys st l Hh) as (S1 & S2 & S3 & S4 & S5).
      destruct (S5 Hok) as [S6 S7].
      destruct (IH (fasta_line keys st l) S4) as (I1 & I2 & I3 & I4 & I5).
      rewrite decide_True by done. rewrite decide_False by done.
      rewrite (filter_cons _ l).
      split; [|split; [|split; [|split]]].
      * rewrite I1, S1. simpl. lia.
      * rewrite I2, S2. done.
      * rewrite I3, S3, S6. destruct (bool_decide_reflect (drop_first l ∈ keys)).
        -- rewrite decide_True by done. simpl. lia.
        -- rewrite decide_False by done. simpl. lia.
      * done.
      * intros Hw. by apply I5, S7.
    + destruct (fasta_line_other keys st l Hh) as (S1 & S2 & S3 & S4 & S5).
      assert (fa_pending_ok keys (fasta_line keys st l)) as Hok1.
      { unfold fa_pending_ok. rewrite S2, S3. exact Hok. }
      destruct (IH (fasta_line keys st l) Hok1) as (I1 & I2 & I3 & I4 & I5).
      rewrite decide_False by done. rewrite decide_True by done.
      assert (fa_pending (fasta_line keys st l) = fa_pending st) as Hp.
      { unfold fa_pending. by rewrite S2. }
      split; [|split; [|split; [|split]]].
      * rewrite I1, S1. done.
      * rewrite I2, S5. simpl. lia.
      * rewrite I3, S4, Hp. done.
      * done.
      * intros Hw. apply I5. by rewrite S4.
Qed.

(** X26. What [DiamondParser.import_fasta] counts: the read count it returns
    is the number of header lines and the base count is the number of
    characters of the other lines, whatever the working set holds; one pair
    of assignments is made for each header line whose id (the line without
    its first character) is a key of the working set, always to a key of the
    working set. *)
Theorem import_fasta_counts keys lines :
  let '(read_count, base_count, writes) := import_fasta keys lines in
  read_count = length (header_lines lines) /\
  base_count = total_bases lines /\
  length writes = length (filter (fun l => drop_first l ∈ keys) (header_lines lines)) /\
  Forall (fun w : fasta_write => w.1.1 ∈ keys) writes.
Proof.
  unfold import_fasta.
  destruct (fasta_loop keys lines (mkFastaState [] None None 0 0 []))
    as (I1 & I2 & I3 & Hok & Hw); [by intros c|].
  specialize (Hw (Forall_nil_2 _)).
  set (st := foldl (fasta_line keys) _ lines) in *.
  change (fa_pending (mkFastaState [] None None 0 0 [])) with 0%nat in *.
  simpl in I1, I2, I3. split; [done|]. split; [done|].
  unfold fa_pending, fa_pending_ok in *.
  destruct (fa_current_id st) as [c|]; cbn [truthy] in *; [|split; [lia|done]].
  destruct (Hok c eq_refl) as (Hc & -> & Hin).
  rewrite (header_not_empty c Hc) in *. rewrite length_app. simpl.
  split; [lia|]. apply Forall_app. split; [done|]. by constructor.
Qed.

(* --------------------------------------------------------------------- *)
(** ** The query ids of export_hit_fasta and the background pass *)
(* --------------------------------------------------------------------- *)

Lemma digit_of_digit d :
  (d < 10)%nat -> digit_of (ascii_of_nat (48 + d)) = Some (Z.of_nat d).
Proof.
  intros Hd. unfold digit_of. rewrite nat_ascii_embedding by lia.
  rewrite (proj2 (Z.leb_le 48 _)) by lia.
  rewrite (proj2 (Z.leb_le _ 57)) by lia.
  simpl. f_equal. lia.
Qed.

Lemma digits_value_digits_of_nat fuel n acc :
  (n < fuel)%nat ->
  digits_value 0 (digits_of_nat fuel n acc) = digits_value (Z.of_nat n) acc.
Proof.
  revert n acc. induction fuel as [|fuel IH]; intros n acc Hn; [lia|].
  pose proof (Nat.mod_upper_bound n 10) as Hmod.
  pose proof (Nat.div_mod_eq n 10) as Hdiv.
  cbn [digits_of_nat]. destruct (n / 10 =? 0)%nat eqn:E.
  - apply Nat.eqb_eq in E. cbn [digits_value].
    rewrite digit_of_digit by lia. f_equal. lia.
  - apply Nat.eqb_neq in E. rewrite IH by lia. cbn [digits_value].
    rewrite digit_of_digit by lia. f_equal. lia.
Qed.

Lemma digits_of_nat_not_empty fuel n acc :
  acc <> "" \/ (0 < fuel)%nat -> digits_of_nat fuel n acc <> "".
Proof.
  revert n acc. induction fuel as [|fuel IH]; intros n acc H.
  - destruct H as [H|H]; [done|lia].
  - cbn [digits_of_nat]. destruct (n / 10 =? 0)%nat; [done|]. apply IH. by left.
Qed.

Lemma digits_of_nat_chars c fuel n acc :
  (forall d, (d < 10)%nat -> c <> ascii_of_nat (48 + d)) ->
  c ∉ list_ascii_of_string acc ->
  c ∉ list_ascii_of_string (digits_of_nat fuel n acc).
Proof.
  intros Hc. revert n acc. induction fuel as [|fuel IH]; intros n acc Hacc; [done|].
  pose proof (Nat.mod_upper_bound n 10) as Hmod.
  assert (c ∉ list_ascii_of_string (String (ascii_of_nat (48 + n mod 10)) acc)) as Hacc'.
  { simpl. apply not_elem_of_cons. split; [apply Hc; lia|done]. }
  cbn [digits_of_nat]. destruct (n / 10 =? 0)%nat; [done|]. by apply IH.
Qed.

Lemma py_int_digits s v :
  s <> "" -> digits_value 0 s = Some v -> py_int s = Some v.
Proof.
  destruct s as [|a s]; [done|]. intros _ H.
  destruct a as [[] [] [] [] [] [] [] []]; try exact H; cbv in H; discriminate.
Qed.

Lemma py_int_py_str n : py_int (py_str n) = Some n.
Proof.
  unfold py_str. destruct (Z.ltb_spec n 0) as [E|E].
  - pose proof (digits_of_nat_not_empty (S (Z.to_nat (- n))) (Z.to_nat (- n)) ""
                  (or_intror (Nat.lt_0_succ _))) as Hne.
    pose proof (digits_value_digits_of_nat (S (Z.to_nat (- n))) (Z.to_nat (- n)) ""
                  (Nat.lt_succ_diag_r _)) as Hv.
    destruct (digits_of_nat _ _ _) as [|a ds]; [done|].
    cbn [py_int]. rewrite Hv. cbn [digits_value fmap option_fmap option_map].
    f_equal. lia.
  - apply py_int_digits; [by apply digits_of_nat_not_empty; right; lia|].
    rewrite digits_value_digits_of_nat by lia. cbn [digits_value]. f_equal. lia.
Qed.

Lemma py_str_no_bar n : "|"%char ∉ list_ascii_of_string (py_str n).
Proof.
  assert (forall d, (d < 10)%nat -> "|"%char <> ascii_of_nat (48 + d)) as Hd.
  { intros d Hd H. apply (f_equal nat_of_ascii) in H.
    rewrite nat_ascii_embedding in H by lia.
    change (nat_of_ascii "|") with 124%nat in H. lia. }
  unfold py_str. destruct (n <? 0)%Z.
  - cbn [list_ascii_of_string]. apply not_elem_of_cons. split; [done|].
    apply digits_of_nat_chars; [done|]. simpl. apply not_elem_of_nil.
  - apply digits_of_nat_chars; [done|]. simpl. apply not_elem_of_nil.
Qed.

Lemma split_char_not_nil c s : split_char c s <> [].
Proof.
  destruct s as [|a s]; simpl; [done|].
  destruct (Ascii.eqb a c); [done|]. by destruct (split_char c s).
Qed.

Lemma split_char_app_sep c a b :
  split_char c (a +:+ String c b) = split_char c a ++ split_char c b.
Proof.
  induction a as [|x a IH].
  - simpl. by rewrite Ascii.eqb_refl.
  - rewrite string_app_cons. cbn [split_char]. rewrite IH.
    destruct (Ascii.eqb x c); [done|].
    pose proof (split_char_not_nil c a) as Hne.
    by destruct (split_char c a).
Qed.

Lemma join_split_char c s : join (String c "") (split_char c s) = s.
Proof.
  unfold join. induction s as [|a s IH]; [done|].
  cbn [split_char]. pose proof (split_char_not_nil c s) as Hne.
  destruct (split_char c s) as [|t ts]; [done|].
  destruct (Ascii.eqb_spec a c) as [->|_].
  - change (String.concat (String c "") ("" :: t :: ts))
      with (String c (String.concat (String c "") (t :: ts))).
    by rewrite IH.
  - destruct ts as [|t' ts].
    + change (String.concat (String c "") [t]) with t in IH. by subst.
    + change (String.concat (String c "") (String a t :: t' :: ts))
        with (String a (String.concat (String c "") (t :: t' :: ts))).
      by rewrite IH.
Qed.

Lemma hit_query_id_tokens read_id hit :
  split_char "|" (hit_query_id read_id hit)
  = split_char "|" read_id ++ [py_str (q_start hit); py_str (q_end hit)].
Proof.
  unfold hit_query_id.
  change (read_id +:+ "|" +:+ py_str (q_start hit) +:+ "|" +:+ py_str (q_end hit))
    with (read_id +:+ String "|" (py_str (q_start hit) +:+ String "|" (py_str (q_end hit)))).
  rewrite !split_char_app_sep.
  rewrite (split_char_no_char "|" (py_str (q_start hit))) by apply py_str_no_bar.
  rewrite (split_char_no_char "|" (py_str (q_end hit))) by apply py_str_no_bar.
  done.
Qed.

Lemma hit_query_id_fields read_id hit :
  base_id (hit_query_id read_id hit) = read_id /\
  from_end 2 (split_char "|" (hit_query_id read_id hit)) = Some (py_str (q_start hit)) /\
  from_end 1 (split_char "|" (hit_query_id read_id hit)) = Some (py_str (q_end hit)).
Proof.
  unfold base_id. rewrite hit_query_id_tokens.
  set (l := split_char "|" read_id).
  assert (length (l ++ [py_str (q_start hit); py_str (q_end hit)])
          = (length l + 2)%nat) as Hlen by (rewrite length_app; done).
  split; [|split].
  - unfold drop_last. rewrite Hlen.
    replace (length l + 2 - 2)%nat with (length l) by lia.
    rewrite take_app_length. apply join_split_char.
  - unfold from_end. rewrite Hlen. rewrite decide_True by lia.
    replace (length l + 2 - 2)%nat with (length l + 0)%nat by lia.
    by rewrite lookup_app_r, Nat.add_comm, Nat.add_sub by lia.
  - unfold from_end. rewrite Hlen. rewrite decide_True by lia.
    replace (length l + 2 - 1)%nat with (length l + 1)%nat by lia.
    rewrite lookup_app_r by lia.
    by replace (length l + 1 - length l)%nat with 1%nat by lia.
Qed.

(** X27. The query id that [export_hit_fasta] gives to a hit of a read is
    read back by the background pass as that read and that interval: for
    every read id, also one that holds ['|'], the id
    [read_id|start|end] is split into the read id and the two integers, so
    that the group processing raises neither [IndexError] nor [ValueError]
    and calls [compare_hits_lca] on the read stored under [read_id], with
    the start and the end of the hit. *)
Theorem exported_query_id_is_read_back config ref_data lca avg cov read_id hit hl reads :
  base_id (hit_query_id read_id hit) = read_id /\
  (from_end 2 (split_char "|" (hit_query_id read_id hit)) ≫= py_int)
  = Some (q_start hit) /\
  (from_end 1 (split_char "|" (hit_query_id read_id hit)) ≫= py_int)
  = Some (q_end hit) /\
  background_group config ref_data lca avg cov (hit_query_id read_id hit) hl reads
  = match reads !! read_id with
    | Some read =>
        let '(read', _, e) :=
          compare_hits_lca read (q_start hit) (q_end hit) (annotate_hits ref_data hl)
            (biscore_range_cutoff config) avg lca ref_data cov in
        (<[read_id := read']> reads, e)
    | None => (reads, None)
    end.
Proof.
  destruct (hit_query_id_fields read_id hit) as (Hb & H2 & H1).
  split; [done|]. split; [by rewrite H2; simpl; apply py_int_py_str|].
  split; [by rewrite H1; simpl; apply py_int_py_str|].
  unfold background_group. rewrite H2, H1, !py_int_py_str, Hb. done.
Qed.

(** X28. The sequence that [export_hit_fasta] writes for a hit that lies
    within the sequence of its read is the part of the sequence from the
    smaller to the larger of the two coordinates of the hit, both included,
    whatever the strand: a hit with [q_start > q_end] gets the same
    characters, in the same order, as the hit with the coordinates
    swapped. *)
Theorem export_hit_entry_slice read sequence hit :
  (1 <= Z.min (q_start hit) (q_end hit))%Z ->
  (Z.max (q_start hit) (q_end hit) <= Z.of_nat (String.length sequence))%Z ->
  export_hit_entry read sequence hit
  = [">" +:+ hit_query_id (read_id read) hit;
     String.substring (Z.to_nat (Z.min (q_start hit) (q_end hit) - 1))
       (Z.to_nat (Z.max (q_start hit) (q_end hit)
                  - Z.min (q_start hit) (q_end hit) + 1)) sequence].
Proof.
  intros Hlo Hhi. unfold export_hit_entry.
  assert (forall a b : Z,
             (1 <= a)%Z -> (a <= b)%Z -> (b <= Z.of_nat (String.length sequence))%Z ->
             py_slice sequence (a - 1) b
             = String.substring (Z.to_nat (a - 1)) (Z.to_nat (b - a + 1)) sequence)
    as Hslice.
  { intros a b Ha Hab Hb. unfold py_slice.
    rewrite (proj2 (Z.ltb_ge (a - 1) 0)) by lia.
    rewrite (proj2 (Z.ltb_ge b 0)) by lia.
    rewrite !Z.min_l by lia. rewrite (proj2 (Z.ltb_lt (a - 1) b)) by lia.
    f_equal. lia. }
  destruct (Z.ltb_spec (q_start hit) (q_end hit)) as [E|E].
  - rewrite Z.min_l, Z.max_r in * by lia. by rewrite Hslice by lia.
  - rewrite Z.min_r, Z.max_l in * by lia. by rewrite Hslice by lia.
Qed.

Lemma export_hit_entry_slice_witness :
  export_hit_entry (sample_read (sample_hit "S1" 50 ["F1"])) "MKVLAAGIVG"
    (mkDiamondHit "P1" "S1" 90 3 7 5 1 3 0 50 [])
  = [">" +:+ hit_query_id "P1" (mkDiamondHit "P1" "S1" 90 3 7 5 1 3 0 50 []);
     String.substring (Z.to_nat (Z.min 7 5 - 1)) (Z.to_nat (Z.max 7 5 - Z.min 7 5 + 1))
       "MKVLAAGIVG"].
Proof.
  apply (export_hit_entry_slice (sample_read (sample_hit "S1" 50 ["F1"])) "MKVLAAGIVG"
           (mkDiamondHit "P1" "S1" 90 3 7 5 1 3 0 50 [])); simpl; lia.
Defined.

(* --------------------------------------------------------------------- *)
(** ** The further models on sample inputs *)
(* --------------------------------------------------------------------- *)

(** Two proteins of the working set, of three and two residues:
    [import_protein_fasta] returns three reads and eight bases,
    [import_fasta] two reads and five bases. *)
Example import_protein_fasta_counts_twice :
  import_protein_fasta {["P1"; "P2"]} [">P1 first"; "MKV"; ">P2"; "AA"]
  = (3%nat, 8%nat, [("P1", ">P1 first", "MKV"); ("P2", ">P2", "AA")]) /\
  import_fasta {["P1"; "P2"]} [">P1"; "MKV"; ">P2"; "AA"]
  = (2%nat, 5%nat, [("P1", ">P1", "MKV"); ("P2", ">P2", "AA")]).
Proof. split; vm_compute; reflexivity. Qed.

(** The floats of the window bound on sample values: [1.0 - 0.03] is the
    binary64 number next to [0.97], [30.0 * (1.0 - 0.03)] is
    [29.099999999999998], [50.0 * (1.0 - 0.03)] is [48.5]. *)
Example bitscore_lower_cutoff_samples :
  (f64_sub 1 (3 # 100) == 4368491638549381 # 4503599627370496)%Q /\
  (bitscore_lower_cutoff 30 (3 # 100) == 8190921822280089 # 281474976710656)%Q /\
  (bitscore_lower_cutoff 50 (3 # 100) == 97 # 2)%Q.
Proof. vm_compute. done. Qed.

(** A hit on the minus strand, from position 7 to position 5. *)
Example export_hit_fasta_minus_strand :
  export_hit_fasta
    [(sample_read (mkDiamondHit "P1" "S1" 90 3 7 5 1 3 0 50 []), "MKVLAAGIVG")]
  = [">P1|7|5"; "AAG"].
Proof. vm_compute. reflexivity. Qed.

Example sanitize_file_name_sample :
  sanitize_file_name "my 'file'.txt" = "my_file.txt".
Proof. reflexivity. Qed.
